(** * kiosk-one: the signage player of [src/App.jsx]

    A shallow embedding of the React component [App] and of the helpers
    it is built from: the media classifier [isVideo], the playlist
    reconciler inside [fetchContent], the version gate [checkVersion],
    the slider ([nextSlide] and its effect) and the session controls.
    The component is modelled as the current [App.jsx] has it; of the
    earlier snapshot that holds a list of URLs, the reconciler is modelled
    besides ([Legacy]).

    Conventions.
    - A JavaScript string is a [string]: the sequence of the bytes of its
      UTF-8 text.  Every pattern character of the program is ASCII, and in a
      regular expression with flag [i] and without flag [u] a code unit above
      127 never canonicalizes to an ASCII one, so matching on bytes and
      matching on UTF-16 code units agree.
    - A JavaScript number that counts or indexes is a [Z].
    - An abrupt completion (a [throw], a rejected promise that is awaited) is
      the [Throw] constructor of [Completion].
    - An array that the program compares by reference carries its object
      identity ([arr_id]); the program never writes into such an array after
      it was built. *)

From Stdlib Require Import Ascii ZArith Lia.
From stdpp Require Import base option list gmap strings.

Local Open Scope Z_scope.

(** ** Strings *)

Module Str.

Fixpoint map (f : ascii → ascii) (s : string) : string :=
  match s with
  | EmptyString => EmptyString
  | String c s' => String (f c) (map f s')
  end.

(** [s.substring(0, n)] *)
Fixpoint take (n : nat) (s : string) : string :=
  match n, s with
  | S n', String c s' => String c (take n' s')
  | _, _ => EmptyString
  end.

End Str.

(** ** Regular expressions, as far as [App.jsx] uses them

    The one pattern of the program, [/\.(mp4|webm|ogg|mov)/i], is built from
    characters, sequence and disjunction.  The group only captures: nothing
    in the program reads the captured text. *)

Module RegExp.

Inductive pattern : Type :=
| Empty
| Char (c : ascii)
| Seq (p q : pattern)
| Disj (p q : pattern).

(** The pattern of a literal word. *)
Fixpoint lit (w : string) : pattern :=
  match w with
  | EmptyString => Empty
  | String c w' => Seq (Char c) (lit w')
  end.

(** Canonicalize of ECMAScript with flag [i]: the character's upper case.
    Only [a]..[z] change among the bytes. *)
Definition canonicalize (c : ascii) : ascii :=
  let n := nat_of_ascii c in
  if ((97 <=? n)%nat && (n <=? 122)%nat)%bool
  then ascii_of_nat (n - 32) else c.

Definition char_eqb (c d : ascii) : bool := Ascii.eqb c d.

(** The backtracking matcher of the language definition: [run_pattern p s k] matches
    [p] at the start of [s] and hands the rest of the input to the
    continuation [k]; a disjunction tries its left alternative first. *)
Fixpoint run_pattern {T} (p : pattern) (s : string) (k : string → option T)
  : option T :=
  match p with
  | Empty => k s
  | Char c =>
      match s with
      | String d s' =>
          if char_eqb (canonicalize d) (canonicalize c) then k s' else None
      | EmptyString => None
      end
  | Seq p q => run_pattern p s (λ s', run_pattern q s' k)
  | Disj p q =>
      match run_pattern p s k with
      | Some r => Some r
      | None => run_pattern q s k
      end
  end.

(** What [String.prototype.match] returns for a pattern without flag [g]:
    [null], or an array holding the matched text, with property [index]. *)
Record MatchResult : Type := { index : nat; matched : string }.

(** The search loop of [RegExpBuiltinExec], from [lastIndex = 0]. *)
Fixpoint exec_from (p : pattern) (i : nat) (s : string)
  : option MatchResult :=
  match run_pattern p s Some with
  | Some rest =>
      Some {| index := i;
              matched := Str.take (String.length s - String.length rest) s |}
  | None =>
      match s with
      | EmptyString => None
      | String _ s' => exec_from p (S i) s'
      end
  end.

Definition exec (p : pattern) (s : string) : option MatchResult :=
  exec_from p 0 s.

(** The words a pattern matches. *)
Fixpoint lang (p : pattern) (w : string) : Prop :=
  match p with
  | Empty => w = ""
  | Char c => ∃ d, w = String d "" ∧ canonicalize d = canonicalize c
  | Seq p q => ∃ w1 w2, w = w1 +:+ w2 ∧ lang p w1 ∧ lang q w2
  | Disj p q => lang p w ∨ lang q w
  end.

End RegExp.

(** ** The media classifier *)

Import RegExp.

(** [/\.(mp4|webm|ogg|mov)/i] *)
Definition video_pattern : pattern :=
  Seq (Char ".")
      (Disj (lit "mp4") (Disj (lit "webm") (Disj (lit "ogg") (lit "mov")))).

(** [const isVideo = (url) => url.match(/\.(mp4|webm|ogg|mov)/i);] *)
Definition isVideo (url : string) : option MatchResult :=
  exec video_pattern url.

(** A match array is truthy, [null] is falsy. *)
Definition truthy {A} (r : option A) : bool :=
  match r with Some _ => true | None => false end.

Inductive MediaKind : Type := Image | Video.

Global Instance MediaKind_eq_dec : EqDecision MediaKind.
Proof. solve_decision. Defined.

(** The choice every use of [isVideo] makes: [isVideo(url) ? <video> : <img>]
    in the markup, [!isVideo(url)] and [isVideo(url)] in the slider effect. *)
Definition classify (url : string) : MediaKind :=
  if truthy (isVideo url) then Video else Image.

(** ** Completions, promises and arrays *)

Inductive JsError : Type :=
| StorageError (code : string)   (** a rejected promise of the storage client *)
| SyntaxError                    (** [JSON.parse] on text that is not JSON *)
| TypeError                      (** a property read on [undefined] or [null] *)
| MaximumUpdateDepth.            (** React gives up on nested updates *)

Inductive Completion (A : Type) : Type :=
| Normal (a : A)
| Throw (e : JsError).
Global Arguments Normal {A} a.
Global Arguments Throw {A} e.

Global Instance Completion_ret : MRet Completion := λ A, Normal.
Global Instance Completion_bind : MBind Completion := λ A B f c,
  match c with
  | Normal a => f a
  | Throw e => Throw e
  end.

Definition is_normal {A} (c : Completion A) : bool :=
  match c with Normal _ => true | Throw _ => false end.

(** [await Promise.all(l.map(f))]: the list of the results, or a rejection as
    soon as one of the promises rejects.  Which rejection wins depends on
    time; the model reports the first one in list order. *)
Fixpoint promise_all {A B} (f : A → Completion B) (l : list A)
  : Completion (list B) :=
  match l with
  | [] => Normal []
  | x :: l' => y ← f x; ys ← promise_all f l'; Normal (y :: ys)
  end.

(** An array object: its identity and its elements. *)
Record JsArray (A : Type) : Type := MkArray { arr_id : nat; elems : list A }.
Global Arguments MkArray {A} arr_id elems.
Global Arguments arr_id {A} _.
Global Arguments elems {A} _.

(** [a.length] *)
Definition arr_length {A} (a : JsArray A) : Z := Z.of_nat (length (elems a)).

(** [a[i]], with [None] for [undefined]. *)
Definition arr_get {A} (a : JsArray A) (i : Z) : option A :=
  if bool_decide (i < 0) then None else elems a !! Z.to_nat i.

(** [Object.is(a, b)] on two arrays. *)
Definition same_object {A} (a b : JsArray A) : bool :=
  bool_decide (arr_id a = arr_id b).

(** [l.some((x, index) => f(x, index))], the callback free to throw. *)
Fixpoint some_from {A} (f : A → Z → Completion bool) (i : Z) (l : list A)
  : Completion bool :=
  match l with
  | [] => Normal false
  | x :: l' => b ← f x i; if b : bool then Normal true else some_from f (i + 1) l'
  end.

Definition arr_some {A} (f : A → Z → Completion bool) (a : JsArray A)
  : Completion bool :=
  some_from f 0 (elems a).

(** ** The playlist and its reconciler *)

(** [{ url, fullPath, name }] of [fetchContent]. *)
Record MediaItem : Type :=
  { url : string; fullPath : string; name : string }.

Global Instance MediaItem_eq_dec : EqDecision MediaItem.
Proof. solve_decision. Defined.

Abbreviation Playlist := (JsArray MediaItem).

(** [(item, index) => item.url !== newItems[index].url] *)
Definition url_differs (newItems : Playlist) (item : MediaItem) (index : Z)
  : Completion bool :=
  match arr_get newItems index with
  | Some other => Normal (bool_decide (url item ≠ url other))
  | None => Throw TypeError
  end.

(** The updater that [fetchContent] hands to [setMediaItems]:
<<
      prevItems => {
        if (prevItems.length !== newItems.length) return newItems;
        const isDifferent = prevItems.some((item, index) => item.url !== newItems[index].url);
        return isDifferent ? newItems : prevItems;
      }
>> *)
Definition reconcile (newItems prevItems : Playlist) : Completion Playlist :=
  if bool_decide (arr_length prevItems ≠ arr_length newItems)
  then Normal newItems
  else
    isDifferent ← arr_some (url_differs newItems) prevItems;
    Normal (if isDifferent : bool then newItems else prevItems).

(** The earlier snapshot of the component ([unnamed/part_000]) holds a list of
    URLs instead of a list of items. *)
Module Legacy.

Abbreviation Playlist := (JsArray string).

(** [(url, index) => url !== urls[index]]: a string differs from
    [undefined]. *)
Definition url_differs (urls : Playlist) (url : string) (index : Z)
  : Completion bool :=
  match arr_get urls index with
  | Some other => Normal (bool_decide (url ≠ other))
  | None => Normal true
  end.

(**
<<
    prevItems => {
      if (prevItems.length !== urls.length) return urls;
      const isDifferent = prevItems.some((url, index) => url !== urls[index]);
      return isDifferent ? urls : prevItems;
    }
>> *)
Definition reconcile (urls prevItems : Playlist) : Completion Playlist :=
  if bool_decide (arr_length prevItems ≠ arr_length urls)
  then Normal urls
  else
    isDifferent ← arr_some (url_differs urls) prevItems;
    Normal (if isDifferent : bool then urls else prevItems).

End Legacy.

(** ** Decoded JSON *)

#[warnings="-register-all"]
Inductive JsValue : Type :=
| JUndefined
| JNull
| JBool (b : bool)
| JNumber (mantissa exponent : Z)   (** the literal [mantissa]e[exponent] *)
| JString (s : string)
| JArray (items : list JsValue)
| JObject (fields : list (string * JsValue)).

(** The own property [key] of an object that [JSON.parse] built; the fields
    are listed with the last occurrence of a key first. *)
Fixpoint own_property (key : string) (fields : list (string * JsValue))
  : option JsValue :=
  match fields with
  | [] => None
  | (k, v) :: rest => if bool_decide (k = key) then Some v else own_property key rest
  end.

(** [v.version]: a [TypeError] on [undefined] and [null]; the own property of
    an object; [undefined] where neither the value nor its prototype
    ([Object.prototype], [Array.prototype], the wrappers of the primitives)
    has a property of that name. *)
Definition get_version (v : JsValue) : Completion JsValue :=
  match v with
  | JUndefined | JNull => Throw TypeError
  | JObject fields => Normal (default JUndefined (own_property "version" fields))
  | _ => Normal JUndefined
  end.

(** [v !== s] for a string [s]. *)
Definition strict_differs (v : JsValue) (s : string) : bool :=
  match v with
  | JString t => bool_decide (t ≠ s)
  | _ => true
  end.

(** [const APP_VERSION = "1.1";] *)
Definition APP_VERSION : string := "1.1".

(** ** The storage client and the browser *)

(** An entry of [response.items]. *)
Record StorageRef : Type := { ref_fullPath : string; ref_name : string }.

(** The file of an upload. *)
Record File : Type := { file_name : string }.

(** What the world answers when the program asks: the Firebase storage calls
    and the two decoders of the browser.  The world may answer differently at
    every event, so every step takes its own [Remote]. *)
Record Remote : Type := {
  listAll : string → Completion (list StorageRef);
  getDownloadURL : StorageRef → Completion string;
  getBytes : string → Completion (list Byte.byte);
  uploadBytes : string → File → Completion unit;
  deleteObject : string → Completion unit;
  TextDecoder_decode : list Byte.byte → string;
  JSON_parse : string → Completion JsValue;
}.

(** ** The component state *)

(** The [useState] cells of [App]; a render closes over one [Hooks]. *)
Record Hooks : Type := {
  mediaItems : Playlist;
  currentIndex : Z;
  loading : bool;
  notification : string;
  isMuted : bool;
  isFullscreen : bool;
  isUiVisible : bool;
  kioskId : option string;
}.

(** A [<video>] element of a slide. *)
Record VideoElement : Type := { muted : bool; currentTime : Z }.

(** The functions the program hands to [setTimeout] and [setInterval], each
    with the render it closes over. *)
Inductive Callback : Type :=
| CbNextSlide (r : Hooks)        (** [() => nextSlide()] *)
| CbPoll (r : Hooks)             (** [() => { fetchContent(true); checkVersion(); }] *)
| CbClearNotification.           (** [() => setNotification("")] *)

Inductive TimerKind : Type := Timeout | Interval.

Record Timer : Type :=
  { timer_kind : TimerKind; delay : Z; callback : Callback }.

(** An [async] function suspended at an [await], with what it still needs. *)
Inductive Pending : Type :=
| AwaitListing (folderPath : string)       (** [fetchContent], inside [try] *)
| AwaitVersion                             (** [checkVersion], inside [try] *)
| AwaitUpload (r : Hooks) (path : string) (file : File)   (** [handleUpload] *)
| AwaitDelete (r : Hooks) (fullPath : string).            (** [handleDelete] *)

(** What the program does to the world outside its own state. *)
Inductive Output : Type :=
| ConsoleLog (msg : string)
| ConsoleError (msg : string) (e : JsError)
| LocationReload                 (** [window.location.reload(true)] *)
| RequestFullscreen
| VideoPlay (index : nat).

Global Instance JsError_eq_dec : EqDecision JsError.
Proof. solve_decision. Defined.
Global Instance Output_eq_dec : EqDecision Output.
Proof. solve_decision. Defined.

(** The dependencies of the slider effect: [[currentIndex, mediaItems,
    isMuted]], the array by identity. *)
Abbreviation SliderDeps := (Z * nat * bool)%type.

Record State : Type := {
  hooks : Hooks;
  (** [videoRefs.current], the holes and the [null] entries left out *)
  videoRefs : gmap nat VideoElement;
  (** React's record of each effect: the dependencies of its last run and
      the clean-up that run returned (the timer to clear) *)
  mountEffectsDone : bool;
  kioskDeps : option (option string);
  pollCleanup : option nat;
  sliderDeps : option SliderDeps;
  sliderCleanup : option nat;
  (** the browser *)
  location_id : option string;   (** [params.get("id")] *)
  fullscreenElement : bool;      (** [!!document.fullscreenElement] *)
  timers : gmap nat Timer;
  nextTimer : nat;
  nextObject : nat;              (** the identity of the next new array *)
  pending : list Pending;
  outputs : list Output;
}.

Definition with_hooks (f : Hooks → Hooks) (s : State) : State :=
  {| hooks := f (hooks s); videoRefs := videoRefs s;
     mountEffectsDone := mountEffectsDone s; kioskDeps := kioskDeps s;
     pollCleanup := pollCleanup s; sliderDeps := sliderDeps s;
     sliderCleanup := sliderCleanup s; location_id := location_id s;
     fullscreenElement := fullscreenElement s; timers := timers s;
     nextTimer := nextTimer s; nextObject := nextObject s;
     pending := pending s; outputs := outputs s |}.

Definition with_videoRefs (f : gmap nat VideoElement → gmap nat VideoElement)
    (s : State) : State :=
  {| hooks := hooks s; videoRefs := f (videoRefs s);
     mountEffectsDone := mountEffectsDone s; kioskDeps := kioskDeps s;
     pollCleanup := pollCleanup s; sliderDeps := sliderDeps s;
     sliderCleanup := sliderCleanup s; location_id := location_id s;
     fullscreenElement := fullscreenElement s; timers := timers s;
     nextTimer := nextTimer s; nextObject := nextObject s;
     pending := pending s; outputs := outputs s |}.

Definition with_mountEffectsDone (b : bool) (s : State) : State :=
  {| hooks := hooks s; videoRefs := videoRefs s;
     mountEffectsDone := b; kioskDeps := kioskDeps s;
     pollCleanup := pollCleanup s; sliderDeps := sliderDeps s;
     sliderCleanup := sliderCleanup s; location_id := location_id s;
     fullscreenElement := fullscreenElement s; timers := timers s;
     nextTimer := nextTimer s; nextObject := nextObject s;
     pending := pending s; outputs := outputs s |}.

Definition with_kioskEffects (deps : option (option string))
    (cleanup : option nat) (s : State) : State :=
  {| hooks := hooks s; videoRefs := videoRefs s;
     mountEffectsDone := mountEffectsDone s; kioskDeps := deps;
     pollCleanup := cleanup; sliderDeps := sliderDeps s;
     sliderCleanup := sliderCleanup s; location_id := location_id s;
     fullscreenElement := fullscreenElement s; timers := timers s;
     nextTimer := nextTimer s; nextObject := nextObject s;
     pending := pending s; outputs := outputs s |}.

Definition with_sliderEffect (deps : option SliderDeps)
    (cleanup : option nat) (s : State) : State :=
  {| hooks := hooks s; videoRefs := videoRefs s;
     mountEffectsDone := mountEffectsDone s; kioskDeps := kioskDeps s;
     pollCleanup := pollCleanup s; sliderDeps := deps;
     sliderCleanup := cleanup; location_id := location_id s;
     fullscreenElement := fullscreenElement s; timers := timers s;
     nextTimer := nextTimer s; nextObject := nextObject s;
     pending := pending s; outputs := outputs s |}.

Definition with_fullscreenElement (b : bool) (s : State) : State :=
  {| hooks := hooks s; videoRefs := videoRefs s;
     mountEffectsDone := mountEffectsDone s; kioskDeps := kioskDeps s;
     pollCleanup := pollCleanup s; sliderDeps := sliderDeps s;
     sliderCleanup := sliderCleanup s; location_id := location_id s;
     fullscreenElement := b; timers := timers s;
     nextTimer := nextTimer s; nextObject := nextObject s;
     pending := pending s; outputs := outputs s |}.

Definition with_timers (f : gmap nat Timer → gmap nat Timer) (next : nat)
    (s : State) : State :=
  {| hooks := hooks s; videoRefs := videoRefs s;
     mountEffectsDone := mountEffectsDone s; kioskDeps := kioskDeps s;
     pollCleanup := pollCleanup s; sliderDeps := sliderDeps s;
     sliderCleanup := sliderCleanup s; location_id := location_id s;
     fullscreenElement := fullscreenElement s; timers := f (timers s);
     nextTimer := next; nextObject := nextObject s;
     pending := pending s; outputs := outputs s |}.

Definition with_nextObject (n : nat) (s : State) : State :=
  {| hooks := hooks s; videoRefs := videoRefs s;
     mountEffectsDone := mountEffectsDone s; kioskDeps := kioskDeps s;
     pollCleanup := pollCleanup s; sliderDeps := sliderDeps s;
     sliderCleanup := sliderCleanup s; location_id := location_id s;
     fullscreenElement := fullscreenElement s; timers := timers s;
     nextTimer := nextTimer s; nextObject := n;
     pending := pending s; outputs := outputs s |}.

Definition with_pending (f : list Pending → list Pending) (s : State) : State :=
  {| hooks := hooks s; videoRefs := videoRefs s;
     mountEffectsDone := mountEffectsDone s; kioskDeps := kioskDeps s;
     pollCleanup := pollCleanup s; sliderDeps := sliderDeps s;
     sliderCleanup := sliderCleanup s; location_id := location_id s;
     fullscreenElement := fullscreenElement s; timers := timers s;
     nextTimer := nextTimer s; nextObject := nextObject s;
     pending := f (pending s); outputs := outputs s |}.

Definition emit (o : Output) (s : State) : State :=
  {| hooks := hooks s; videoRefs := videoRefs s;
     mountEffectsDone := mountEffectsDone s; kioskDeps := kioskDeps s;
     pollCleanup := pollCleanup s; sliderDeps := sliderDeps s;
     sliderCleanup := sliderCleanup s; location_id := location_id s;
     fullscreenElement := fullscreenElement s; timers := timers s;
     nextTimer := nextTimer s; nextObject := nextObject s;
     pending := pending s; outputs := outputs s ++ [o] |}.

(** The setters of the [useState] cells, with an updater function. *)
Definition setMediaItems (f : Playlist → Playlist) : State → State :=
  with_hooks (λ h,
    {| mediaItems := f (mediaItems h); currentIndex := currentIndex h;
       loading := loading h; notification := notification h;
       isMuted := isMuted h; isFullscreen := isFullscreen h;
       isUiVisible := isUiVisible h; kioskId := kioskId h |}).

Definition setCurrentIndex (f : Z → Z) : State → State :=
  with_hooks (λ h,
    {| mediaItems := mediaItems h; currentIndex := f (currentIndex h);
       loading := loading h; notification := notification h;
       isMuted := isMuted h; isFullscreen := isFullscreen h;
       isUiVisible := isUiVisible h; kioskId := kioskId h |}).

Definition setLoading (b : bool) : State → State :=
  with_hooks (λ h,
    {| mediaItems := mediaItems h; currentIndex := currentIndex h;
       loading := b; notification := notification h;
       isMuted := isMuted h; isFullscreen := isFullscreen h;
       isUiVisible := isUiVisible h; kioskId := kioskId h |}).

Definition setNotification (msg : string) : State → State :=
  with_hooks (λ h,
    {| mediaItems := mediaItems h; currentIndex := currentIndex h;
       loading := loading h; notification := msg;
       isMuted := isMuted h; isFullscreen := isFullscreen h;
       isUiVisible := isUiVisible h; kioskId := kioskId h |}).

Definition setIsMuted (b : bool) : State → State :=
  with_hooks (λ h,
    {| mediaItems := mediaItems h; currentIndex := currentIndex h;
       loading := loading h; notification := notification h;
       isMuted := b; isFullscreen := isFullscreen h;
       isUiVisible := isUiVisible h; kioskId := kioskId h |}).

Definition setIsFullscreen (b : bool) : State → State :=
  with_hooks (λ h,
    {| mediaItems := mediaItems h; currentIndex := currentIndex h;
       loading := loading h; notification := notification h;
       isMuted := isMuted h; isFullscreen := b;
       isUiVisible := isUiVisible h; kioskId := kioskId h |}).

Definition setIsUiVisible (b : bool) : State → State :=
  with_hooks (λ h,
    {| mediaItems := mediaItems h; currentIndex := currentIndex h;
       loading := loading h; notification := notification h;
       isMuted := isMuted h; isFullscreen := isFullscreen h;
       isUiVisible := b; kioskId := kioskId h |}).

Definition setKioskId (id : option string) : State → State :=
  with_hooks (λ h,
    {| mediaItems := mediaItems h; currentIndex := currentIndex h;
       loading := loading h; notification := notification h;
       isMuted := isMuted h; isFullscreen := isFullscreen h;
       isUiVisible := isUiVisible h; kioskId := id |}).

(** ** Timers *)

(** [setTimeout(cb, ms)] and [setInterval(cb, ms)]: the new timer's id. *)
Definition setTimer (k : TimerKind) (cb : Callback) (ms : Z) (s : State)
  : nat * State :=
  let id := nextTimer s in
  (id, with_timers
         (<[id := {| timer_kind := k; delay := ms; callback := cb |}]>) (S id) s).

(** [clearTimeout(id)] and [clearInterval(id)] *)
Definition clearTimer (id : nat) (s : State) : State :=
  with_timers (delete id) (nextTimer s) s.

(** The clean-up function an effect returned, if it returned one. *)
Definition run_cleanup (c : option nat) (s : State) : State :=
  match c with
  | Some id => clearTimer id s
  | None => s
  end.

(** ** The functions of [App] *)

(** [kioskId] is truthy: neither [null] nor the empty string. *)
Definition kiosk_known (k : option string) : bool :=
  match k with
  | Some id => bool_decide (id ≠ "")
  | None => false
  end.

(** [${kioskId}] inside a template literal. *)
Definition template (k : option string) : string := default "null" k.

(** [videoRefs.current[i]] *)
Definition videoRef (s : State) (i : Z) : option VideoElement :=
  if bool_decide (i < 0) then None else videoRefs s !! Z.to_nat i.

(** [fetchContent] up to its first [await]; [r] is the render whose
    [fetchContent] is called. *)
Definition fetchContent (r : Hooks) (isBackgroundRefresh : bool) (s : State)
  : State :=
  if negb (kiosk_known (kioskId r)) then s
  else
    let s :=
      if negb isBackgroundRefresh && bool_decide (arr_length (mediaItems r) = 0)
      then setLoading true s else s in
    with_pending
      (λ l, l ++ [AwaitListing ("images/" +:+ template (kioskId r) +:+ "/")]) s.

(** The two awaits of the [try] block: the listing and the download URL of
    every listed object. *)
Definition list_items (env : Remote) (folderPath : string)
  : Completion (list MediaItem) :=
  response ← listAll env folderPath;
  promise_all
    (λ item, u ← getDownloadURL env item;
             Normal {| url := u; fullPath := ref_fullPath item;
                       name := ref_name item |})
    response.

(** [fetchContent] from its [await] on: [setMediaItems] with the reconciler,
    or the [catch] block; then the [finally] block.  The reconciler runs
    when React processes the update, outside the [try] block. *)
Definition fetchContent_settle (env : Remote) (folderPath : string) (s : State)
  : Completion State :=
  s' ← match list_items env folderPath with
       | Normal items =>
           let newItems := MkArray (nextObject s) items in
           let s := with_nextObject (S (nextObject s)) s in
           next ← reconcile newItems (mediaItems (hooks s));
           Normal (setMediaItems (λ _, next) s)
       | Throw error =>
           Normal (emit (ConsoleError "Error fetching content:" error) s)
       end;
  Normal (setLoading false s').

(** [checkVersion] up to its [await]. *)
Definition checkVersion (s : State) : State :=
  with_pending (λ l, l ++ [AwaitVersion]) s.

(** The [try] block of [checkVersion] up to its [if]:
    [remoteData.version !== APP_VERSION]. *)
Definition version_differs (env : Remote) : Completion bool :=
  bytes ← getBytes env "images/common/version.json";
  let text := TextDecoder_decode env bytes in
  remoteData ← JSON_parse env text;
  version ← get_version remoteData;
  Normal (strict_differs version APP_VERSION).

(** [checkVersion] from its [await] on; the [catch] block is empty. *)
Definition checkVersion_settle (env : Remote) (s : State) : State :=
  match version_differs env with
  | Normal true =>
      emit LocationReload
        (emit (ConsoleLog "New version detected! Reloading...") s)
  | Normal false => s
  | Throw _ => s
  end.

(** [(prev) => { if (prev >= mediaItems.length - 1) return 0; return prev + 1; }] *)
Definition nextSlide_updater (r : Hooks) (prev : Z) : Z :=
  if prev >=? arr_length (mediaItems r) - 1 then 0 else prev + 1.

Definition nextSlide (r : Hooks) : State → State :=
  setCurrentIndex (nextSlide_updater r).

(** [showToast]; its timer is never cleared. *)
Definition showToast (msg : string) (s : State) : State :=
  (setTimer Timeout CbClearNotification 3000 (setNotification msg s)).2.

Definition toggleSound (r : Hooks) (s : State) : State :=
  let s := setIsMuted (negb (isMuted r)) s in
  match videoRef s (currentIndex r) with
  | Some currentVideo =>
      with_videoRefs
        (<[Z.to_nat (currentIndex r) :=
             {| muted := negb (isMuted r);
                currentTime := currentTime currentVideo |}]>) s
  | None => s
  end.

Definition toggleFullscreenAndUi (s : State) : State :=
  let s := if fullscreenElement s then s else emit RequestFullscreen s in
  setIsUiVisible false s.

Definition showUi : State → State := setIsUiVisible true.

(** [handleFsChange] *)
Definition handleFsChange (s : State) : State :=
  setIsFullscreen (fullscreenElement s) s.

(** [handleDelete] up to its [await]; [confirmed] is the operator's answer
    to [window.confirm]. *)
Definition handleDelete (r : Hooks) (path : string) (confirmed : bool)
    (s : State) : State :=
  if negb confirmed then s
  else with_pending (λ l, l ++ [AwaitDelete r path]) (showToast "Deleting..." s).

Definition handleDelete_settle (env : Remote) (r : Hooks) (path : string)
    (s : State) : State :=
  match deleteObject env path with
  | Normal _ => fetchContent r true (showToast "Deleted!" s)
  | Throw _ => showToast "Error deleting." s
  end.

(** [handleUpload] up to its [await]; [file] is [e.target.files[0]]. *)
Definition handleUpload (r : Hooks) (file : option File) (s : State) : State :=
  match file with
  | None => s
  | Some file =>
      let path := "images/" +:+ template (kioskId r) +:+ "/" +:+ file_name file in
      with_pending (λ l, l ++ [AwaitUpload r path file])
        (showToast "Uploading..." s)
  end.

Definition handleUpload_settle (env : Remote) (r : Hooks) (path : string)
    (file : File) (s : State) : State :=
  match uploadBytes env path file with
  | Normal _ => fetchContent r true (showToast "Success!" s)
  | Throw _ => showToast "Error uploading." s
  end.

(** ** Rendering and effects *)

(** The [<video>] elements of the slides after a render.  A slide's key is
    its index, so a video at an index that held a video before is the same
    element; React hands [null] to the ref of a slide that is an image or is
    gone.  React writes the prop [muted] to the element when the prop's value
    changes; the model writes it at every render, which gives the same
    elements, as [toggleSound] and the slider effect only ever write the
    value that the next render passes. *)
Fixpoint slide_videos (refs : gmap nat VideoElement) (isMuted : bool)
    (i : nat) (items : list MediaItem) : gmap nat VideoElement :=
  match items with
  | [] => ∅
  | item :: rest =>
      let others := slide_videos refs isMuted (S i) rest in
      if truthy (isVideo (url item))
      then <[i := {| muted := isMuted;
                     currentTime := from_option currentTime 0 (refs !! i) |}]>
             others
      else others
  end.

Definition render (s : State) : State :=
  with_videoRefs
    (λ refs, slide_videos refs (isMuted (hooks s)) 0
               (elems (mediaItems (hooks s)))) s.

(** Effect 1, [[]]: [params.get("id") || "common"]. *)
Definition detectKioskEffect (s : State) : State :=
  let id := match location_id s with
            | Some v => if bool_decide (v = "") then "common" else v
            | None => "common"
            end in
  setKioskId (Some id) s.

(** Effect 2, [[kioskId]]: [if (kioskId) fetchContent();] *)
Definition initialFetchEffect (r : Hooks) (s : State) : State :=
  if kiosk_known (kioskId r) then fetchContent r false s else s.

(** Effect 3, [[kioskId]]: the auto-refresh and version check.  The result
    holds the interval that the returned clean-up clears. *)
Definition pollEffect (r : Hooks) (s : State) : State * option nat :=
  if negb (kiosk_known (kioskId r)) then (s, None)
  else
    let '(interval, s) := setTimer Interval (CbPoll r) 120000 s in
    (s, Some interval).

(** Effect 4, [[currentIndex, mediaItems, isMuted]]: the slider. *)
Definition sliderEffect (r : Hooks) (s : State)
  : Completion (State * option nat) :=
  if bool_decide (arr_length (mediaItems r) = 0) then Normal (s, None)
  else if currentIndex r >=? arr_length (mediaItems r)
  then Normal (setCurrentIndex (λ _, 0) s, None)
  else
    match arr_get (mediaItems r) (currentIndex r) with
    | None => Throw TypeError
    | Some currentItem =>
        if negb (truthy (isVideo (url currentItem))) then
          let '(timer, s) := setTimer Timeout (CbNextSlide r) 5000 s in
          Normal (s, Some timer)
        else
          match videoRef s (currentIndex r) with
          | Some currentVideo =>
              let i := Z.to_nat (currentIndex r) in
              Normal
                (emit (VideoPlay i)
                   (with_videoRefs
                      (<[i := {| muted := isMuted r; currentTime := 0 |}]>) s),
                 None)
          | None => Normal (s, None)
          end
    end.

(** An effect runs when it has not run yet or one of its dependencies changed
    since its last run, after the clean-up that the last run returned; it
    reads the render [r] it was created in. *)

(** Effect 1 has no dependencies: it runs once. *)
Definition run_mount_effects (s : State) : State :=
  if mountEffectsDone s then s
  else with_mountEffectsDone true (detectKioskEffect s).

(** Effects 2 and 3 depend on [[kioskId]]. *)
Definition run_kiosk_effects (r : Hooks) (s : State) : State :=
  if bool_decide (kioskDeps s = Some (kioskId r)) then s
  else
    let s := initialFetchEffect r s in
    let '(s, cleanup) := pollEffect r (run_cleanup (pollCleanup s) s) in
    with_kioskEffects (Some (kioskId r)) cleanup s.

(** Effect 4 depends on [[currentIndex, mediaItems, isMuted]]. *)
Definition run_slider_effect (r : Hooks) (s : State) : Completion State :=
  let deps := (currentIndex r, arr_id (mediaItems r), isMuted r) in
  if bool_decide (sliderDeps s = Some deps) then Normal s
  else
    '(s, cleanup) ← sliderEffect r (run_cleanup (sliderCleanup s) s);
    Normal (with_sliderEffect (Some deps) cleanup s).

(** The effects of one commit, in the order of the source. *)
Definition run_effects (s : State) : Completion State :=
  let r := hooks s in
  run_slider_effect r (run_kiosk_effects r (run_mount_effects s)).

(** [Object.is] on every cell: React renders again when a cell changed. *)
Definition hooks_same (a b : Hooks) : bool :=
  same_object (mediaItems a) (mediaItems b)
  && bool_decide (currentIndex a = currentIndex b)
  && bool_decide (loading a = loading b)
  && bool_decide (notification a = notification b)
  && bool_decide (isMuted a = isMuted b)
  && bool_decide (isFullscreen a = isFullscreen b)
  && bool_decide (isUiVisible a = isUiVisible b)
  && bool_decide (kioskId a = kioskId b).

(** React's bound on updates nested in effects. *)
Definition NESTED_UPDATE_LIMIT : nat := 50.

(** Render, run the effects, and again while an effect changed a cell. *)
Fixpoint commit (fuel : nat) (s : State) : Completion State :=
  match fuel with
  | O => Throw MaximumUpdateDepth
  | S fuel' =>
      let s := render s in
      s' ← run_effects s;
      if hooks_same (hooks s) (hooks s') then Normal s' else commit fuel' s'
  end.

Global Arguments commit : simpl never.

(** Unmounting runs the clean-ups of the effects. *)
Definition unmount (s : State) : State :=
  with_sliderEffect None None
    (run_cleanup (sliderCleanup s)
       (with_kioskEffects None None (run_cleanup (pollCleanup s) s))).

(** ** Events *)

Inductive Event : Type :=
| Settle (n : nat)                     (** a suspended function resumes *)
| TimerFires (id : nat)
| VideoEnded (index : nat)             (** [onEnded] of the slide's video *)
| PlayRejected                         (** [playPromise.catch] *)
| FullscreenRejected (msg : string)    (** [requestFullscreen().catch] *)
| FullscreenChange (element : bool)    (** [fullscreenchange] *)
| ClickToggleSound
| ClickFullscreenHide
| ClickClose
| ClickReopen
| FileChosen (file : option File)      (** [onChange] of the file input *)
| ClickDelete (path : string) (confirmed : bool).

Definition settle (env : Remote) (p : Pending) (s : State) : Completion State :=
  match p with
  | AwaitListing folderPath => fetchContent_settle env folderPath s
  | AwaitVersion => Normal (checkVersion_settle env s)
  | AwaitUpload r path file => Normal (handleUpload_settle env r path file s)
  | AwaitDelete r path => Normal (handleDelete_settle env r path s)
  end.

Definition fire (cb : Callback) (s : State) : State :=
  match cb with
  | CbNextSlide r => nextSlide r s
  | CbPoll r => checkVersion (fetchContent r true s)
  | CbClearNotification => setNotification "" s
  end.

(** The handler of an event, reading the last render.  The listener of
    [fullscreenchange] (effect 5) is attached from the mount to the unmount,
    and so are the handlers in the markup. *)
Definition handle (env : Remote) (ev : Event) (s : State) : Completion State :=
  let r := hooks s in
  match ev with
  | Settle n =>
      match pending s !! n with
      | Some p => settle env p (with_pending (delete n) s)
      | None => Normal s
      end
  | TimerFires id =>
      match timers s !! id with
      | Some t =>
          let s := match timer_kind t with
                   | Timeout => clearTimer id s
                   | Interval => s
                   end in
          Normal (fire (callback t) s)
      | None => Normal s
      end
  | VideoEnded index =>
      match videoRefs s !! index with
      | Some _ => Normal (nextSlide r s)
      | None => Normal s
      end
  | PlayRejected => Normal (emit (ConsoleLog "Autoplay waiting") s)
  | FullscreenRejected msg => Normal (emit (ConsoleLog msg) s)
  | FullscreenChange element =>
      Normal (handleFsChange (with_fullscreenElement element s))
  | ClickToggleSound => Normal (toggleSound r s)
  | ClickFullscreenHide => Normal (toggleFullscreenAndUi s)
  | ClickClose => Normal (setIsUiVisible false s)
  | ClickReopen => Normal (showUi s)
  | FileChosen file => Normal (handleUpload r file s)
  | ClickDelete path confirmed => Normal (handleDelete r path confirmed s)
  end.

(** One turn of the event loop: the handler, then React's commit. *)
Definition step (env : Remote) (ev : Event) (s : State) : Completion State :=
  s' ← handle env ev s;
  commit NESTED_UPDATE_LIMIT s'.

(** The state before the first render: the initial values of the cells. *)
Definition initial (id : option string) : State :=
  {| hooks := {| mediaItems := MkArray 0 []; currentIndex := 0;
                 loading := false; notification := "";
                 isMuted := true; isFullscreen := false;
                 isUiVisible := true; kioskId := None |};
     videoRefs := ∅;
     mountEffectsDone := false; kioskDeps := None; pollCleanup := None;
     sliderDeps := None; sliderCleanup := None;
     location_id := id; fullscreenElement := false;
     timers := ∅; nextTimer := 0; nextObject := 1;
     pending := []; outputs := [] |}.

Definition mount (id : option string) : Completion State :=
  commit NESTED_UPDATE_LIMIT (initial id).

(** A run of the program: the mount, then one event after the other. *)
Fixpoint run (events : list (Remote * Event)) (s : State) : Completion State :=
  match events with
  | [] => Normal s
  | (env, ev) :: rest => s' ← step env ev s; run rest s'
  end.

(** ** The specification's words

    The predicates below are written from the specification, not from the
    code; the theorems compare the code with them. *)

Module Spec.

(** "[{mp4, webm, ogg, mov}]" *)
Definition video_extensions : list string := ["mp4"; "webm"; "ogg"; "mov"].

(** "case-insensitive": equal up to the case of the letters. *)
Definition ci_eq (a b : string) : Prop :=
  Str.map canonicalize a = Str.map canonicalize b.

(** "filename/URL suffix matching": the text ends with a dot and one of
    the extensions. *)
Definition has_video_suffix (s : string) : Prop :=
  ∃ pre ext e, s = pre +:+ "." +:+ ext ∧ e ∈ video_extensions ∧ ci_eq ext e.

(** The same, as a test that computes: some suffix of the text is a dot
    followed by one of the extensions. *)
Fixpoint suffixes (s : string) : list string :=
  s :: match s with
       | EmptyString => []
       | String _ s' => suffixes s'
       end.

Definition is_dot_extension (t : string) : bool :=
  match t with
  | String c ext =>
      bool_decide (c = "."%char)
      && existsb (λ e, bool_decide (Str.map canonicalize ext
                                    = Str.map canonicalize e))
           video_extensions
  | EmptyString => false
  end.

Definition has_video_suffixb (s : string) : bool :=
  existsb is_dot_extension (suffixes s).

(** A dot and one of the extensions at any position of the text. *)
Definition contains_video_extension (s : string) : Prop :=
  ∃ pre ext post e,
    s = pre +:+ "." +:+ ext +:+ post ∧ e ∈ video_extensions ∧ ci_eq ext e.

(** "[VersionDescriptor: { version: string }]": the version string of a
    decoded descriptor, if it has one. *)
Definition version_string (v : JsValue) : option string :=
  match v with
  | JObject fields =>
      match own_property "version" fields with
      | Some (JString s) => Some s
      | _ => None
      end
  | _ => None
  end.

(** "triggers a full reload of the running program": how often the
    program asked for a reload. *)
Definition reloads (s : State) : nat :=
  length (filter (λ o, o = LocationReload) (outputs s)).

(** "a full reload is triggered if and only if the remote descriptor is
    successfully fetched and decoded and its version string differs from
    the compiled-in build constant" *)
Definition reload_as_specified (env : Remote) (s : State) : Prop :=
  reloads (checkVersion_settle env s) = S (reloads s) ↔
  ∃ bytes v ver,
    getBytes env "images/common/version.json" = Normal bytes ∧
    JSON_parse env (TextDecoder_decode env bytes) = Normal v ∧
    version_string v = Some ver ∧ ver ≠ APP_VERSION.

(** "two independent repeating timers": two intervals are armed, one whose
    tick starts a content refresh and nothing else, one whose tick starts a
    version check and nothing else. *)
Definition runs_only_refresh (cb : Callback) (s : State) : Prop :=
  ∃ path, pending (fire cb s) = pending s ++ [AwaitListing path].
Definition runs_only_version_check (cb : Callback) (s : State) : Prop :=
  pending (fire cb s) = pending s ++ [AwaitVersion].
Definition two_independent_timers (s : State) : Prop :=
  ∃ i j ti tj,
    i ≠ j ∧ timers s !! i = Some ti ∧ timers s !! j = Some tj ∧
    timer_kind ti = Interval ∧ timer_kind tj = Interval ∧
    runs_only_refresh (callback ti) s ∧
    runs_only_version_check (callback tj) s.

End Spec.

(** ** Invariants of the running component *)

(** What holds between two turns of the event loop: the index is a valid
    position or the playlist is empty, every effect has run for the cells as
    they are, the identity of the next array is unused, and every slide that
    is a video has its element in [videoRefs]. *)
Record Inv (s : State) : Prop := {
  inv_index_nonneg : 0 ≤ currentIndex (hooks s);
  inv_index_range :
    arr_length (mediaItems (hooks s)) = 0 ∨
    currentIndex (hooks s) < arr_length (mediaItems (hooks s));
  inv_mounted : mountEffectsDone s = true;
  inv_kiosk : kioskDeps s = Some (kioskId (hooks s));
  inv_slider :
    sliderDeps s =
      Some (currentIndex (hooks s), arr_id (mediaItems (hooks s)),
            isMuted (hooks s));
  inv_fresh : (arr_id (mediaItems (hooks s)) < nextObject s)%nat;
  inv_videos : ∀ k item,
    elems (mediaItems (hooks s)) !! k = Some item →
    truthy (isVideo (url item)) = true →
    is_Some (videoRefs s !! k);
}.

(** What holds once a handler has run and React has not committed yet: the
    slider effect may be due, and if it is not, the index is in range. *)
Record Inv_handled (s : State) : Prop := {
  mid_index_nonneg : 0 ≤ currentIndex (hooks s);
  mid_mounted : mountEffectsDone s = true;
  mid_kiosk : kioskDeps s = Some (kioskId (hooks s));
  mid_fresh : (arr_id (mediaItems (hooks s)) < nextObject s)%nat;
  mid_slider :
    sliderDeps s =
      Some (currentIndex (hooks s), arr_id (mediaItems (hooks s)),
            isMuted (hooks s)) →
    arr_length (mediaItems (hooks s)) = 0 ∨
    currentIndex (hooks s) < arr_length (mediaItems (hooks s));
}.

(** The states of the program: after the mount, and after every event. *)
Inductive reachable : State → Prop :=
| reach_mount id s :
    mount id = Normal s → reachable s
| reach_step s env ev s' :
    reachable s → step env ev s = Normal s' → reachable s'.

(** ** The vocabulary of the proofs *)

(** The elements that one state has, the other has too. *)
Definition keeps_videos (s s1 : State) : Prop :=
  ∀ k, is_Some (videoRefs s !! k) → is_Some (videoRefs s1 !! k).

(** The index after the commit: the slider effect resets an index that is
    past the end of a playlist with items. *)
Definition settled_index (h : Hooks) : Z :=
  if bool_decide (arr_length (mediaItems h) = 0
                  ∨ currentIndex h < arr_length (mediaItems h))
  then currentIndex h else 0.

(** What no handler does: none throws, none touches React's record of the
    effects or [kioskId], none but [toggleSound] writes the mute flag, none
    makes the index negative, and the held playlist stays the same object
    unless a listing brought a new one. *)
Record handled (ev : Event) (s s1 : State) : Prop := {
  h_mounted : mountEffectsDone s1 = mountEffectsDone s;
  h_kioskDeps : kioskDeps s1 = kioskDeps s;
  h_sliderDeps : sliderDeps s1 = sliderDeps s;
  h_kioskId : kioskId (hooks s1) = kioskId (hooks s);
  h_isMuted : ev ≠ ClickToggleSound → isMuted (hooks s1) = isMuted (hooks s);
  h_index : 0 ≤ currentIndex (hooks s) → 0 ≤ currentIndex (hooks s1);
  h_playlist :
    (mediaItems (hooks s1) = mediaItems (hooks s) ∧
     (nextObject s ≤ nextObject s1)%nat) ∨
    (arr_id (mediaItems (hooks s1)) = nextObject s ∧
     nextObject s1 = S (nextObject s));
}.

(** *** The mount *)

(** [params.get("id") || "common"] *)
Definition detected (id : option string) : string :=
  match id with
  | Some v => if bool_decide (v = "") then "common" else v
  | None => "common"
  end.

(** The cells after the first render's effects: only [kioskId] is set. *)
Definition detected_hooks (id : option string) : Hooks :=
  {| mediaItems := MkArray 0 []; currentIndex := 0;
     loading := false; notification := "";
     isMuted := true; isFullscreen := false;
     isUiVisible := true; kioskId := Some (detected id) |}.

Definition after_detect (id : option string) : State :=
  {| hooks := detected_hooks id;
     videoRefs := ∅;
     mountEffectsDone := true; kioskDeps := Some None; pollCleanup := None;
     sliderDeps := Some (0, 0%nat, true); sliderCleanup := None;
     location_id := id; fullscreenElement := false;
     timers := ∅; nextTimer := 0; nextObject := 1;
     pending := []; outputs := [] |}.

(** The state the mount ends in: the first listing is under way, behind the
    loading indicator, and the poll interval is armed. *)
Definition mounted_state (id : option string) : State :=
  {| hooks := {| mediaItems := MkArray 0 []; currentIndex := 0;
                 loading := true; notification := "";
                 isMuted := true; isFullscreen := false;
                 isUiVisible := true; kioskId := Some (detected id) |};
     videoRefs := ∅;
     mountEffectsDone := true; kioskDeps := Some (Some (detected id));
     pollCleanup := Some 0%nat;
     sliderDeps := Some (0, 0%nat, true); sliderCleanup := None;
     location_id := id; fullscreenElement := false;
     timers := <[0%nat := {| timer_kind := Interval; delay := 120000;
                             callback := CbPoll (detected_hooks id) |}]> ∅;
     nextTimer := 1; nextObject := 1;
     pending := [AwaitListing ("images/" +:+ detected id +:+ "/")];
     outputs := [] |}.

(** ** Example worlds and runs *)

Module Demo.

Definition a_png : StorageRef :=
  {| ref_fullPath := "images/lobby/a.png"; ref_name := "a.png" |}.
Definition b_mp4 : StorageRef :=
  {| ref_fullPath := "images/lobby/b.mp4"; ref_name := "b.mp4" |}.
Definition c_jpg : StorageRef :=
  {| ref_fullPath := "images/lobby/c.jpg"; ref_name := "c.jpg" |}.
Definition gone_png : StorageRef :=
  {| ref_fullPath := "images/lobby/gone.png"; ref_name := "gone.png" |}.

Definition dq : string := String (ascii_of_nat 34) EmptyString.

(** The text [{"version":"v"}]. *)
Definition descriptor_text (v : string) : string :=
  "{" +:+ dq +:+ "version" +:+ dq +:+ ":" +:+ dq +:+ v +:+ dq +:+ "}".

(** [JSON.parse] on the texts of the examples; the examples hand it no other
    text. *)
Definition parse_example (text : string) : Completion JsValue :=
  if bool_decide (text = "{}") then Normal (JObject [])
  else if bool_decide (text = "null") then Normal JNull
  else if bool_decide (text = descriptor_text "1.1")
  then Normal (JObject [("version", JString "1.1")])
  else if bool_decide (text = descriptor_text "1.2")
  then Normal (JObject [("version", JString "1.2")])
  else Throw SyntaxError.

(** A world: what the folder lists, and what the version descriptor holds.
    The object [gone.png] is listed and cannot be resolved. *)
Definition remote (listing : Completion (list StorageRef))
    (descriptor : Completion string) : Remote :=
  {| listAll := λ _, listing;
     getDownloadURL := λ item,
       if bool_decide (ref_name item = "gone.png")
       then Throw (StorageError "storage/object-not-found")
       else Normal ("https://cdn.example/o/" +:+ ref_fullPath item
                    +:+ "?alt=media");
     getBytes := λ _, text ← descriptor; Normal (String.list_byte_of_string text);
     uploadBytes := λ _ _, Normal ();
     deleteObject := λ _, Normal ();
     TextDecoder_decode := String.string_of_list_byte;
     JSON_parse := parse_example |}.

Definition three_items : Remote :=
  remote (Normal [a_png; b_mp4; c_jpg]) (Normal (descriptor_text "1.1")).
Definition two_items : Remote :=
  remote (Normal [a_png; b_mp4]) (Normal (descriptor_text "1.1")).
Definition storage_down : Remote :=
  remote (Throw (StorageError "storage/retry-limit-exceeded"))
         (Throw (StorageError "storage/retry-limit-exceeded")).
Definition unresolved_item : Remote :=
  remote (Normal [a_png; gone_png]) (Normal (descriptor_text "1.1")).
Definition new_build : Remote :=
  remote (Normal [a_png; b_mp4; c_jpg]) (Normal (descriptor_text "1.2")).
Definition empty_descriptor : Remote :=
  remote (Normal [a_png; b_mp4; c_jpg]) (Normal "{}").
Definition broken_descriptor : Remote :=
  remote (Normal [a_png; b_mp4; c_jpg]) (Normal "{ version").

Definition state_of (c : Completion State) : State :=
  match c with
  | Normal s => s
  | Throw _ => initial None
  end.

(** Kiosk "lobby" after the mount. *)
Definition lobby : State :=
  Eval vm_compute in state_of (mount (Some "lobby")).

(** After the first listing: a.png shows, its dwell timer runs. *)
Definition showing_a : State :=
  Eval vm_compute in state_of (step three_items (Settle 0) lobby).

(** After the dwell time: b.mp4 plays. *)
Definition showing_b : State :=
  Eval vm_compute in state_of (step three_items (TimerFires 1) showing_a).

(** After the video has ended: c.jpg shows, at index 2. *)
Definition showing_c : State :=
  Eval vm_compute in state_of (step three_items (VideoEnded 1) showing_b).

(** The poll interval fired: a listing and a version check are under way. *)
Definition polling_at_c : State :=
  Eval vm_compute in state_of (step three_items (TimerFires 0) showing_c).

Definition polling_at_b : State :=
  Eval vm_compute in state_of (step three_items (TimerFires 0) showing_b).

(** An upload was started while a.png shows: its toast is up. *)
Definition uploading : State :=
  Eval vm_compute in
    state_of (step three_items (FileChosen (Some {| file_name := "d.png" |}))
                showing_a).

End Demo.

(** ** The first snapshot of the component

    The oldest of the three snapshots in [App.jsx] holds a list of URLs,
    replaces it at every listing, and has no check of the index in its
    slider effect. *)

Module Oldest.

Abbreviation Playlist := (JsArray string).

(** [(prev) => (prev === mediaItems.length - 1 ? 0 : prev + 1)] *)
Definition nextSlide_updater (mediaItems : Playlist) (prev : Z) : Z :=
  if bool_decide (prev = arr_length mediaItems - 1) then 0 else prev + 1.

(** The head of the slider effect:
<<
    if (mediaItems.length === 0) return;
    const currentUrl = mediaItems[currentIndex];
    if (!isVideo(currentUrl)) { ... }
>>
    [isVideo(undefined)] reads [match] of [undefined]: a [TypeError].  The
    result is the kind of the item to show, if there is one to show. *)
Definition slider_reads (mediaItems : Playlist) (currentIndex : Z)
  : Completion (option MediaKind) :=
  if bool_decide (arr_length mediaItems = 0) then Normal None
  else
    match arr_get mediaItems currentIndex with
    | None => Throw TypeError
    | Some currentUrl => Normal (Some (classify currentUrl))
    end.

(** [n] advances in a row. *)
Fixpoint advance (mediaItems : Playlist) (n : nat) (prev : Z) : Z :=
  match n with
  | O => prev
  | S n' => advance mediaItems n' (nextSlide_updater mediaItems prev)
  end.

End Oldest.

(** ** More vocabulary: what the effects own and what they leave alone *)

(** The delay and the kind each callback of the program is armed with. *)
Definition timer_shape (cb : Callback) : TimerKind * Z :=
  match cb with
  | CbNextSlide _ => (Timeout, 5000)
  | CbPoll _ => (Interval, 120000)
  | CbClearNotification => (Timeout, 3000)
  end.

(** Every armed timer has an id below [nextTimer] and the shape of its
    callback; every dwell timer is the one the slider effect will clear, and
    every poll timer the one the auto-refresh effect will clear; and the
    timer an effect will clear, if it is still armed, is of that effect. *)
Record owned (tm : gmap nat Timer) (next : nat) (slider poll : option nat)
  : Prop := {
  own_fresh : ∀ id t, tm !! id = Some t → (id < next)%nat;
  own_shape : ∀ id t, tm !! id = Some t →
    (timer_kind t, delay t) = timer_shape (callback t);
  own_slider : ∀ id t r, tm !! id = Some t →
    callback t = CbNextSlide r → slider = Some id;
  own_poll : ∀ id t r, tm !! id = Some t →
    callback t = CbPoll r → poll = Some id;
  own_slider_is : ∀ id, slider = Some id →
    (id < next)%nat ∧ ∀ t, tm !! id = Some t → ∃ r, callback t = CbNextSlide r;
  own_poll_is : ∀ id, poll = Some id →
    (id < next)%nat ∧ ∀ t, tm !! id = Some t → ∃ r, callback t = CbPoll r;
}.

Definition timers_owned (s : State) : Prop :=
  owned (timers s) (nextTimer s) (sliderCleanup s) (pollCleanup s).

(** [clearTimeout] of a clean-up, on the timer table. *)
Definition cleared (c : option nat) (tm : gmap nat Timer) : gmap nat Timer :=
  match c with
  | Some id => delete id tm
  | None => tm
  end.

(** [videoRefs] holds an element exactly at the slides that are videos, and
    every element is muted as the session is. *)
Definition videos_mirror (s : State) : Prop :=
  ∀ k, match elems (mediaItems (hooks s)) !! k with
       | Some item =>
           if truthy (isVideo (url item))
           then ∃ v, videoRefs s !! k = Some v ∧ muted v = isMuted (hooks s)
           else videoRefs s !! k = None
       | None => videoRefs s !! k = None
       end.

(** [play()] of a slide's video: the one thing the effects do to the world
    outside. *)
Definition is_play (o : Output) : bool :=
  match o with
  | VideoPlay _ => true
  | _ => false
  end.

(** How often the program has done [o] to the world outside. *)
Definition said (o : Output) (s : State) : nat :=
  length (filter (λ x, x = o) (outputs s)).

(** What rendering and the effects never write. *)
Record effects_frame (s s' : State) : Prop := {
  ef_mediaItems : mediaItems (hooks s') = mediaItems (hooks s);
  ef_notification : notification (hooks s') = notification (hooks s);
  ef_isMuted : isMuted (hooks s') = isMuted (hooks s);
  ef_isFullscreen : isFullscreen (hooks s') = isFullscreen (hooks s);
  ef_isUiVisible : isUiVisible (hooks s') = isUiVisible (hooks s);
  ef_fullscreenElement : fullscreenElement s' = fullscreenElement s;
  ef_location : location_id s' = location_id s;
  ef_nextObject : nextObject s' = nextObject s;
  ef_reloads : Spec.reloads s' = Spec.reloads s;
  ef_said : ∀ o, is_play o = false → said o s' = said o s;
}.

(** What the slider reads of a render: the playlist, the index and the mute
    flag, which are the dependencies of its effect. *)
Definition slide_of (h : Hooks) : Playlist * Z * bool :=
  (mediaItems h, currentIndex h, isMuted h).

(** The slider effect has run for the cells as they are. *)
Definition slider_settled (s : State) : Prop :=
  sliderDeps s =
    Some (currentIndex (hooks s), arr_id (mediaItems (hooks s)),
          isMuted (hooks s)).

(** The [nextSlide] that an armed dwell timer will call was created by a
    render with the playlist, the index and the mute flag of the cells. *)
Definition closures_current (s : State) : Prop :=
  ∀ id t r, timers s !! id = Some t → callback t = CbNextSlide r →
            slide_of r = slide_of (hooks s).

(** The dwell timers of one table are dwell timers of the other. *)
Definition dwell_sub (tm1 tm : gmap nat Timer) : Prop :=
  ∀ id t r, tm1 !! id = Some t → callback t = CbNextSlide r →
            tm !! id = Some t.

(** * Facts *)

(** ** Strings *)

Module StrFacts.

Lemma app_cons c s t : String c s +:+ t = String c (s +:+ t).
Proof. reflexivity. Qed.

Lemma app_nil_l s : "" +:+ s = s.
Proof. reflexivity. Qed.

Lemma app_nil_r s : s +:+ "" = s.
Proof. induction s as [|c s IH]; [done|]. by rewrite app_cons, IH. Qed.

Lemma app_assoc s t u : (s +:+ t) +:+ u = s +:+ t +:+ u.
Proof.
  induction s as [|c s IH]; [done|]. by rewrite !app_cons, IH.
Qed.

Lemma map_cons f c s : Str.map f (String c s) = String (f c) (Str.map f s).
Proof. reflexivity. Qed.

End StrFacts.

(** ** The matcher against the language of a pattern *)

Module RegExpFacts.

Import StrFacts.

Lemma char_eqb_eq c d : char_eqb c d = true ↔ c = d.
Proof. apply Ascii.eqb_eq. Qed.

(** The matcher succeeds exactly when a prefix of the input is a word of
    the pattern and the continuation accepts the rest. *)
Lemma run_pattern_spec {T} p : ∀ s (k : string → option T),
  is_Some (run_pattern p s k) ↔
  ∃ w s', s = w +:+ s' ∧ lang p w ∧ is_Some (k s').
Proof.
  induction p as [|c|p IHp q IHq|p IHp q IHq]; intros s k; simpl.
  - split.
    + intros H. by exists "", s.
    + intros (w & s' & -> & -> & H). done.
  - destruct s as [|d s].
    + split; [by intros [? ?]|].
      intros (w & s' & Hs & (d & -> & _) & _). discriminate.
    + destruct (char_eqb (canonicalize d) (canonicalize c)) eqn:E.
      * apply char_eqb_eq in E. split.
        -- intros H. exists (String d ""), s. eauto.
        -- intros (w & s' & Hs & (d' & -> & _) & H).
           rewrite app_cons, app_nil_l in Hs. by simplify_eq.
      * split; [by intros [? ?]|].
        intros (w & s' & Hs & (d' & -> & Hd) & H).
        rewrite app_cons, app_nil_l in Hs. simplify_eq.
        apply char_eqb_eq in Hd. congruence.
  - rewrite IHp. split.
    + intros (w1 & s1 & -> & H1 & H).
      apply IHq in H as (w2 & s2 & -> & H2 & H).
      exists (w1 +:+ w2), s2. rewrite app_assoc. eauto 10.
    + intros (w & s' & -> & (w1 & w2 & -> & H1 & H2) & H).
      exists w1, (w2 +:+ s'). rewrite app_assoc. split_and!; [done..|].
      apply IHq. eauto.
  - specialize (IHp s k). specialize (IHq s k).
    destruct (run_pattern p s k) as [r|].
    + split; [|by eauto].
      intros _. destruct IHp as [IHp _].
      destruct IHp as (w & s' & ? & ? & ?); eauto 10.
    + rewrite IHq. split.
      * intros (w & s' & ? & ? & ?); eauto 10.
      * intros (w & s' & Hs & [Hp|Hq] & H); [|by eauto].
        destruct IHp as [_ IHp].
        destruct IHp as [? ?]; [by eauto|done].
Qed.

(** The search succeeds exactly when the input holds a word of the
    pattern. *)
Lemma exec_from_spec p s : ∀ i,
  is_Some (exec_from p i s) ↔ ∃ pre w post, s = pre +:+ w +:+ post ∧ lang p w.
Proof.
  induction s as [|c s IH]; intros i; simpl.
  - pose proof (run_pattern_spec p "" Some) as R.
    destruct (run_pattern p "" Some) as [rest|].
    + split; [|by eauto]. intros _.
      destruct R as [R _]. destruct R as (w & s' & ? & ? & _); [by eauto|].
      by exists "", w, s'.
    + split; [by intros [? ?]|].
      intros (pre & w & post & Hs & Hw).
      destruct pre; [|discriminate]. rewrite app_nil_l in Hs.
      destruct R as [_ R]. destruct R as [? ?]; [by eauto|done].
  - pose proof (run_pattern_spec p (String c s) Some) as R.
    destruct (run_pattern p (String c s) Some) as [rest|].
    + split; [|by eauto]. intros _.
      destruct R as [R _]. destruct R as (w & s' & ? & ? & _); [by eauto|].
      by exists "", w, s'.
    + rewrite IH. split.
      * intros (pre & w & post & -> & Hw).
        by exists (String c pre), w, post.
      * intros (pre & w & post & Hs & Hw).
        destruct pre as [|c' pre].
        -- rewrite app_nil_l in Hs.
           destruct R as [_ R]. destruct R as [? ?]; [by eauto|done].
        -- rewrite app_cons in Hs. simplify_eq. eauto.
Qed.

(** The words of a literal pattern: the literal, up to case. *)
Lemma lang_lit e : ∀ w, lang (lit e) w ↔ Spec.ci_eq w e.
Proof.
  unfold Spec.ci_eq.
  induction e as [|c e IH]; intros w; simpl.
  - split; [by intros ->|]. by destruct w.
  - split.
    + intros (w1 & w2 & -> & (d & -> & Hd) & H2).
      apply IH in H2. rewrite app_cons, app_nil_l. simpl. congruence.
    + destruct w as [|d w]; simpl; [done|]. intros H. simplify_eq.
      exists (String d ""), w. split_and!; [done|by eauto|by apply IH].
Qed.

Lemma canonicalize_dot d : canonicalize d = canonicalize "." ↔ d = "."%char.
Proof.
  split; [|by intros ->].
  destruct d as [[] [] [] [] [] [] [] []]; vm_compute; congruence.
Qed.

End RegExpFacts.

(** ** The media classifier *)

Module ClassifierFacts.

Import StrFacts RegExpFacts.

Lemma lang_video_pattern w :
  lang video_pattern w ↔
  ∃ ext e, w = "." +:+ ext ∧ e ∈ Spec.video_extensions ∧ Spec.ci_eq ext e.
Proof.
  unfold video_pattern, Spec.video_extensions. cbn [lang]. split.
  - intros (w1 & w2 & -> & (d & -> & Hd) & H).
    apply canonicalize_dot in Hd as ->.
    rewrite !lang_lit in H. exists w2.
    destruct H as [H|[H|[H|H]]]; eexists; (split; [done|]);
      (split; [|exact H]); set_solver.
  - intros (ext & e & -> & He & H).
    exists ".", ext. split_and!; [done|by eauto|].
    rewrite !lang_lit.
    apply elem_of_cons in He as [->|He]; [by left|].
    apply elem_of_cons in He as [->|He]; [by right; left|].
    apply elem_of_cons in He as [->|He]; [by right; right; left|].
    apply list_elem_of_singleton in He as ->. by right; right; right.
Qed.

(** [isVideo] finds a match exactly in the texts that hold a dot followed
    by one of the four extensions, at any position. *)
Lemma isVideo_spec url :
  is_Some (isVideo url) ↔ Spec.contains_video_extension url.
Proof.
  unfold isVideo, exec, Spec.contains_video_extension.
  rewrite exec_from_spec. split.
  - intros (pre & w & post & -> & Hw).
    apply lang_video_pattern in Hw as (ext & e & -> & He & Hci).
    exists pre, ext, post, e. by rewrite !app_assoc.
  - intros (pre & ext & post & e & -> & He & Hci).
    exists pre, ("." +:+ ext), post. rewrite !app_assoc. split; [done|].
    apply lang_video_pattern. eauto.
Qed.

Lemma truthy_is_Some {A} (r : option A) : truthy r = true ↔ is_Some r.
Proof. destruct r; simpl; split; [by eauto|done|done|by intros [? ?]]. Qed.

Lemma classify_Video url :
  classify url = Video ↔ Spec.contains_video_extension url.
Proof.
  rewrite <-isVideo_spec, <-truthy_is_Some. unfold classify.
  destruct (truthy (isVideo url)); split; congruence.
Qed.

Lemma classify_Image url :
  classify url = Image ↔ ¬ Spec.contains_video_extension url.
Proof.
  rewrite <-classify_Video. destruct (classify url); split; congruence.
Qed.

Lemma suffixes_spec s t : t ∈ Spec.suffixes s ↔ ∃ pre, s = pre +:+ t.
Proof.
  induction s as [|c s IH]; simpl.
  - rewrite list_elem_of_singleton. split.
    + intros ->. by exists "".
    + intros (pre & H). destruct pre; [done|discriminate].
  - rewrite elem_of_cons, IH. split.
    + intros [->|(pre & ->)]; [by exists ""|by exists (String c pre)].
    + intros ([|c' pre] & H); [by left|].
      rewrite app_cons in H. simplify_eq. eauto.
Qed.

Lemma is_dot_extension_spec t :
  Spec.is_dot_extension t = true ↔
  ∃ ext e, t = "." +:+ ext ∧ e ∈ Spec.video_extensions ∧ Spec.ci_eq ext e.
Proof.
  unfold Spec.ci_eq, Spec.is_dot_extension. destruct t as [|c ext].
  - split; [done|]. by intros (? & ? & ? & _).
  - rewrite andb_true_iff, bool_decide_eq_true, existsb_exists. split.
    + intros [-> (e & He & H)]. apply bool_decide_eq_true in H.
      exists ext, e. by rewrite <-list_elem_of_In in He.
    + intros (ext' & e & H & He & Hci).
      rewrite app_cons, app_nil_l in H. simplify_eq. split; [done|].
      exists e. rewrite bool_decide_eq_true.
      by rewrite <-list_elem_of_In.
Qed.

(** The test decides the suffix predicate of the specification. *)
Lemma has_video_suffixb_spec s :
  Spec.has_video_suffixb s = true ↔ Spec.has_video_suffix s.
Proof.
  unfold Spec.has_video_suffixb, Spec.has_video_suffix.
  rewrite existsb_exists. split.
  - intros (t & Ht & H).
    rewrite <-list_elem_of_In in Ht.
    apply suffixes_spec in Ht as (pre & ->).
    apply is_dot_extension_spec in H as (ext & e & -> & He & Hci).
    eauto 10.
  - intros (pre & ext & e & -> & He & Hci).
    exists ("." +:+ ext). split.
    + rewrite <-list_elem_of_In. apply suffixes_spec. eauto.
    + apply is_dot_extension_spec. eauto.
Qed.

(** A text that ends with one of the extensions holds it. *)
Lemma suffix_contains s :
  Spec.has_video_suffix s → Spec.contains_video_extension s.
Proof.
  intros (pre & ext & e & -> & He & Hci).
  exists pre, ext, "", e. by rewrite app_nil_r.
Qed.

End ClassifierFacts.

(** C3, as the code has it: the classifier is a total function of the text
    alone that answers Video exactly for the texts that hold a dot followed by
    mp4, webm, ogg or mov, in either case, at any position, and Image for
    every other text; "clip.MP4" and "clip.mov" are videos, "photo.jpg" and
    "doc.pdf" are images. *)
Theorem classify_by_contained_extension :
  (∀ url, classify url = Video ↔ Spec.contains_video_extension url) ∧
  (∀ url, classify url = Image ↔ ¬ Spec.contains_video_extension url) ∧
  (∀ url, Spec.has_video_suffix url → classify url = Video) ∧
  classify "clip.MP4" = Video ∧ classify "clip.mov" = Video ∧
  classify "photo.jpg" = Image ∧ classify "doc.pdf" = Image.
Proof.
  split_and!; try reflexivity.
  - apply ClassifierFacts.classify_Video.
  - apply ClassifierFacts.classify_Image.
  - intros url H. apply ClassifierFacts.classify_Video.
    by apply ClassifierFacts.suffix_contains.
Qed.

(** C3, as the specification words it, fails: "clip.mp4.png" is classified
    Video although its suffix is none of the four extensions. *)
Lemma classify_not_by_suffix :
  classify "clip.mp4.png" = Video ∧ ¬ Spec.has_video_suffix "clip.mp4.png" ∧
  ¬ (∀ url, classify url = Video ↔ Spec.has_video_suffix url).
Proof.
  assert (¬ Spec.has_video_suffix "clip.mp4.png") as Hno.
  { rewrite <-ClassifierFacts.has_video_suffixb_spec. by vm_compute. }
  split_and!; [reflexivity|done|].
  intros H. apply Hno, H. reflexivity.
Qed.

(** C10: every text with a dot immediately followed by mp4, webm, ogg or mov
    (in either case) at any position is classified Video, whatever comes
    before and after. *)
Theorem classify_extension_anywhere (pre ext post e : string) :
  e ∈ Spec.video_extensions → Spec.ci_eq ext e →
  classify (pre +:+ "." +:+ ext +:+ post) = Video.
Proof.
  intros He Hci. apply ClassifierFacts.classify_Video.
  exists pre, ext, post, e. done.
Qed.

(** The two examples of C10: an extension before another extension, and an
    extension inside the path of a download URL with a query string. *)
Lemma classify_extension_anywhere_witness :
  classify "clip.mp4.png" = Video ∧
  classify "https://host/o/images%2Flobby%2Fintro.MOV?alt=media&token=7" = Video.
Proof.
  split.
  - apply (classify_extension_anywhere "clip" "mp4" ".png" "mp4");
      [by vm_compute; left | reflexivity].
  - apply (classify_extension_anywhere
             "https://host/o/images%2Flobby%2Fintro" "MOV"
             "?alt=media&token=7" "mov");
      [by vm_compute; do 3 right; left | reflexivity].
Defined.

(** ** The reconciler *)

Module ReconcilerFacts.

Lemma arr_get_of_nat {A} (a : JsArray A) (n : nat) :
  arr_get a (Z.of_nat n) = elems a !! n.
Proof.
  unfold arr_get. rewrite bool_decide_eq_false_2 by lia.
  by rewrite Nat2Z.id.
Qed.

Lemma drop_lookup_cons {A} (l : list A) n y rest :
  drop n l = y :: rest → l !! n = Some y ∧ drop (S n) l = rest.
Proof.
  intros H. assert (l !! n = Some y) as Hn.
  { rewrite <-(Nat.add_0_r n), <-lookup_drop, H. done. }
  split; [done|]. apply drop_S in Hn. congruence.
Qed.

Lemma url_differs_at (newItems : Playlist) x (n : nat) y :
  elems newItems !! n = Some y →
  url_differs newItems x (Z.of_nat n)
  = Normal (bool_decide (url x ≠ url y)).
Proof. intros H. unfold url_differs. by rewrite arr_get_of_nat, H. Qed.

Lemma legacy_url_differs_at (urls : Legacy.Playlist) x (n : nat) y :
  elems urls !! n = Some y →
  Legacy.url_differs urls x (Z.of_nat n) = Normal (bool_decide (x ≠ y)).
Proof.
  intros H. unfold Legacy.url_differs. by rewrite arr_get_of_nat, H.
Qed.

(** [some] over the previous items, from position [n] on: it never reads
    past the end of the new list, and it answers whether the two lists
    differ on a URL from there on. *)
Lemma some_from_url_differs (newItems : Playlist) (l : list MediaItem) :
  ∀ n : nat,
    length l = length (drop n (elems newItems)) →
    some_from (url_differs newItems) (Z.of_nat n) l
    = Normal (bool_decide (url <$> l ≠ url <$> drop n (elems newItems))).
Proof.
  induction l as [|x l IH]; intros n Hlen; cbn [some_from].
  - destruct (drop n (elems newItems)); [|done].
    by rewrite bool_decide_eq_false_2 by (intros H; by apply H).
  - destruct (drop n (elems newItems)) as [|y rest] eqn:E; [done|].
    apply drop_lookup_cons in E as [Hn E].
    rewrite (url_differs_at _ _ _ _ Hn). cbn [mbind Completion_bind].
    case_bool_decide as Hxy.
    + rewrite bool_decide_eq_true_2; [done|].
      rewrite !fmap_cons. congruence.
    + replace (Z.of_nat n + 1) with (Z.of_nat (S n)) by lia.
      rewrite IH by (rewrite E; simpl in Hlen; lia).
      rewrite E. f_equal. apply bool_decide_ext.
      split; intros H1 H2; apply H1;
        [by simplify_eq/= | by rewrite !fmap_cons, Hxy, H2].
Qed.

(** The reconciler never throws, and keeps the previous array exactly when
    the two lists carry the same URLs in the same order. *)
Lemma reconcile_eq (newItems prevItems : Playlist) :
  reconcile newItems prevItems
  = Normal (if bool_decide (url <$> elems prevItems = url <$> elems newItems)
            then prevItems else newItems).
Proof.
  unfold reconcile, arr_length. case_bool_decide as Hlen.
  - rewrite bool_decide_eq_false_2; [done|].
    intros H. apply Hlen. f_equal.
    by rewrite <-(length_fmap url (elems prevItems)), H, length_fmap.
  - apply Nat2Z.inj in Hlen.
    unfold arr_some.
    change 0 with (Z.of_nat 0).
    rewrite some_from_url_differs by (by rewrite drop_0).
    rewrite drop_0. simpl.
    repeat case_bool_decide; done.
Qed.

Lemma fmap_eq_pointwise (l1 l2 : list MediaItem) :
  url <$> l1 = url <$> l2 ↔
  length l1 = length l2 ∧
  ∀ i a b, l1 !! i = Some a → l2 !! i = Some b → url a = url b.
Proof.
  revert l2. induction l1 as [|x l1 IH]; intros [|y l2].
  - split; [|done]. intros _. split; [done|].
    intros i a b Ha. by rewrite lookup_nil in Ha.
  - split; [done|]. by intros [? _].
  - split; [done|]. by intros [? _].
  - rewrite !fmap_cons. split.
    + intros H. injection H as Hxy H. apply IH in H as [Hl Hp].
      split; [simpl; by f_equal|].
      intros [|i] a b Ha Hb; simpl in *; [by simplify_eq | eauto].
    + intros [Hl Hp]. f_equal; [by apply (Hp 0%nat)|].
      apply IH. split; [simpl in Hl; lia|].
      intros i a b Ha Hb. by apply (Hp (S i)).
Qed.

(** The same for the snapshot that holds URLs. *)
Lemma legacy_some_from (urls : Legacy.Playlist) (l : list string) :
  ∀ n : nat,
    length l = length (drop n (elems urls)) →
    some_from (Legacy.url_differs urls) (Z.of_nat n) l
    = Normal (bool_decide (l ≠ drop n (elems urls))).
Proof.
  induction l as [|x l IH]; intros n Hlen; cbn [some_from].
  - destruct (drop n (elems urls)); [|done].
    by rewrite bool_decide_eq_false_2 by (intros H; by apply H).
  - destruct (drop n (elems urls)) as [|y rest] eqn:E; [done|].
    apply drop_lookup_cons in E as [Hn E].
    rewrite (legacy_url_differs_at _ _ _ _ Hn). cbn [mbind Completion_bind].
    case_bool_decide as Hxy.
    + rewrite bool_decide_eq_true_2; [done|]. congruence.
    + replace (Z.of_nat n + 1) with (Z.of_nat (S n)) by lia.
      rewrite IH by (rewrite E; simpl in Hlen; lia).
      rewrite E. f_equal. apply bool_decide_ext.
      split; intros H1 H2; apply H1; [by simplify_eq | congruence].
Qed.

Lemma legacy_reconcile_eq (urls prevItems : Legacy.Playlist) :
  Legacy.reconcile urls prevItems
  = Normal (if bool_decide (elems prevItems = elems urls)
            then prevItems else urls).
Proof.
  unfold Legacy.reconcile, arr_length. case_bool_decide as Hlen.
  - rewrite bool_decide_eq_false_2; [done|].
    intros H. apply Hlen. by rewrite H.
  - apply Nat2Z.inj in Hlen.
    unfold arr_some.
    change 0 with (Z.of_nat 0).
    rewrite legacy_some_from by (by rewrite drop_0).
    rewrite drop_0. simpl.
    repeat case_bool_decide; done.
Qed.

(** A successful listing replaces the held playlist by the reconciler's
    choice and touches no other cell but [loading]. *)
Lemma fetchContent_settle_listed env path s items :
  list_items env path = Normal items →
  fetchContent_settle env path s
  = Normal
      (setLoading false
         (setMediaItems
            (λ _, if bool_decide
                       (url <$> elems (mediaItems (hooks s)) = url <$> items)
                  then mediaItems (hooks s)
                  else MkArray (nextObject s) items)
            (with_nextObject (S (nextObject s)) s))).
Proof.
  intros H. unfold fetchContent_settle. rewrite H. simpl.
  by rewrite reconcile_eq.
Qed.

End ReconcilerFacts.

(** C1: the reconciler adopts the new list when the lengths differ, adopts it
    when the lengths agree and some position differs on its URL, and
    otherwise returns the previous array itself; so a listing with the same
    URLs in the same order leaves the held playlist, identity included, as it
    was.  The same holds for the snapshot that holds URLs. *)
Theorem reconcile_positional (newItems prevItems : Playlist) :
  (arr_length prevItems ≠ arr_length newItems →
   reconcile newItems prevItems = Normal newItems) ∧
  (arr_length prevItems = arr_length newItems →
   (∃ i a b, elems prevItems !! i = Some a ∧ elems newItems !! i = Some b ∧
             url a ≠ url b) →
   reconcile newItems prevItems = Normal newItems) ∧
  (arr_length prevItems = arr_length newItems →
   (∀ i a b, elems prevItems !! i = Some a → elems newItems !! i = Some b →
             url a = url b) →
   reconcile newItems prevItems = Normal prevItems) ∧
  (url <$> elems prevItems = url <$> elems newItems →
   reconcile newItems prevItems = Normal prevItems) ∧
  (∀ env path s,
     list_items env path = Normal (elems newItems) →
     prevItems = mediaItems (hooks s) →
     url <$> elems prevItems = url <$> elems newItems →
     ∃ s', fetchContent_settle env path s = Normal s' ∧
           mediaItems (hooks s') = mediaItems (hooks s)) ∧
  (∀ urls prev : Legacy.Playlist,
     Legacy.reconcile urls prev
     = Normal (if bool_decide (elems prev = elems urls) then prev else urls)).
Proof.
  pose proof (ReconcilerFacts.fmap_eq_pointwise
                (elems prevItems) (elems newItems)) as P.
  unfold arr_length. rewrite ReconcilerFacts.reconcile_eq. split_and!.
  - intros Hlen. rewrite bool_decide_eq_false_2; [done|].
    intros H. apply P in H as [H _]. congruence.
  - intros Hlen (i & a & b & Ha & Hb & Hab).
    rewrite bool_decide_eq_false_2; [done|].
    intros H. apply P in H as [_ H]. eauto.
  - intros Hlen H. rewrite bool_decide_eq_true_2; [done|].
    apply P. split; [lia|done].
  - intros H. by rewrite bool_decide_eq_true_2.
  - intros env path s Hl -> H.
    rewrite (ReconcilerFacts.fetchContent_settle_listed _ _ _ _ Hl).
    eexists. split; [done|]. simpl. by rewrite bool_decide_eq_true_2.
  - apply ReconcilerFacts.legacy_reconcile_eq.
Qed.

(** C9: the reconciler returns one of its two arguments, the previous array
    or the new one, and never a third list; when it returns the previous
    array, the two lists carry the same URLs position by position.  The held
    playlist after a successful listing is therefore the one held before or
    the array just listed. *)
Theorem reconcile_returns_an_input (newItems prevItems : Playlist) :
  (∃ r, reconcile newItems prevItems = Normal r ∧
        (r = prevItems ∨ r = newItems) ∧
        (r = prevItems →
         url <$> elems prevItems = url <$> elems newItems)) ∧
  (∀ env path s items,
     list_items env path = Normal items →
     ∃ s', fetchContent_settle env path s = Normal s' ∧
           (mediaItems (hooks s') = mediaItems (hooks s) ∨
            mediaItems (hooks s') = MkArray (nextObject s) items)) ∧
  (∀ urls prev : Legacy.Playlist,
     ∃ r, Legacy.reconcile urls prev = Normal r ∧ (r = prev ∨ r = urls) ∧
          (r = prev → elems prev = elems urls)).
Proof.
  split_and!.
  - rewrite ReconcilerFacts.reconcile_eq. eexists. split; [done|].
    case_bool_decide; split; eauto. by intros <-.
  - intros env path s items Hl.
    rewrite (ReconcilerFacts.fetchContent_settle_listed _ _ _ _ Hl).
    eexists. split; [done|]. simpl. case_bool_decide; eauto.
  - intros urls prev. rewrite ReconcilerFacts.legacy_reconcile_eq.
    eexists. split; [done|]. case_bool_decide; split; eauto. by intros <-.
Qed.

(** ** The slider *)

Module SliderFacts.

Lemma nextSlide_updater_mod (r : Hooks) (i : Z) :
  0 < arr_length (mediaItems r) →
  0 ≤ i < arr_length (mediaItems r) →
  nextSlide_updater r i = (i + 1) mod arr_length (mediaItems r).
Proof.
  intros HN Hi. unfold nextSlide_updater.
  destruct (Z.geb_spec i (arr_length (mediaItems r) - 1)) as [H|H].
  - replace (i + 1) with (arr_length (mediaItems r)) by lia.
    by rewrite Z.mod_same by lia.
  - by rewrite Z.mod_small by lia.
Qed.

Lemma nextSlide_updater_nonneg (r : Hooks) (i : Z) :
  0 ≤ i → 0 ≤ nextSlide_updater r i.
Proof.
  intros Hi. unfold nextSlide_updater.
  destruct (Z.geb_spec i (arr_length (mediaItems r) - 1)); lia.
Qed.

Lemma arr_length_nonneg {A} (a : JsArray A) : 0 ≤ arr_length a.
Proof. unfold arr_length. lia. Qed.

Lemma arr_get_in_range {A} (a : JsArray A) (i : Z) :
  0 ≤ i < arr_length a → is_Some (arr_get a i).
Proof.
  unfold arr_get, arr_length. intros Hi.
  rewrite bool_decide_eq_false_2 by lia.
  apply lookup_lt_is_Some. lia.
Qed.

Lemma hooks_same_refl h : hooks_same h h = true.
Proof.
  unfold hooks_same, same_object.
  by rewrite !bool_decide_eq_true_2.
Qed.

Lemma hooks_same_index h1 h2 :
  hooks_same h1 h2 = true → currentIndex h1 = currentIndex h2.
Proof.
  unfold hooks_same. rewrite !andb_true_iff, !bool_decide_eq_true.
  tauto.
Qed.

(** The slider effect on a playlist without items. *)
Lemma sliderEffect_empty r s :
  arr_length (mediaItems r) = 0 → sliderEffect r s = Normal (s, None).
Proof. intros H. unfold sliderEffect. by rewrite bool_decide_eq_true_2. Qed.

(** The slider effect on an index past the end: back to the first item. *)
Lemma sliderEffect_reset r s :
  arr_length (mediaItems r) ≠ 0 →
  arr_length (mediaItems r) ≤ currentIndex r →
  sliderEffect r s = Normal (setCurrentIndex (λ _, 0) s, None).
Proof.
  intros H0 H. unfold sliderEffect.
  rewrite bool_decide_eq_false_2 by done.
  by destruct (Z.geb_spec (currentIndex r) (arr_length (mediaItems r)));
    [|lia].
Qed.

Lemma slide_videos_lookup refs m items : ∀ i0 k item,
  items !! k = Some item →
  truthy (isVideo (url item)) = true →
  is_Some (slide_videos refs m i0 items !! (i0 + k)%nat).
Proof.
  induction items as [|x items IH]; intros i0 [|k] item Hk Hv;
    simpl in Hk; simplify_eq.
  - cbn [slide_videos]. rewrite Hv, Nat.add_0_r, lookup_insert_eq. eauto.
  - cbn [slide_videos].
    replace (i0 + S k)%nat with (S i0 + k)%nat by lia.
    destruct (truthy (isVideo (url x)));
      [rewrite lookup_insert_ne by lia|]; by eapply IH.
Qed.

(** After a render every slide that is a video has its element. *)
Lemma render_videos s k item :
  elems (mediaItems (hooks s)) !! k = Some item →
  truthy (isVideo (url item)) = true →
  is_Some (videoRefs (render s) !! k).
Proof. intros Hk Hv. by apply (slide_videos_lookup _ _ _ 0%nat k item). Qed.

Lemma arr_get_Some {A} (a : JsArray A) (i : Z) x :
  arr_get a i = Some x →
  0 ≤ i < arr_length a ∧ elems a !! Z.to_nat i = Some x.
Proof.
  unfold arr_get, arr_length. case_bool_decide as Hneg; [done|].
  intros Hx. split; [|done]. apply lookup_lt_Some in Hx. lia.
Qed.

(** The slider effect on a video: from the start, muted as the session is,
    and playing. *)
Lemma sliderEffect_video r s item v :
  arr_get (mediaItems r) (currentIndex r) = Some item →
  truthy (isVideo (url item)) = true →
  videoRef s (currentIndex r) = Some v →
  sliderEffect r s
  = Normal
      (emit (VideoPlay (Z.to_nat (currentIndex r)))
         (with_videoRefs
            (<[Z.to_nat (currentIndex r) :=
                 {| muted := isMuted r; currentTime := 0 |}]>) s),
       None).
Proof.
  intros Hget Hv Href. unfold sliderEffect.
  destruct (arr_get_Some _ _ _ Hget) as [Hi _].
  rewrite bool_decide_eq_false_2 by lia.
  destruct (Z.geb_spec (currentIndex r) (arr_length (mediaItems r)));
    [lia|].
  by rewrite Hget, Hv, Href.
Qed.

(** The slider effect on a valid index: it arms the dwell timer of an
    image or starts the video, and writes no cell. *)
Lemma sliderEffect_show r s :
  0 ≤ currentIndex r < arr_length (mediaItems r) →
  ∃ s1 c, sliderEffect r s = Normal (s1, c) ∧
          hooks s1 = hooks s ∧
          mountEffectsDone s1 = mountEffectsDone s ∧
          kioskDeps s1 = kioskDeps s ∧
          nextObject s1 = nextObject s ∧
          pending s1 = pending s ∧
          keeps_videos s s1.
Proof.
  intros Hi. unfold sliderEffect.
  rewrite bool_decide_eq_false_2 by lia.
  destruct (Z.geb_spec (currentIndex r) (arr_length (mediaItems r)));
    [lia|].
  destruct (arr_get_in_range (mediaItems r) (currentIndex r) Hi) as [x ->].
  destruct (truthy (isVideo (url x))); simpl.
  - destruct (videoRef s (currentIndex r)).
    + eexists _, _. split_and!; [done..|].
      intros k Hk. simpl.
      destruct (decide (Z.to_nat (currentIndex r) = k)) as [->|];
        [rewrite lookup_insert_eq; eauto|by rewrite lookup_insert_ne].
    + eexists _, _. split_and!; [done..|]. by intros k Hk.
  - eexists _, _. split_and!; [done..|]. by intros k Hk.
Qed.

End SliderFacts.

(** ** React's commit *)

Module CommitFacts.

Import SliderFacts.

(** Once mounted, and with [kioskId] as it was at the last commit, only
    the slider effect can be due. *)
Lemma run_effects_mounted s :
  mountEffectsDone s = true →
  kioskDeps s = Some (kioskId (hooks s)) →
  run_effects s =
    if bool_decide
         (sliderDeps s =
            Some (currentIndex (hooks s), arr_id (mediaItems (hooks s)),
                  isMuted (hooks s)))
    then Normal s
    else
      '(s1, c) ← sliderEffect (hooks s) (run_cleanup (sliderCleanup s) s);
      Normal
        (with_sliderEffect
           (Some (currentIndex (hooks s), arr_id (mediaItems (hooks s)),
                  isMuted (hooks s))) c s1).
Proof.
  intros Hm Hk.
  unfold run_effects, run_mount_effects, run_kiosk_effects. rewrite Hm.
  by rewrite (bool_decide_eq_true_2 _ Hk).
Qed.

Lemma settled_index_in_range h :
  arr_length (mediaItems h) = 0 ∨ currentIndex h < arr_length (mediaItems h) →
  settled_index h = currentIndex h.
Proof. intros H. unfold settled_index. by rewrite bool_decide_eq_true_2. Qed.

Lemma commit_S n s :
  commit (S n) s =
    s' ← run_effects (render s);
    if hooks_same (hooks s) (hooks s') then Normal s' else commit n s'.
Proof. reflexivity. Qed.

Lemma setCurrentIndex_same s :
  hooks (setCurrentIndex (λ _, currentIndex (hooks s)) s) = hooks s.
Proof. by destruct s as [[] ?]. Qed.

Lemma hooks_same_reset h s :
  currentIndex h ≠ 0 →
  hooks s = h →
  hooks_same h (hooks (setCurrentIndex (λ _, 0) s)) = false.
Proof.
  intros H <-. unfold hooks_same. simpl.
  rewrite (bool_decide_eq_false_2 (currentIndex (hooks s) = 0)) by done.
  by rewrite andb_false_r.
Qed.

(** Clearing a timer touches the timer table only. *)
Lemma run_cleanup_hooks c s : hooks (run_cleanup c s) = hooks s.
Proof. by destruct c. Qed.
Lemma run_cleanup_mounted c s :
  mountEffectsDone (run_cleanup c s) = mountEffectsDone s.
Proof. by destruct c. Qed.
Lemma run_cleanup_kioskDeps c s : kioskDeps (run_cleanup c s) = kioskDeps s.
Proof. by destruct c. Qed.
Lemma run_cleanup_sliderDeps c s :
  sliderDeps (run_cleanup c s) = sliderDeps s.
Proof. by destruct c. Qed.
Lemma run_cleanup_nextTimer c s :
  nextTimer (run_cleanup c s) = nextTimer s.
Proof. by destruct c. Qed.
Lemma run_cleanup_nextObject c s :
  nextObject (run_cleanup c s) = nextObject s.
Proof. by destruct c. Qed.
Lemma run_cleanup_pending c s : pending (run_cleanup c s) = pending s.
Proof. by destruct c. Qed.
Lemma run_cleanup_outputs c s : outputs (run_cleanup c s) = outputs s.
Proof. by destruct c. Qed.
Lemma run_cleanup_videoRefs c s : videoRefs (run_cleanup c s) = videoRefs s.
Proof. by destruct c. Qed.

Create Rewrite HintDb frame.
Hint Rewrite run_cleanup_hooks run_cleanup_mounted run_cleanup_kioskDeps
  run_cleanup_sliderDeps run_cleanup_nextObject run_cleanup_pending
  run_cleanup_outputs run_cleanup_videoRefs : frame.

Ltac frame := repeat (progress (simpl; autorewrite with frame)).

(** The commit after a handler ends, within two renders, in a state that
    satisfies the invariant; it writes no cell but the index. *)
Lemma commit_settles n s :
  Inv_handled s →
  ∃ s', commit (S (S n)) s = Normal s' ∧ Inv s' ∧
        hooks s' = hooks (setCurrentIndex (λ _, settled_index (hooks s)) s) ∧
        pending s' = pending s ∧ nextObject s' = nextObject s.
Proof.
  intros [Hnn Hm Hk Hf Hs]. rewrite commit_S.
  rewrite run_effects_mounted by done.
  change (hooks (render s)) with (hooks s).
  change (sliderDeps (render s)) with (sliderDeps s).
  change (sliderCleanup (render s)) with (sliderCleanup s).
  pose proof (arr_length_nonneg (mediaItems (hooks s))) as Hlen.
  pose proof (render_videos s) as Hvid.
  case_bool_decide as Hd.
  - (* no effect is due *)
    cbn [mbind Completion_bind]. rewrite hooks_same_refl.
    eexists. split; [done|].
    rewrite settled_index_in_range, setCurrentIndex_same by auto.
    split_and!; [|done..]. by constructor; auto.
  - destruct (decide (arr_length (mediaItems (hooks s)) = 0)) as [H0|H0].
    { (* nothing to show *)
      rewrite sliderEffect_empty by done.
      cbn [mbind Completion_bind].
      change (hooks (with_sliderEffect ?d ?c ?t)) with (hooks t).
      rewrite run_cleanup_hooks.
      change (hooks (render s)) with (hooks s).
      rewrite hooks_same_refl.
      eexists. split; [done|].
      rewrite settled_index_in_range, setCurrentIndex_same by auto.
      split_and!; [|by frame..].
      constructor; frame; auto. }
    destruct (decide (arr_length (mediaItems (hooks s))
                      ≤ currentIndex (hooks s))) as [Hge|Hlt].
    + (* past the end: the effect resets the index, React renders again *)
      rewrite sliderEffect_reset by done.
      cbn [mbind Completion_bind].
      change (hooks (with_sliderEffect ?d ?c ?t)) with (hooks t).
      rewrite hooks_same_reset; [|lia|by frame].
      rewrite commit_S.
      rewrite run_effects_mounted; [|by frame..].
      rewrite bool_decide_eq_false_2.
      2:{ frame. intros ?. simplify_eq. lia. }
      match goal with
      | |- context [sliderEffect ?r ?t] =>
          edestruct (sliderEffect_show r t)
            as (s1 & c & -> & Hh & Hm1 & Hk1 & Ho1 & Hp1 & Hv1);
            [frame; lia|];
          assert (∀ k item,
                    elems (mediaItems (hooks s)) !! k = Some item →
                    truthy (isVideo (url item)) = true →
                    is_Some (videoRefs s1 !! k)) as Hvid1
      end.
      { intros k item Hitem Hv. apply Hv1. rewrite run_cleanup_videoRefs.
        by eapply render_videos; [|done]; frame. }
      cbn [mbind Completion_bind].
      change (hooks (with_sliderEffect ?d c s1)) with (hooks s1).
      rewrite Hh, hooks_same_refl.
      eexists; split; [done|].
      unfold settled_index. rewrite bool_decide_eq_false_2 by lia.
      split_and!.
      * constructor; simpl; rewrite ?Hh, ?Hm1, ?Hk1, ?Ho1; frame; auto; lia.
      * simpl. rewrite Hh. by frame.
      * simpl. rewrite Hp1. by frame.
      * simpl. rewrite Ho1. by frame.
    + (* a valid index: the effect shows the item *)
      edestruct (sliderEffect_show (hooks s))
        as (s1 & c & -> & Hh & Hm1 & Hk1 & Ho1 & Hp1 & Hv1); [lia|].
      cbn [mbind Completion_bind].
      change (hooks (with_sliderEffect ?d c s1)) with (hooks s1).
      rewrite Hh, run_cleanup_hooks.
      change (hooks (render s)) with (hooks s).
      rewrite hooks_same_refl. eexists. split; [done|].
      rewrite settled_index_in_range, setCurrentIndex_same by (right; lia).
      split_and!.
      * constructor; simpl; rewrite ?Hh, ?Hm1, ?Hk1, ?Ho1; frame; auto;
          try lia.
        intros k item Hitem Hv. apply Hv1. rewrite run_cleanup_videoRefs. eauto.
      * simpl. rewrite Hh. by frame.
      * simpl. rewrite Hp1. by frame.
      * simpl. rewrite Ho1. by frame.
Qed.

End CommitFacts.

(** ** The handlers *)

Module HandlerFacts.

Import SliderFacts CommitFacts.

Lemma fetchContent_handled ev r bg s s0 :
  handled ev s0 s → handled ev s0 (fetchContent r bg s).
Proof.
  intros [? ? ? ? ? ? ?]. unfold fetchContent.
  destruct (kiosk_known (kioskId r)); simpl; [|by constructor].
  destruct (negb bg && _); by constructor.
Qed.

Lemma showToast_handled ev msg s s0 :
  handled ev s0 s → handled ev s0 (showToast msg s).
Proof. intros [? ? ? ? ? ? ?]. by constructor. Qed.

Lemma handled_refl ev s : handled ev s s.
Proof. constructor; auto. Qed.

Lemma clearTimer_handled ev id s s0 :
  handled ev s0 s → handled ev s0 (clearTimer id s).
Proof. intros [? ? ? ? ? ? ?]. by constructor. Qed.

Lemma fire_handled ev cb s s0 :
  handled ev s0 s → handled ev s0 (fire cb s).
Proof.
  intros H. destruct cb as [r|r|]; simpl.
  - destruct H as [? ? ? ? ? ? ?].
    constructor; simpl; auto using nextSlide_updater_nonneg.
  - apply (fetchContent_handled _ r true) in H as [? ? ? ? ? ? ?].
    by constructor.
  - destruct H as [? ? ? ? ? ? ?]. by constructor.
Qed.

Lemma settle_handled env p s :
  ∃ s1, settle env p s = Normal s1 ∧ handled (Settle 0) s s1.
Proof.
  destruct p as [path| |r path file|r path]; simpl.
  - destruct (list_items env path) as [items|e] eqn:E.
    + rewrite (ReconcilerFacts.fetchContent_settle_listed _ _ _ _ E).
      eexists. split; [done|].
      constructor; simpl; auto.
      case_bool_decide; [left|right]; auto.
    + unfold fetchContent_settle. rewrite E. simpl.
      eexists. split; [done|]. constructor; simpl; auto.
  - eexists. split; [done|]. unfold checkVersion_settle.
    destruct (version_differs env) as [[]|]; constructor; simpl; auto.
  - eexists. split; [done|]. unfold handleUpload_settle.
    destruct (uploadBytes env path file);
      [apply fetchContent_handled|]; apply showToast_handled, handled_refl.
  - eexists. split; [done|]. unfold handleDelete_settle.
    destruct (deleteObject env path);
      [apply fetchContent_handled|]; apply showToast_handled, handled_refl.
Qed.

Lemma handle_handled env ev s :
  ∃ s1, handle env ev s = Normal s1 ∧ handled ev s s1.
Proof.
  destruct ev as [n|id|k| |msg|b| | | | |file|path confirmed]; simpl;
    try (eexists; split; [done|]; constructor; simpl; auto; fail).
  - destruct (pending s !! n) as [p|];
      [|eexists; split; [done|]; apply handled_refl].
    destruct (settle_handled env p (with_pending (delete n) s))
      as (s1 & -> & [? ? ? ? ? ? ?]).
    eexists. split; [done|]. constructor; auto.
  - destruct (timers s !! id) as [t|];
      [|eexists; split; [done|]; apply handled_refl].
    eexists. split; [done|]. apply fire_handled.
    destruct (timer_kind t); [apply clearTimer_handled|]; apply handled_refl.
  - destruct (videoRefs s !! k);
      (eexists; split; [done|]);
      constructor; simpl; auto using nextSlide_updater_nonneg.
  - eexists. split; [done|]. unfold toggleSound.
    destruct (videoRef _ _); constructor; simpl; auto; done.
  - eexists. split; [done|]. unfold toggleFullscreenAndUi.
    destruct (fullscreenElement s); constructor; simpl; auto.
  - eexists. split; [done|]. unfold handleUpload.
    destruct file; constructor; simpl; auto.
  - eexists. split; [done|]. unfold handleDelete.
    destruct confirmed; constructor; simpl; auto.
Qed.

(** A handler leaves the state ready for the commit. *)
Lemma handled_Inv ev s s1 : Inv s → handled ev s s1 → Inv_handled s1.
Proof.
  intros [Hnn Hr Hm Hk Hs Hf _] [Hm1 Hk1 Hs1 Hid1 _ Hi1 Hp1].
  constructor.
  - auto.
  - congruence.
  - congruence.
  - destruct Hp1 as [[-> ?]|[-> ->]]; lia.
  - rewrite Hs1, Hs. intros H. simplify_eq.
    destruct Hp1 as [[Hp ?]|[Hp ?]]; [|lia].
    rewrite Hp. congruence.
Qed.

(** Every turn of the event loop ends, and keeps the invariant. *)
Lemma step_Inv env ev s :
  Inv s →
  ∃ s1 s', handle env ev s = Normal s1 ∧ handled ev s s1 ∧
           step env ev s = Normal s' ∧ Inv s' ∧
           hooks s' = hooks (setCurrentIndex (λ _, settled_index (hooks s1)) s1) ∧
           pending s' = pending s1 ∧ nextObject s' = nextObject s1.
Proof.
  intros HI. destruct (handle_handled env ev s) as (s1 & He & Hh).
  pose proof (handled_Inv _ _ _ HI Hh) as Hmid.
  destruct (commit_settles 48 s1 Hmid) as (s' & Hc & HI' & Hhooks & Hp & Ho).
  exists s1, s'. unfold step. rewrite He. simpl. auto 10.
Qed.

End HandlerFacts.

(** ** The mount *)

Module MountFacts.

Import SliderFacts CommitFacts.

Lemma detected_known id : kiosk_known (Some (detected id)) = true.
Proof.
  unfold detected, kiosk_known. destruct id as [v|]; [|done].
  destruct (decide (v = "")) as [->|Hv]; [done|].
  rewrite (bool_decide_eq_false_2 _ Hv). by apply bool_decide_eq_true_2.
Qed.

Lemma first_pass id : run_effects (render (initial id)) = Normal (after_detect id).
Proof. reflexivity. Qed.

Lemma second_pass id :
  run_effects (render (after_detect id)) = Normal (mounted_state id).
Proof.
  unfold run_effects, run_mount_effects, run_kiosk_effects.
  change (hooks (render (after_detect id))) with (detected_hooks id).
  change (mountEffectsDone (render (after_detect id))) with true.
  cbv iota.
  change (kioskDeps (render (after_detect id))) with (Some (@None string)).
  change (kioskId (detected_hooks id)) with (Some (detected id)).
  rewrite (bool_decide_eq_false_2 (Some None = Some (Some (detected id))))
    by congruence.
  unfold initialFetchEffect, fetchContent, pollEffect.
  change (kioskId (detected_hooks id)) with (Some (detected id)).
  rewrite !detected_known. reflexivity.
Qed.

Lemma third_pass id :
  run_effects (render (mounted_state id)) = Normal (render (mounted_state id)).
Proof.
  rewrite run_effects_mounted by done.
  by rewrite bool_decide_eq_true_2.
Qed.

Lemma mount_eq id : mount id = Normal (mounted_state id).
Proof.
  unfold mount, NESTED_UPDATE_LIMIT.
  rewrite commit_S, first_pass. cbn [mbind Completion_bind].
  replace (hooks_same (hooks (initial id)) (hooks (after_detect id)))
    with false by (by unfold hooks_same; rewrite !andb_false_r).
  rewrite commit_S, second_pass. cbn [mbind Completion_bind].
  replace (hooks_same (hooks (after_detect id)) (hooks (mounted_state id)))
    with false.
  2:{ unfold hooks_same. simpl. by rewrite ?andb_false_r. }
  rewrite commit_S, third_pass. cbn [mbind Completion_bind].
  change (hooks (render (mounted_state id))) with (hooks (mounted_state id)).
  by rewrite hooks_same_refl.
Qed.

Lemma mounted_state_Inv id : Inv (mounted_state id).
Proof.
  constructor; simpl; auto; [lia|].
  intros k item Hk. by rewrite lookup_nil in Hk.
Qed.

Lemma mount_Inv id s : mount id = Normal s → Inv s.
Proof. rewrite mount_eq. intros [= <-]. apply mounted_state_Inv. Qed.

End MountFacts.

(** ** Runs of the program *)

Module RunFacts.

Import SliderFacts CommitFacts HandlerFacts MountFacts.

Lemma reachable_Inv s : reachable s → Inv s.
Proof.
  induction 1 as [id s Hm|s env ev s' _ IH Hstep].
  - by apply (mount_Inv id).
  - destruct (step_Inv env ev s IH) as (s1 & s2 & _ & _ & Hs & HI & _).
    congruence.
Qed.

(** No event stops the program: every turn of the event loop ends in a state
    of the program. *)
Lemma step_total env ev s :
  reachable s → ∃ s', step env ev s = Normal s' ∧ reachable s'.
Proof.
  intros Hr. destruct (step_Inv env ev s (reachable_Inv s Hr))
    as (s1 & s' & _ & _ & Hs & _).
  exists s'. split; [done|]. by eapply reach_step.
Qed.

Lemma Inv_in_range s :
  Inv s →
  0 < arr_length (mediaItems (hooks s)) →
  0 ≤ currentIndex (hooks s) < arr_length (mediaItems (hooks s)).
Proof. intros [Hnn Hr _ _ _ _ _] HN. lia. Qed.

(** The index after a turn: the handler's, reset to 0 when it is past the end
    of a playlist with items. *)
Lemma step_index env ev s s1 s' :
  Inv s → handle env ev s = Normal s1 → step env ev s = Normal s' →
  mediaItems (hooks s') = mediaItems (hooks s1) ∧
  currentIndex (hooks s') = settled_index (hooks s1).
Proof.
  intros HI H1 Hs.
  destruct (step_Inv env ev s HI) as (t1 & t' & Ht1 & _ & Ht' & _ & Hh & _).
  assert (t1 = s1) as -> by congruence.
  assert (t' = s') as -> by congruence.
  rewrite Hh. done.
Qed.

Lemma fetchContent_index r bg s :
  currentIndex (hooks (fetchContent r bg s)) = currentIndex (hooks s).
Proof.
  unfold fetchContent. destruct (kiosk_known _); [|done].
  by destruct (negb bg && _).
Qed.

(** Resuming a suspended function leaves the index alone. *)
Lemma settle_index env p s s1 :
  settle env p s = Normal s1 →
  currentIndex (hooks s1) = currentIndex (hooks s).
Proof.
  destruct p as [path| |r path file|r path]; simpl.
  - destruct (list_items env path) as [items|e] eqn:E.
    + rewrite (ReconcilerFacts.fetchContent_settle_listed _ _ _ _ E).
      by intros [= <-].
    + unfold fetchContent_settle. rewrite E. by intros [= <-].
  - intros [= <-]. unfold checkVersion_settle.
    by destruct (version_differs env) as [[]|].
  - intros [= <-]. unfold handleUpload_settle.
    destruct (uploadBytes env path file); [|done].
    by rewrite fetchContent_index.
  - intros [= <-]. unfold handleDelete_settle.
    destruct (deleteObject env path); [|done].
    by rewrite fetchContent_index.
Qed.

(** With no effect due, the commit is one render. *)
Lemma commit_quiet n s :
  mountEffectsDone s = true →
  kioskDeps s = Some (kioskId (hooks s)) →
  sliderDeps s =
    Some (currentIndex (hooks s), arr_id (mediaItems (hooks s)),
          isMuted (hooks s)) →
  commit (S n) s = Normal (render s).
Proof.
  intros Hm Hk Hs. rewrite commit_S, run_effects_mounted by done.
  change (sliderDeps (render s)) with (sliderDeps s).
  change (hooks (render s)) with (hooks s).
  rewrite (bool_decide_eq_true_2 _ Hs). cbn [mbind Completion_bind].
  by rewrite hooks_same_refl.
Qed.

(** [Promise.all] rejects as soon as one promise rejects. *)
Lemma promise_all_Throw {A B} (f : A → Completion B) (l : list A) x e :
  x ∈ l → f x = Throw e → ∃ e', promise_all f l = Throw e'.
Proof.
  intros Hx Hf. induction l as [|y l IH]; [by apply elem_of_nil in Hx|].
  apply elem_of_cons in Hx as [<-|Hx]; simpl.
  - rewrite Hf. eauto.
  - destruct (f y); [|by eauto]. simpl.
    destruct (IH Hx) as [e' ->]. eauto.
Qed.

(** The listing fails when [listAll] fails and when the URL of a listed
    object cannot be resolved. *)
Lemma list_items_Throw env path :
  (∀ e, listAll env path = Throw e → list_items env path = Throw e) ∧
  (∀ refs item e,
     listAll env path = Normal refs → item ∈ refs →
     getDownloadURL env item = Throw e →
     ∃ e', list_items env path = Throw e').
Proof.
  unfold list_items. split.
  - by intros e ->.
  - intros refs item e -> Hin He. simpl.
    eapply promise_all_Throw; [done|]. by rewrite He.
Qed.

(** A failed listing, from the handler to the end of the turn. *)
Lemma step_listing_failed env path e s n :
  Inv s →
  pending s !! n = Some (AwaitListing path) →
  list_items env path = Throw e →
  step env (Settle n) s
  = Normal
      (render
         (setLoading false
            (emit (ConsoleError "Error fetching content:" e)
               (with_pending (delete n) s)))).
Proof.
  intros [Hnn Hr Hm Hk Hs Hf _] Hp He. unfold step. simpl. rewrite Hp. simpl.
  unfold fetchContent_settle. rewrite He. simpl.
  by apply commit_quiet.
Qed.

(** The turn of the event loop that toggles the sound while a video shows. *)
Lemma step_toggle_on_video env s item :
  Inv s →
  arr_get (mediaItems (hooks s)) (currentIndex (hooks s)) = Some item →
  truthy (isVideo (url item)) = true →
  ∃ s', step env ClickToggleSound s = Normal s' ∧
        hooks s' = hooks (setIsMuted (negb (isMuted (hooks s))) s) ∧
        videoRef s' (currentIndex (hooks s))
        = Some {| muted := negb (isMuted (hooks s)); currentTime := 0 |} ∧
        outputs s' = outputs s ++ [VideoPlay (Z.to_nat (currentIndex (hooks s)))].
Proof.
  intros [Hnn Hr Hm Hk Hs Hf Hv] Hget Hvid.
  destruct (arr_get_Some _ _ _ Hget) as [Hi Hitem].
  unfold step. simpl. set (s1 := toggleSound (hooks s) s).
  assert (hooks s1 = hooks (setIsMuted (negb (isMuted (hooks s))) s)) as Hh1.
  { unfold s1, toggleSound. by destruct (videoRef _ _). }
  assert (mountEffectsDone s1 = true ∧
          kioskDeps s1 = Some (kioskId (hooks s1)) ∧
          sliderDeps s1 = sliderDeps s ∧
          sliderCleanup s1 = sliderCleanup s ∧
          outputs s1 = outputs s) as (Hm1 & Hk1 & Hs1 & Hc1 & Ho1).
  { rewrite Hh1. unfold s1, toggleSound. by destruct (videoRef _ _). }
  unfold NESTED_UPDATE_LIMIT. rewrite commit_S, run_effects_mounted by done.
  change (hooks (render s1)) with (hooks s1).
  change (sliderDeps (render s1)) with (sliderDeps s1).
  change (sliderCleanup (render s1)) with (sliderCleanup s1).
  rewrite Hs1, Hs, Hh1. simpl.
  rewrite bool_decide_eq_false_2
    by (intros ?; simplify_eq; by destruct (isMuted (hooks s))).
  destruct (render_videos s1 (Z.to_nat (currentIndex (hooks s))) item)
    as [v Hv1]; [by rewrite Hh1|done|].
  erewrite sliderEffect_video; [|done..|]; simpl.
  2:{ unfold videoRef. rewrite bool_decide_eq_false_2 by lia.
      rewrite run_cleanup_videoRefs. exact Hv1. }
  rewrite run_cleanup_hooks.
  change (hooks (render s1)) with (hooks s1).
  rewrite Hh1. simpl. rewrite hooks_same_refl.
  eexists. split; [done|]. simpl. split_and!.
  - by rewrite run_cleanup_hooks.
  - unfold videoRef. rewrite bool_decide_eq_false_2 by lia.
    simpl. by rewrite lookup_insert_eq.
  - by rewrite run_cleanup_outputs, <-Ho1.
Qed.

End RunFacts.

(** C2: in every state of the program with a playlist of N > 0 items the
    index satisfies 0 <= currentIndex < N; every transition (an advance, a
    reconciliation, any other event) ends in such a state; and when a
    reconciliation leaves a playlist so short that the index held before is
    out of range, the index is 0 afterwards. *)
Theorem index_stays_in_range :
  (∀ s, reachable s →
     0 < arr_length (mediaItems (hooks s)) →
     0 ≤ currentIndex (hooks s) < arr_length (mediaItems (hooks s))) ∧
  (∀ s env ev, reachable s →
     ∃ s', step env ev s = Normal s' ∧ reachable s' ∧
           (0 < arr_length (mediaItems (hooks s')) →
            0 ≤ currentIndex (hooks s') < arr_length (mediaItems (hooks s')))) ∧
  (∀ s env n s', reachable s →
     step env (Settle n) s = Normal s' →
     0 < arr_length (mediaItems (hooks s')) ≤ currentIndex (hooks s) →
     currentIndex (hooks s') = 0).
Proof.
  split_and!.
  - intros s Hr. by apply RunFacts.Inv_in_range, RunFacts.reachable_Inv.
  - intros s env ev Hr.
    destruct (RunFacts.step_total env ev s Hr) as (s' & Hs & Hr').
    exists s'. split_and!; [done..|].
    by apply RunFacts.Inv_in_range, RunFacts.reachable_Inv.
  - intros s env n s' Hr Hs [HN Hi].
    pose proof (RunFacts.reachable_Inv s Hr) as HI.
    destruct (HandlerFacts.handle_handled env (Settle n) s) as (s1 & H1 & _).
    destruct (RunFacts.step_index env _ s s1 s' HI H1 Hs) as [Hm ->].
    assert (currentIndex (hooks s1) = currentIndex (hooks s)) as Hidx.
    { simpl in H1. destruct (pending s !! n) as [p|]; [|congruence].
      by rewrite (RunFacts.settle_index _ _ _ _ H1). }
    unfold settled_index.
    rewrite bool_decide_eq_false_2; [done|].
    rewrite <-Hm, Hidx. lia.
Qed.

(** C5: with a playlist of N > 0 items and an index i in range, the advance
    moves the index to (i+1) mod N, and from the last item back to 0; this is
    what the turn of the event loop does when the dwell timer of the held
    playlist fires and when a slide's video ends. *)
Theorem advance_wraps (env : Remote) (s : State) :
  0 < arr_length (mediaItems (hooks s)) →
  0 ≤ currentIndex (hooks s) < arr_length (mediaItems (hooks s)) →
  nextSlide_updater (hooks s) (currentIndex (hooks s))
  = (currentIndex (hooks s) + 1) mod arr_length (mediaItems (hooks s)) ∧
  (currentIndex (hooks s) = arr_length (mediaItems (hooks s)) - 1 →
   nextSlide_updater (hooks s) (currentIndex (hooks s)) = 0) ∧
  currentIndex (hooks (nextSlide (hooks s) s))
  = (currentIndex (hooks s) + 1) mod arr_length (mediaItems (hooks s)) ∧
  (reachable s →
   (∀ k, is_Some (videoRefs s !! k) →
      ∃ s', step env (VideoEnded k) s = Normal s' ∧
            mediaItems (hooks s') = mediaItems (hooks s) ∧
            currentIndex (hooks s')
            = (currentIndex (hooks s) + 1)
                mod arr_length (mediaItems (hooks s))) ∧
   (∀ id t r,
      timers s !! id = Some t → callback t = CbNextSlide r →
      mediaItems r = mediaItems (hooks s) →
      ∃ s', step env (TimerFires id) s = Normal s' ∧
            mediaItems (hooks s') = mediaItems (hooks s) ∧
            currentIndex (hooks s')
            = (currentIndex (hooks s) + 1)
                mod arr_length (mediaItems (hooks s)))).
Proof.
  intros HN Hi.
  pose proof (SliderFacts.nextSlide_updater_mod (hooks s) _ HN Hi) as Hmod.
  pose proof (Z.mod_pos_bound (currentIndex (hooks s) + 1) _ HN) as Hb.
  assert (∀ r s1 s',
            mediaItems r = mediaItems (hooks s) →
            hooks s1 = hooks (nextSlide r s) →
            mediaItems (hooks s') = mediaItems (hooks s1) ∧
            currentIndex (hooks s') = settled_index (hooks s1) →
            mediaItems (hooks s') = mediaItems (hooks s) ∧
            currentIndex (hooks s')
            = (currentIndex (hooks s) + 1)
                mod arr_length (mediaItems (hooks s))) as Hstep.
  { intros r s1 s' Hr H1 [Hm Hc]. rewrite H1 in Hm, Hc.
    split; [by rewrite Hm|].
    rewrite Hc, CommitFacts.settled_index_in_range; simpl.
    - unfold nextSlide_updater. rewrite Hr. apply Hmod.
    - right. unfold nextSlide_updater. rewrite Hr.
      fold (nextSlide_updater (hooks s) (currentIndex (hooks s))). lia. }
  split_and!.
  - done.
  - intros Hlast. rewrite Hmod, Hlast.
    replace (arr_length (mediaItems (hooks s)) - 1 + 1)
      with (arr_length (mediaItems (hooks s))) by lia.
    by rewrite Z.mod_same by lia.
  - done.
  - intros Hr. pose proof (RunFacts.reachable_Inv s Hr) as HI. split.
    + intros k [v Hk].
      destruct (RunFacts.step_total env (VideoEnded k) s Hr) as (s' & Hs & _).
      exists s'. split; [done|].
      eapply (Hstep (hooks s)); [done..|].
      eapply RunFacts.step_index; [done| |done]. simpl. by rewrite Hk.
    + intros id t r Ht Hcb Hm.
      destruct (RunFacts.step_total env (TimerFires id) s Hr) as (s' & Hs & _).
      exists s'. split; [done|].
      destruct (timer_kind t) eqn:Ek.
      * eapply (Hstep r (nextSlide r (clearTimer id s))); [done| |].
        -- done.
        -- eapply RunFacts.step_index; [done| |done].
           simpl. by rewrite Ht, Ek, Hcb.
      * eapply (Hstep r); [done..|].
        eapply RunFacts.step_index; [done| |done].
        simpl. by rewrite Ht, Ek, Hcb.
Qed.

Module DemoFacts.

Lemma lobby_eq : mount (Some "lobby") = Normal Demo.lobby.
Proof. by vm_compute. Qed.

Lemma lobby_reachable : reachable Demo.lobby.
Proof. exact (reach_mount _ _ lobby_eq). Qed.

Lemma showing_a_reachable : reachable Demo.showing_a.
Proof.
  apply (reach_step Demo.lobby Demo.three_items (Settle 0));
    [apply lobby_reachable | by vm_compute].
Qed.

Lemma showing_b_reachable : reachable Demo.showing_b.
Proof.
  apply (reach_step Demo.showing_a Demo.three_items (TimerFires 1));
    [apply showing_a_reachable | by vm_compute].
Qed.

Lemma showing_c_reachable : reachable Demo.showing_c.
Proof.
  apply (reach_step Demo.showing_b Demo.three_items (VideoEnded 1));
    [apply showing_b_reachable | by vm_compute].
Qed.

Lemma polling_at_c_reachable : reachable Demo.polling_at_c.
Proof.
  apply (reach_step Demo.showing_c Demo.three_items (TimerFires 0));
    [apply showing_c_reachable | by vm_compute].
Qed.

Lemma polling_at_b_reachable : reachable Demo.polling_at_b.
Proof.
  apply (reach_step Demo.showing_b Demo.three_items (TimerFires 0));
    [apply showing_b_reachable | by vm_compute].
Qed.

(** Three items held, index 2; the folder now lists two: the index is reset. *)
Lemma shrink_resets_index :
  ∃ s', step Demo.two_items (Settle 0) Demo.polling_at_c = Normal s' ∧
        currentIndex (hooks Demo.polling_at_c) = 2 ∧
        arr_length (mediaItems (hooks s')) = 2 ∧
        currentIndex (hooks s') = 0.
Proof. eexists. by vm_compute. Qed.

(** The same three items listed again while b.mp4 plays: the playlist is the
    same object, so the slider effect does not run and the video is not
    restarted. *)
Lemma same_listing_no_restart :
  ∃ s', step Demo.three_items (Settle 0) Demo.polling_at_b = Normal s' ∧
        mediaItems (hooks s') = mediaItems (hooks Demo.polling_at_b) ∧
        sliderDeps s' = sliderDeps Demo.polling_at_b ∧
        timers s' = timers Demo.polling_at_b ∧
        outputs s' = outputs Demo.polling_at_b.
Proof. eexists. by vm_compute. Qed.

(** One click on the sound button while b.mp4 plays. *)
Lemma toggle_while_video_plays :
  ∃ s', step Demo.three_items ClickToggleSound Demo.showing_b = Normal s' ∧
        isMuted (hooks Demo.showing_b) = true ∧
        isMuted (hooks s') = false ∧
        videoRef s' 1 = Some {| muted := false; currentTime := 0 |}.
Proof. eexists. by vm_compute. Qed.

Lemma uploading_reachable : reachable Demo.uploading.
Proof.
  apply (reach_step Demo.showing_a Demo.three_items
           (FileChosen (Some {| file_name := "d.png" |})));
    [apply showing_a_reachable | by vm_compute].
Qed.

End DemoFacts.

(** The witness of C5: on the three-item playlist of kiosk "lobby", showing
    the last item, the advance returns to the first. *)
Lemma advance_wraps_witness :
  currentIndex (hooks (nextSlide (hooks Demo.showing_c) Demo.showing_c)) = 0 ∧
  ∃ s', step Demo.three_items (TimerFires 2) Demo.showing_c = Normal s' ∧
        currentIndex (hooks s') = 0.
Proof.
  destruct (advance_wraps Demo.three_items Demo.showing_c)
    as (_ & _ & H3 & H4); [by vm_compute | by vm_compute |].
  split; [exact H3|].
  destruct (H4 DemoFacts.showing_c_reachable) as [_ Ht].
  destruct (Ht 2%nat
              {| timer_kind := Timeout; delay := 5000;
                 callback := CbNextSlide (hooks Demo.showing_c) |}
              (hooks Demo.showing_c))
    as (s' & Hs & _ & Hi); [by vm_compute | done | done |].
  exists s'. split; [exact Hs | exact Hi].
Defined.

(** C6: when the listing fails, be it [listAll] or the URL of one listed
    object, [fetchContent] logs the error and only clears the loading flag:
    it does not throw, the held playlist is the same object, the index and
    the operator's notification are as before, and the one output is the
    entry in the console.  So is the whole turn of the event loop. *)
Theorem listing_failure_keeps_playlist (env : Remote) (path : string)
    (e : JsError) :
  list_items env path = Throw e →
  (∀ s, fetchContent_settle env path s
        = Normal (setLoading false
                    (emit (ConsoleError "Error fetching content:" e) s))) ∧
  (∀ s n, reachable s → pending s !! n = Some (AwaitListing path) →
     ∃ s', step env (Settle n) s = Normal s' ∧ reachable s' ∧
           mediaItems (hooks s') = mediaItems (hooks s) ∧
           currentIndex (hooks s') = currentIndex (hooks s) ∧
           notification (hooks s') = notification (hooks s) ∧
           loading (hooks s') = false ∧
           outputs s' = outputs s ++ [ConsoleError "Error fetching content:" e]).
Proof.
  intros He. split.
  - intros s. unfold fetchContent_settle. by rewrite He.
  - intros s n Hr Hp.
    pose proof (RunFacts.step_listing_failed env path e s n
                  (RunFacts.reachable_Inv s Hr) Hp He) as Hs.
    eexists. split; [exact Hs|]. split; [by eapply reach_step|]. done.
Qed.

(** The witness of C6: the storage is down while kiosk "lobby" shows its
    third item and a poll is under way; and one listed object cannot be
    resolved. *)
Lemma listing_failure_keeps_playlist_witness :
  (∃ s', step Demo.storage_down (Settle 0) Demo.polling_at_c = Normal s' ∧
         mediaItems (hooks s') = mediaItems (hooks Demo.polling_at_c) ∧
         notification (hooks s') = "") ∧
  (∃ s', step Demo.unresolved_item (Settle 0) Demo.polling_at_c = Normal s' ∧
         mediaItems (hooks s') = mediaItems (hooks Demo.polling_at_c) ∧
         notification (hooks s') = "").
Proof.
  split.
  - destruct (listing_failure_keeps_playlist Demo.storage_down
                "images/lobby/" (StorageError "storage/retry-limit-exceeded"))
      as [_ H]; [by vm_compute|].
    destruct (H Demo.polling_at_c 0%nat DemoFacts.polling_at_c_reachable)
      as (s' & Hs & _ & Hm & _ & Hn & _); [by vm_compute|].
    exists s'. split_and!; [exact Hs | exact Hm | exact Hn].
  - destruct (listing_failure_keeps_playlist Demo.unresolved_item
                "images/lobby/" (StorageError "storage/object-not-found"))
      as [_ H]; [by vm_compute|].
    destruct (H Demo.polling_at_c 0%nat DemoFacts.polling_at_c_reachable)
      as (s' & Hs & _ & Hm & _ & Hn & _); [by vm_compute|].
    exists s'. split_and!; [exact Hs | exact Hm | exact Hn].
Defined.

(** C8: the mute flag is true before the first render and after the mount;
    every event but the click on the sound button leaves it as it is; and
    one click on the sound button, at the start of a session in which a video
    is showing, sets the session's flag and the flag of that video's element
    to false. *)
Theorem mute_changes_only_by_toggle :
  (∀ id, isMuted (hooks (initial id)) = true) ∧
  (∀ id, ∃ s, mount id = Normal s ∧ isMuted (hooks s) = true) ∧
  (∀ env ev s, reachable s → ev ≠ ClickToggleSound →
     ∃ s', step env ev s = Normal s' ∧
           isMuted (hooks s') = isMuted (hooks s)) ∧
  (∀ env s item, reachable s → isMuted (hooks s) = true →
     arr_get (mediaItems (hooks s)) (currentIndex (hooks s)) = Some item →
     classify (url item) = Video →
     (∃ v, videoRef s (currentIndex (hooks s)) = Some v ∧
           videoRef (toggleSound (hooks s) s) (currentIndex (hooks s))
           = Some {| muted := false; currentTime := currentTime v |}) ∧
     ∃ s', step env ClickToggleSound s = Normal s' ∧
           isMuted (hooks s') = false ∧
           currentIndex (hooks s') = currentIndex (hooks s) ∧
           ∃ v', videoRef s' (currentIndex (hooks s')) = Some v' ∧
                 muted v' = false).
Proof.
  split_and!.
  - done.
  - intros id. exists (mounted_state id).
    by rewrite MountFacts.mount_eq.
  - intros env ev s Hr Hev.
    destruct (HandlerFacts.step_Inv env ev s (RunFacts.reachable_Inv s Hr))
      as (s1 & s' & _ & Hh & Hs & _ & Hhooks & _).
    exists s'. split; [done|]. rewrite Hhooks. simpl.
    by apply (h_isMuted _ _ _ Hh).
  - intros env s item Hr Hmuted Hget Hvid.
    pose proof (RunFacts.reachable_Inv s Hr) as HI.
    assert (truthy (isVideo (url item)) = true) as Ht.
    { unfold classify in Hvid. by destruct (truthy _). }
    destruct (SliderFacts.arr_get_Some _ _ _ Hget) as [Hi Hitem].
    split.
    + destruct (inv_videos s HI _ _ Hitem Ht) as [v Hv].
      assert (videoRef s (currentIndex (hooks s)) = Some v) as Href.
      { unfold videoRef. by rewrite bool_decide_eq_false_2 by lia. }
      exists v. split; [done|].
      unfold toggleSound.
      change (videoRef (setIsMuted ?b s) ?i) with (videoRef s i).
      rewrite Href, Hmuted. unfold videoRef.
      rewrite bool_decide_eq_false_2 by lia. simpl.
      by rewrite lookup_insert_eq.
    + destruct (RunFacts.step_toggle_on_video env s item HI Hget Ht)
        as (s' & Hs & Hh & Href & _).
      exists s'. rewrite Hh, Hmuted in *. simpl. split_and!; [done..|].
      eexists. split; [exact Href|done].
Qed.

(** ** The version gate *)

Module VersionFacts.

Lemma strict_differs_version v :
  v ≠ JUndefined → v ≠ JNull →
  ∃ w, get_version v = Normal w ∧
       (strict_differs w APP_VERSION = true ↔
        Spec.version_string v ≠ Some APP_VERSION).
Proof.
  intros Hu Hn. destruct v as [| |b|m e|t|items|fields]; try done;
    try (eexists; split; [done|]; simpl; split; done).
  simpl. eexists. split; [done|].
  destruct (own_property "version" fields) as [[| |b|m e|t|items|fs]|]; simpl;
    try (split; done).
  case_bool_decide; split; try done; congruence.
Qed.

(** The comparison of [checkVersion] says "differs" exactly when the
    descriptor was fetched and parsed, is an object or a primitive other than
    [null], and does not hold the running version as its version string. *)
Lemma version_differs_true env :
  version_differs env = Normal true ↔
  ∃ bytes v,
    getBytes env "images/common/version.json" = Normal bytes ∧
    JSON_parse env (TextDecoder_decode env bytes) = Normal v ∧
    v ≠ JUndefined ∧ v ≠ JNull ∧
    Spec.version_string v ≠ Some APP_VERSION.
Proof.
  unfold version_differs.
  destruct (getBytes env _) as [bytes|e]; simpl;
    [|split; [done|by intros (? & ? & ? & _)]].
  destruct (JSON_parse env _) as [v|e] eqn:Ep; simpl;
    [|split; [done|]; intros (? & ? & ? & ? & _); congruence].
  split.
  - intros H. exists bytes, v.
    assert (v ≠ JUndefined ∧ v ≠ JNull) as [Hu Hn].
    { by destruct v. }
    destruct (strict_differs_version v Hu Hn) as (w & Hw & Hiff).
    rewrite Hw in H. simpl in H. simplify_eq. split_and!; try done.
    by apply Hiff.
  - intros (bytes' & v' & Hb & Hp & Hu & Hn & Hv).
    assert (v' = v) as -> by congruence.
    destruct (strict_differs_version v Hu Hn) as (w & -> & Hiff).
    simpl. f_equal. by apply Hiff.
Qed.

Lemma reloads_emit_reload s :
  Spec.reloads (emit LocationReload s) = S (Spec.reloads s).
Proof.
  unfold Spec.reloads. simpl. rewrite filter_app, length_app. simpl. lia.
Qed.

Lemma reloads_emit_log msg s :
  Spec.reloads (emit (ConsoleLog msg) s) = Spec.reloads s.
Proof.
  unfold Spec.reloads. simpl. rewrite filter_app, length_app. simpl. lia.
Qed.

End VersionFacts.

(** C4, as the code has it: a version check asks for a reload, once, exactly
    when the descriptor was fetched and parsed, is not [null], and its
    [version] is not the string of the running build; this holds also for a
    descriptor that has no version string at all.  A failed fetch, a text
    that is not JSON and a descriptor with the running version leave the
    state, its outputs included, as it was. *)
Theorem reload_on_version_mismatch (env : Remote) (s : State) :
  (Spec.reloads (checkVersion_settle env s) = S (Spec.reloads s) ↔
   ∃ bytes v,
     getBytes env "images/common/version.json" = Normal bytes ∧
     JSON_parse env (TextDecoder_decode env bytes) = Normal v ∧
     v ≠ JUndefined ∧ v ≠ JNull ∧
     Spec.version_string v ≠ Some APP_VERSION) ∧
  (Spec.reloads (checkVersion_settle env s) = S (Spec.reloads s) →
   checkVersion_settle env s
   = emit LocationReload
       (emit (ConsoleLog "New version detected! Reloading...") s) ∧
   outputs (checkVersion_settle env s)
   = outputs s ++ [ConsoleLog "New version detected! Reloading...";
                   LocationReload]) ∧
  (Spec.reloads (checkVersion_settle env s) ≠ S (Spec.reloads s) →
   checkVersion_settle env s = s) ∧
  (∀ e, getBytes env "images/common/version.json" = Throw e →
        checkVersion_settle env s = s) ∧
  (∀ bytes e,
     getBytes env "images/common/version.json" = Normal bytes →
     JSON_parse env (TextDecoder_decode env bytes) = Throw e →
     checkVersion_settle env s = s) ∧
  (∀ bytes v,
     getBytes env "images/common/version.json" = Normal bytes →
     JSON_parse env (TextDecoder_decode env bytes) = Normal v →
     Spec.version_string v = Some APP_VERSION →
     checkVersion_settle env s = s).
Proof.
  pose proof (VersionFacts.version_differs_true env) as Htrue.
  assert (Spec.reloads (checkVersion_settle env s) = S (Spec.reloads s) ↔
          version_differs env = Normal true) as Hreload.
  { unfold checkVersion_settle.
    destruct (version_differs env) as [[]|e].
    - rewrite VersionFacts.reloads_emit_reload, VersionFacts.reloads_emit_log.
      done.
    - split; [lia|done].
    - split; [lia|done]. }
  assert (version_differs env ≠ Normal true → checkVersion_settle env s = s)
    as Hquiet.
  { unfold checkVersion_settle. by destruct (version_differs env) as [[]|e]. }
  split_and!.
  - by rewrite Hreload.
  - rewrite Hreload. unfold checkVersion_settle. intros ->. simpl.
    by rewrite <-app_assoc.
  - rewrite Hreload. apply Hquiet.
  - intros e He. apply Hquiet. rewrite Htrue.
    intros (? & ? & ? & _). congruence.
  - intros bytes e Hb He. apply Hquiet. rewrite Htrue.
    intros (? & ? & ? & ? & _). congruence.
  - intros bytes v Hb Hp Hv. apply Hquiet. rewrite Htrue.
    intros (bytes' & v' & Hb' & Hp' & _ & _ & Hne).
    assert (bytes' = bytes) as -> by congruence.
    assert (v' = v) as -> by congruence. done.
Qed.

(** C4, as the specification words it, fails: the descriptor [{}] is fetched
    and decoded, has no version string that could differ from the build
    constant, and is not ignored: the check asks for a reload. *)
Lemma reload_without_version_string :
  getBytes Demo.empty_descriptor "images/common/version.json"
  = Normal (String.list_byte_of_string "{}") ∧
  JSON_parse Demo.empty_descriptor
    (TextDecoder_decode Demo.empty_descriptor (String.list_byte_of_string "{}"))
  = Normal (JObject []) ∧
  Spec.version_string (JObject []) = None ∧
  Spec.reloads (checkVersion_settle Demo.empty_descriptor Demo.showing_a)
  = S (Spec.reloads Demo.showing_a) ∧
  ¬ Spec.reload_as_specified Demo.empty_descriptor Demo.showing_a.
Proof.
  split_and!; [by vm_compute..|].
  intros [H _]. destruct H as (bytes & v & ver & Hb & Hp & Hv & _);
    [by vm_compute|].
  vm_compute in Hb. injection Hb as <-.
  vm_compute in Hp. injection Hp as <-.
  discriminate.
Qed.

(** The expected behaviours of C4 on the example worlds: a new build reloads
    once, the running build and a broken descriptor do not. *)
Lemma version_gate_examples :
  Spec.reloads (checkVersion_settle Demo.new_build Demo.showing_a) = 1%nat ∧
  checkVersion_settle Demo.three_items Demo.showing_a = Demo.showing_a ∧
  checkVersion_settle Demo.broken_descriptor Demo.showing_a = Demo.showing_a ∧
  checkVersion_settle Demo.storage_down Demo.showing_a = Demo.showing_a.
Proof. by vm_compute. Qed.

(** ** The poll timer *)

Module PollFacts.

Import CommitFacts.

Lemma pollEffect_known r s :
  kiosk_known (kioskId r) = true →
  pollEffect r s
  = (with_timers
       (<[nextTimer s := {| timer_kind := Interval; delay := 120000;
                            callback := CbPoll r |}]>)
       (S (nextTimer s)) s,
     Some (nextTimer s)).
Proof. intros Hk. unfold pollEffect. by rewrite Hk. Qed.

Lemma pollEffect_unknown r s :
  kiosk_known (kioskId r) = false → pollEffect r s = (s, None).
Proof. intros Hk. unfold pollEffect. by rewrite Hk. Qed.

Lemma fetchContent_timers r bg s :
  timers (fetchContent r bg s) = timers s ∧
  nextTimer (fetchContent r bg s) = nextTimer s ∧
  pollCleanup (fetchContent r bg s) = pollCleanup s.
Proof.
  unfold fetchContent. destruct (kiosk_known _); [|done].
  by destruct (negb bg && _).
Qed.

Lemma fetchContent_pending r s :
  kiosk_known (kioskId r) = true →
  pending (fetchContent r true s)
  = pending s ++ [AwaitListing ("images/" +:+ template (kioskId r) +:+ "/")].
Proof. intros Hk. unfold fetchContent. by rewrite Hk. Qed.

End PollFacts.

(** C7, as the code has it: once [kioskId] is known the auto-refresh effect
    arms one repeating timer, of 120000 ms, whose every tick starts both the
    content refresh and the version check; its clean-up clears that timer;
    when [kioskId] changes the effect clears the old timer and arms a new
    one, and does nothing while [kioskId] stays; unmounting clears it. *)
Theorem poll_is_one_interval (r : Hooks) (s : State) :
  kiosk_known (kioskId r) = true →
  (pollEffect r s).2 = Some (nextTimer s) ∧
  timers (pollEffect r s).1
  = <[nextTimer s := {| timer_kind := Interval; delay := 120000;
                        callback := CbPoll r |}]> (timers s) ∧
  (∀ t, fire (CbPoll r) t = checkVersion (fetchContent r true t)) ∧
  (∀ t, pending (fire (CbPoll r) t)
        = pending t
          ++ [AwaitListing ("images/" +:+ template (kioskId r) +:+ "/");
              AwaitVersion]) ∧
  (timers s !! nextTimer s = None →
   timers (run_cleanup (pollEffect r s).2 (pollEffect r s).1) = timers s) ∧
  (kioskDeps s ≠ Some (kioskId r) →
   pollCleanup (run_kiosk_effects r s) = Some (nextTimer s) ∧
   kioskDeps (run_kiosk_effects r s) = Some (kioskId r) ∧
   timers (run_kiosk_effects r s) !! nextTimer s
   = Some {| timer_kind := Interval; delay := 120000; callback := CbPoll r |} ∧
   ∀ old, pollCleanup s = Some old → old ≠ nextTimer s →
          timers (run_kiosk_effects r s) !! old = None) ∧
  (kioskDeps s = Some (kioskId r) → run_kiosk_effects r s = s) ∧
  (∀ id, pollCleanup s = Some id → timers (unmount s) !! id = None).
Proof.
  intros Hk. rewrite (PollFacts.pollEffect_known r s Hk). simpl.
  split_and!; try done.
  - intros t. unfold checkVersion. simpl.
    by rewrite (PollFacts.fetchContent_pending r t Hk), <-app_assoc.
  - intros Hfresh. by rewrite delete_insert_id.
  - intros Hdeps. unfold run_kiosk_effects.
    rewrite (bool_decide_eq_false_2 _ Hdeps).
    unfold initialFetchEffect. rewrite Hk.
    rewrite PollFacts.pollEffect_known by done.
    destruct (PollFacts.fetchContent_timers r false s) as (Ht & Hn & Hc).
    simpl. rewrite !CommitFacts.run_cleanup_nextTimer, Hn, Hc.
    split_and!; try done.
    + by rewrite lookup_insert_eq.
    + intros old Hold Hne. rewrite Hold. simpl.
      rewrite lookup_insert_ne by done. rewrite Ht.
      apply lookup_delete_eq.
  - intros Hdeps. unfold run_kiosk_effects.
    by rewrite (bool_decide_eq_true_2 _ Hdeps).
  - intros id Hid. unfold unmount. rewrite Hid.
    destruct (sliderCleanup s) as [id'|]; simpl.
    + destruct (decide (id' = id)) as [->|Hne];
        [apply lookup_delete_eq|].
      rewrite lookup_delete_ne by done. apply lookup_delete_eq.
    + apply lookup_delete_eq.
Qed.

(** The witness of C7: the render of kiosk "lobby" in which [kioskId] is
    first known arms timer 0, and its tick starts a listing of the kiosk's
    folder and a version check. *)
Lemma poll_is_one_interval_witness :
  timers (run_kiosk_effects (detected_hooks (Some "lobby"))
            (after_detect (Some "lobby"))) !! 0%nat
  = Some {| timer_kind := Interval; delay := 120000;
            callback := CbPoll (detected_hooks (Some "lobby")) |} ∧
  pending (fire (CbPoll (detected_hooks (Some "lobby")))
             Demo.showing_a)
  = [AwaitListing "images/lobby/"; AwaitVersion].
Proof.
  destruct (poll_is_one_interval (detected_hooks (Some "lobby"))
              (after_detect (Some "lobby")))
    as (_ & _ & _ & Hp & _ & Hchange & _); [by vm_compute|].
  split.
  - destruct Hchange as (_ & _ & Ht & _); [by vm_compute|]. exact Ht.
  - exact (Hp Demo.showing_a).
Defined.

(** C7, as the specification words it, fails: after the mount of kiosk
    "lobby" one timer is armed, not two, and while an image shows the only
    other timer is the dwell timeout; no state there has one interval for the
    content refresh and another for the version check. *)
Lemma poll_not_two_timers :
  mount (Some "lobby") = Normal Demo.lobby ∧
  map_to_list (timers Demo.lobby)
  = [(0%nat, {| timer_kind := Interval; delay := 120000;
                callback := CbPoll (detected_hooks (Some "lobby")) |})] ∧
  ¬ Spec.two_independent_timers Demo.lobby ∧
  ¬ Spec.two_independent_timers Demo.showing_a.
Proof.
  split_and!; [by vm_compute..| |].
  - intros (i & j & ti & tj & Hij & Hi & Hj & _).
    apply elem_of_map_to_list in Hi, Hj.
    vm_compute in Hi, Hj.
    apply list_elem_of_singleton in Hi, Hj. congruence.
  - intros (i & j & ti & tj & Hij & Hi & Hj & Hki & Hkj & _).
    apply elem_of_map_to_list in Hi, Hj.
    vm_compute in Hi, Hj.
    apply elem_of_cons in Hi as [Hi|Hi]; [by simplify_eq|].
    apply elem_of_cons in Hj as [Hj|Hj]; [by simplify_eq|].
    apply list_elem_of_singleton in Hi, Hj. congruence.
Qed.

(** An example of C2: index 2 of three items, and the folder lists two. *)
Lemma index_stays_in_range_witness :
  ∃ s', step Demo.two_items (Settle 0) Demo.polling_at_c = Normal s' ∧
        currentIndex (hooks Demo.polling_at_c) = 2 ∧
        arr_length (mediaItems (hooks s')) = 2 ∧
        currentIndex (hooks s') = 0.
Proof.
  destruct index_stays_in_range as (_ & Htotal & Hreset).
  destruct (Htotal Demo.polling_at_c Demo.two_items (Settle 0)
              DemoFacts.polling_at_c_reachable) as (s' & Hs & _ & _).
  exists s'. split; [exact Hs|].
  assert (arr_length (mediaItems (hooks s')) = 2) as Hlen.
  { vm_compute in Hs. injection Hs as <-. reflexivity. }
  split_and!; [reflexivity | exact Hlen |].
  apply (Hreset Demo.polling_at_c Demo.two_items 0%nat s'
           DemoFacts.polling_at_c_reachable Hs).
  rewrite Hlen. by vm_compute.
Defined.

(** * Beyond the playlist: the rest of the component *)

(** ** Frames of the render and of the effects *)

Module FrameFacts.

Import SliderFacts CommitFacts.

Lemma effects_frame_refl s : effects_frame s s.
Proof. by constructor. Qed.

Lemma effects_frame_trans s1 s2 s3 :
  effects_frame s1 s2 → effects_frame s2 s3 → effects_frame s1 s3.
Proof.
  intros H12 H23. constructor; try (destruct H12, H23; congruence).
  intros o Ho. by rewrite (ef_said _ _ H23), (ef_said _ _ H12).
Qed.

Lemma reloads_emit_play k s :
  Spec.reloads (emit (VideoPlay k) s) = Spec.reloads s.
Proof.
  unfold Spec.reloads. simpl. rewrite filter_app, length_app. simpl. lia.
Qed.

Lemma run_cleanup_frame c s : effects_frame s (run_cleanup c s).
Proof. destruct c; by constructor. Qed.

Lemma fetchContent_frame r bg s : effects_frame s (fetchContent r bg s).
Proof.
  unfold fetchContent. destruct (kiosk_known _); [|by constructor].
  destruct (negb bg && _); by constructor.
Qed.

Lemma run_mount_effects_frame s : effects_frame s (run_mount_effects s).
Proof.
  unfold run_mount_effects. destruct (mountEffectsDone s); by constructor.
Qed.

Lemma run_kiosk_effects_frame r s : effects_frame s (run_kiosk_effects r s).
Proof.
  unfold run_kiosk_effects. case_bool_decide; [by constructor|].
  unfold initialFetchEffect, pollEffect.
  destruct (kiosk_known (kioskId r)); simpl.
  - eapply effects_frame_trans; [apply (fetchContent_frame r false)|].
    eapply effects_frame_trans; [apply run_cleanup_frame|].
    by constructor.
  - eapply effects_frame_trans; [apply run_cleanup_frame|]. by constructor.
Qed.

Lemma sliderEffect_frame r s s' c :
  sliderEffect r s = Normal (s', c) → effects_frame s s'.
Proof.
  unfold sliderEffect. case_bool_decide; [by intros [= <- _]; constructor|].
  destruct (_ >=? _); [by intros [= <- _]; constructor|].
  destruct (arr_get _ _) as [item|]; [|done].
  destruct (negb _); [by intros [= <- _]; constructor|].
  destruct (videoRef s _); intros [= <- _]; [|by constructor].
  constructor; try done; [by rewrite reloads_emit_play|].
  intros o Ho. unfold said. simpl. rewrite filter_app, length_app.
  rewrite filter_cons_False, filter_nil by (intros <-; done). simpl. lia.
Qed.

Lemma run_slider_effect_frame r s s' :
  run_slider_effect r s = Normal s' → effects_frame s s'.
Proof.
  unfold run_slider_effect. case_bool_decide.
  - intros [= <-]. apply effects_frame_refl.
  - destruct (sliderEffect r _) as [[s1 c]|e] eqn:E; [|done].
    simpl. intros [= <-]. apply sliderEffect_frame in E.
    eapply effects_frame_trans; [apply run_cleanup_frame|].
    eapply effects_frame_trans; [exact E|]. by constructor.
Qed.

Lemma run_effects_frame s s' :
  run_effects s = Normal s' → effects_frame s s'.
Proof.
  unfold run_effects. intros H. apply run_slider_effect_frame in H.
  eapply effects_frame_trans; [apply run_mount_effects_frame|].
  eapply effects_frame_trans; [apply run_kiosk_effects_frame|]. exact H.
Qed.

Lemma render_frame s : effects_frame s (render s).
Proof. by constructor. Qed.

(** What [render] establishes and the effects keep, the commit ends with. *)
Lemma commit_establishes (Q : State → Prop) :
  (∀ s, Q (render s)) →
  (∀ s s', Q s → run_effects s = Normal s' → Q s') →
  ∀ n s s', commit n s = Normal s' → Q s'.
Proof.
  intros Hr He. induction n as [|n IH]; intros s s'; [done|].
  rewrite commit_S.
  destruct (run_effects (render s)) as [s1|e] eqn:E; [|done]. simpl.
  destruct (hooks_same _ _); [|by apply IH].
  intros [= <-]. by eapply He.
Qed.

(** What [render] and the effects keep, the commit keeps. *)
Lemma commit_preserves (P : State → Prop) :
  (∀ s, P s → P (render s)) →
  (∀ s s', P s → run_effects s = Normal s' → P s') →
  ∀ n s s', P s → commit n s = Normal s' → P s'.
Proof.
  intros Hr He. induction n as [|n IH]; intros s s' HP; [done|].
  rewrite commit_S.
  destruct (run_effects (render s)) as [s1|e] eqn:E; [|done]. simpl.
  assert (P s1) by (eapply He; [apply Hr, HP|done]).
  destruct (hooks_same _ _); [|by apply IH].
  by intros [= <-].
Qed.

Lemma commit_frame n s s' : commit n s = Normal s' → effects_frame s s'.
Proof.
  apply (commit_preserves (effects_frame s)).
  - intros t Ht. eapply effects_frame_trans; [exact Ht|apply render_frame].
  - intros t t' Ht H. eapply effects_frame_trans; [exact Ht|].
    by apply run_effects_frame.
  - apply effects_frame_refl.
Qed.

End FrameFacts.

(** ** Who owns the timers *)

Module TimerFacts.

Import SliderFacts CommitFacts FrameFacts.

Lemma cleared_lookup c (tm : gmap nat Timer) id t :
  cleared c tm !! id = Some t ↔ tm !! id = Some t ∧ c ≠ Some id.
Proof.
  destruct c as [a|]; simpl.
  - rewrite lookup_delete_Some. split; intros [? ?]; split; congruence.
  - split; [by intros ?|by intros [? _]].
Qed.

(** Arming a new timer under the next id. *)
Lemma owned_insert t0 tm next sc pc sc' pc' :
  owned tm next sc pc →
  (timer_kind t0, delay t0) = timer_shape (callback t0) →
  (∀ r, callback t0 = CbNextSlide r → sc' = Some next) →
  (∀ r, callback t0 = CbPoll r → pc' = Some next) →
  (sc' = sc ∨ sc' = Some next ∧ ∃ r, callback t0 = CbNextSlide r) →
  (pc' = pc ∨ pc' = Some next ∧ ∃ r, callback t0 = CbPoll r) →
  (∀ id t r, tm !! id = Some t → callback t = CbNextSlide r → sc' = Some id) →
  (∀ id t r, tm !! id = Some t → callback t = CbPoll r → pc' = Some id) →
  owned (<[next := t0]> tm) (S next) sc' pc'.
Proof.
  intros [Hf Hsh Hs Hp Hsi Hpi] Hshape Hs0 Hp0 Hsc Hpc Hs' Hp'. constructor.
  - intros id t. rewrite lookup_insert_Some.
    intros [[<- _]|[_ H]]; [lia|]. apply Hf in H. lia.
  - intros id t. rewrite lookup_insert_Some.
    intros [[_ <-]|[_ H]]; [done|]. by apply (Hsh id).
  - intros id t r. rewrite lookup_insert_Some.
    intros [[<- <-]|[_ H]]; [apply Hs0|by apply (Hs' _ t)].
  - intros id t r. rewrite lookup_insert_Some.
    intros [[<- <-]|[_ H]]; [apply Hp0|by apply (Hp' _ t)].
  - intros id Hid. destruct Hsc as [->|[-> [r Hr]]].
    + destruct (Hsi id Hid) as [Hlt Hcb]. split; [lia|].
      intros t. rewrite lookup_insert_ne by lia. apply Hcb.
    + injection Hid as <-. split; [lia|].
      intros t. rewrite lookup_insert_eq. intros [= <-]. eauto.
  - intros id Hid. destruct Hpc as [->|[-> [r Hr]]].
    + destruct (Hpi id Hid) as [Hlt Hcb]. split; [lia|].
      intros t. rewrite lookup_insert_ne by lia. apply Hcb.
    + injection Hid as <-. split; [lia|].
      intros t. rewrite lookup_insert_eq. intros [= <-]. eauto.
Qed.

Lemma owned_insert_toast tm next sc pc :
  owned tm next sc pc →
  owned (<[next := {| timer_kind := Timeout; delay := 3000;
                      callback := CbClearNotification |}]> tm)
        (S next) sc pc.
Proof.
  intros Ho. apply (owned_insert _ _ _ sc pc); try done; auto.
  - by destruct Ho.
  - by destruct Ho.
Qed.

Lemma owned_cleared c tm next sc pc :
  owned tm next sc pc → owned (cleared c tm) next sc pc.
Proof.
  intros [Hf Hsh Hs Hp Hsi Hpi]. constructor.
  - intros id t. rewrite cleared_lookup. intros [H _]. eauto.
  - intros id t. rewrite cleared_lookup. intros [H _]. eauto.
  - intros id t r. rewrite cleared_lookup. intros [H _]. eauto.
  - intros id t r. rewrite cleared_lookup. intros [H _]. eauto.
  - intros id Hid. destruct (Hsi id Hid) as [Hlt Hcb]. split; [done|].
    intros t. rewrite cleared_lookup. intros [H _]. eauto.
  - intros id Hid. destruct (Hpi id Hid) as [Hlt Hcb]. split; [done|].
    intros t. rewrite cleared_lookup. intros [H _]. eauto.
Qed.

Lemma owned_delete id tm next sc pc :
  owned tm next sc pc → owned (delete id tm) next sc pc.
Proof. apply (owned_cleared (Some id)). Qed.

(** Once the slider's timer is cleared, no dwell timer is left. *)
Lemma owned_drop_slider tm next sc pc :
  owned tm next sc pc → owned (cleared sc tm) next None pc.
Proof.
  intros [Hf Hsh Hs Hp Hsi Hpi]. constructor.
  - intros id t. rewrite cleared_lookup. intros [H _]. eauto.
  - intros id t. rewrite cleared_lookup. intros [H _]. eauto.
  - intros id t r. rewrite cleared_lookup. intros [H Hne] Hcb.
    by specialize (Hs _ _ _ H Hcb).
  - intros id t r. rewrite cleared_lookup. intros [H _]. eauto.
  - done.
  - intros id Hid. destruct (Hpi id Hid) as [Hlt Hcb]. split; [done|].
    intros t. rewrite cleared_lookup. intros [H _]. eauto.
Qed.

Lemma owned_arm_slider r tm next pc :
  owned tm next None pc →
  owned (<[next := {| timer_kind := Timeout; delay := 5000;
                      callback := CbNextSlide r |}]> tm)
        (S next) (Some next) pc.
Proof.
  intros Ho. apply (owned_insert _ _ _ None pc); try done; eauto.
  - intros id t r' H Hcb. by pose proof (own_slider _ _ _ _ Ho _ _ _ H Hcb).
  - by destruct Ho.
Qed.

Lemma owned_drop_poll tm next sc pc :
  owned tm next sc pc → owned (cleared pc tm) next sc None.
Proof.
  intros [Hf Hsh Hs Hp Hsi Hpi]. constructor.
  - intros id t. rewrite cleared_lookup. intros [H _]. eauto.
  - intros id t. rewrite cleared_lookup. intros [H _]. eauto.
  - intros id t r. rewrite cleared_lookup. intros [H _]. eauto.
  - intros id t r. rewrite cleared_lookup. intros [H Hne] Hcb.
    by specialize (Hp _ _ _ H Hcb).
  - intros id Hid. destruct (Hsi id Hid) as [Hlt Hcb]. split; [done|].
    intros t. rewrite cleared_lookup. intros [H _]. eauto.
  - done.
Qed.

Lemma owned_arm_poll r tm next sc :
  owned tm next sc None →
  owned (<[next := {| timer_kind := Interval; delay := 120000;
                      callback := CbPoll r |}]> tm)
        (S next) sc (Some next).
Proof.
  intros Ho. apply (owned_insert _ _ _ sc None); try done; eauto.
  - by destruct Ho.
  - intros id t r' H Hcb. by pose proof (own_poll _ _ _ _ Ho _ _ _ H Hcb).
Qed.

Lemma run_cleanup_timers c s :
  timers (run_cleanup c s) = cleared c (timers s).
Proof. by destruct c. Qed.

Lemma run_cleanup_cleanups c s :
  sliderCleanup (run_cleanup c s) = sliderCleanup s ∧
  pollCleanup (run_cleanup c s) = pollCleanup s.
Proof. by destruct c. Qed.

Lemma fetchContent_owned r bg s :
  timers_owned s → timers_owned (fetchContent r bg s).
Proof.
  unfold fetchContent. destruct (kiosk_known _); [|done].
  by destruct (negb bg && _).
Qed.

Lemma showToast_owned msg s : timers_owned s → timers_owned (showToast msg s).
Proof. apply owned_insert_toast. Qed.

Lemma clearTimer_owned id s : timers_owned s → timers_owned (clearTimer id s).
Proof. apply owned_delete. Qed.

Lemma handle_owned env ev s s1 :
  timers_owned s → handle env ev s = Normal s1 → timers_owned s1.
Proof.
  intros Ho.
  destruct ev as [n|id|k| |msg|b| | | | |file|path confirmed]; simpl;
    try (by intros [= <-]).
  - destruct (pending s !! n) as [[path| |r path file|r path]|]; simpl;
      [| | | |by intros [= <-]].
    + unfold fetchContent_settle.
      destruct (list_items env path) as [items|e]; simpl.
      * rewrite ReconcilerFacts.reconcile_eq. simpl. by intros [= <-].
      * by intros [= <-].
    + intros [= <-]. unfold checkVersion_settle.
      by destruct (version_differs env) as [[]|].
    + intros [= <-]. unfold handleUpload_settle.
      destruct (uploadBytes env path file);
        [apply fetchContent_owned|]; by apply showToast_owned.
    + intros [= <-]. unfold handleDelete_settle.
      destruct (deleteObject env path);
        [apply fetchContent_owned|]; by apply showToast_owned.
  - destruct (timers s !! id) as [t|]; [|by intros [= <-]].
    intros [= <-].
    assert (timers_owned
              (match timer_kind t with
               | Timeout => clearTimer id s
               | Interval => s
               end)) as Ho'.
    { destruct (timer_kind t); [by apply clearTimer_owned|done]. }
    destruct (callback t) as [r|r|]; simpl; [done| |done].
    unfold checkVersion. by apply (fetchContent_owned r true) in Ho'.
  - destruct (videoRefs s !! k); by intros [= <-].
  - intros [= <-]. unfold toggleSound. by destruct (videoRef _ _).
  - intros [= <-]. unfold toggleFullscreenAndUi.
    by destruct (fullscreenElement s).
  - intros [= <-]. unfold handleUpload. destruct file; [|done].
    by apply showToast_owned.
  - intros [= <-]. unfold handleDelete. destruct confirmed; [|done].
    by apply showToast_owned.
Qed.

Lemma run_mount_effects_owned s :
  timers_owned s → timers_owned (run_mount_effects s).
Proof. unfold run_mount_effects. by destruct (mountEffectsDone s). Qed.

Lemma run_kiosk_effects_owned r s :
  timers_owned s → timers_owned (run_kiosk_effects r s).
Proof.
  intros Ho. unfold run_kiosk_effects. case_bool_decide; [done|].
  assert (timers_owned (initialFetchEffect r s)) as Ho1.
  { unfold initialFetchEffect. destruct (kiosk_known _); [|done].
    by apply fetchContent_owned. }
  revert Ho1. generalize (initialFetchEffect r s). intros s1 Ho1.
  pose proof (owned_drop_poll _ _ _ _ Ho1) as Hd.
  destruct (run_cleanup_cleanups (pollCleanup s1) s1) as [Hsc Hpc].
  unfold pollEffect. destruct (kiosk_known (kioskId r)); simpl.
  - unfold timers_owned. simpl.
    rewrite run_cleanup_timers, run_cleanup_nextTimer, Hsc.
    by apply owned_arm_poll.
  - unfold timers_owned. simpl.
    by rewrite run_cleanup_timers, run_cleanup_nextTimer, Hsc.
Qed.

Lemma run_slider_effect_owned r s s' :
  timers_owned s → run_slider_effect r s = Normal s' → timers_owned s'.
Proof.
  intros Ho. unfold run_slider_effect. case_bool_decide; [by intros [= <-]|].
  pose proof (owned_drop_slider _ _ _ _ Ho) as Hd.
  destruct (run_cleanup_cleanups (sliderCleanup s) s) as [Hsc Hpc].
  set (s0 := run_cleanup (sliderCleanup s) s).
  assert (owned (timers s0) (nextTimer s0) None (pollCleanup s0)) as H0.
  { unfold s0. by rewrite run_cleanup_timers, run_cleanup_nextTimer, Hpc. }
  clearbody s0. unfold sliderEffect.
  case_bool_decide; [by intros [= <-]|].
  destruct (_ >=? _); [by intros [= <-]|].
  destruct (arr_get _ _) as [item|]; [|done].
  destruct (negb _); simpl.
  - intros [= <-]. by apply owned_arm_slider.
  - destruct (videoRef s0 _); by intros [= <-].
Qed.

Lemma run_effects_owned s s' :
  timers_owned s → run_effects s = Normal s' → timers_owned s'.
Proof.
  intros Ho. unfold run_effects. apply run_slider_effect_owned.
  by apply run_kiosk_effects_owned, run_mount_effects_owned.
Qed.

Lemma commit_owned n s s' :
  timers_owned s → commit n s = Normal s' → timers_owned s'.
Proof.
  apply (commit_preserves timers_owned); [done|].
  intros t t'. apply run_effects_owned.
Qed.

Lemma initial_owned id : timers_owned (initial id).
Proof.
  constructor; simpl;
    [intros i t|intros i t|intros i t r|intros i t r|done|done];
    by rewrite lookup_empty.
Qed.

Lemma reachable_owned s : reachable s → timers_owned s.
Proof.
  induction 1 as [id s Hm|s env ev s' _ IH Hstep].
  - eapply commit_owned; [apply initial_owned|exact Hm].
  - unfold step in Hstep.
    destruct (handle env ev s) as [s1|e] eqn:E; [|done]. simpl in Hstep.
    eapply commit_owned; [|exact Hstep]. by eapply handle_owned.
Qed.

End TimerFacts.

(** ** The video elements *)

Module VideoFacts.

Import SliderFacts CommitFacts FrameFacts.

Lemma slide_videos_spec refs m items : ∀ i0 k,
  slide_videos refs m i0 items !! k =
    if decide (k < i0)%nat then None
    else
      match items !! (k - i0)%nat with
      | Some item =>
          if truthy (isVideo (url item))
          then Some {| muted := m;
                       currentTime := from_option currentTime 0 (refs !! k) |}
          else None
      | None => None
      end.
Proof.
  induction items as [|x items IH]; intros i0 k; cbn [slide_videos].
  - rewrite lookup_empty, lookup_nil. by destruct (decide _).
  - destruct (decide (k < i0)%nat) as [Hlt|Hge].
    + assert (slide_videos refs m (S i0) items !! k = None) as Hnone.
      { rewrite IH. by rewrite decide_True by lia. }
      destruct (truthy (isVideo (url x)));
        [rewrite lookup_insert_ne by lia|]; done.
    + destruct (decide (k = i0)) as [->|Hne].
      * rewrite Nat.sub_diag. simpl.
        destruct (truthy (isVideo (url x))).
        -- by rewrite lookup_insert_eq.
        -- rewrite IH. by rewrite decide_True by lia.
      * replace (k - i0)%nat with (S (k - S i0)) by lia. simpl.
        assert (slide_videos refs m (S i0) items !! k
                = match items !! (k - S i0)%nat with
                  | Some item =>
                      if truthy (isVideo (url item))
                      then Some {| muted := m;
                                   currentTime :=
                                     from_option currentTime 0 (refs !! k) |}
                      else None
                  | None => None
                  end) as Hk.
        { rewrite IH. by rewrite decide_False by lia. }
        destruct (truthy (isVideo (url x)));
          [rewrite lookup_insert_ne by lia|]; done.
Qed.

(** A render leaves an element at the video slides and nowhere else, muted
    as the session is. *)
Lemma render_mirror s : videos_mirror (render s).
Proof.
  intros k. simpl. rewrite slide_videos_spec, Nat.sub_0_r.
  rewrite decide_False by lia.
  destruct (elems (mediaItems (hooks s)) !! k) as [item|]; [|done].
  destruct (truthy (isVideo (url item))); [|done]. eauto.
Qed.

Lemma run_cleanup_mirror c s : videos_mirror s → videos_mirror (run_cleanup c s).
Proof. by destruct c. Qed.

Lemma fetchContent_videoRefs r bg s :
  videoRefs (fetchContent r bg s) = videoRefs s.
Proof.
  unfold fetchContent. destruct (kiosk_known _); [|done].
  by destruct (negb bg && _).
Qed.

Lemma mirror_same s s' :
  videoRefs s' = videoRefs s →
  mediaItems (hooks s') = mediaItems (hooks s) →
  isMuted (hooks s') = isMuted (hooks s) →
  videos_mirror s → videos_mirror s'.
Proof. intros Hv Hm Hmu H k. specialize (H k). by rewrite Hv, Hm, Hmu. Qed.

Lemma run_mount_effects_mirror s :
  videos_mirror s → videos_mirror (run_mount_effects s).
Proof. unfold run_mount_effects. by destruct (mountEffectsDone s). Qed.

Lemma run_kiosk_effects_mirror r s :
  videos_mirror s → videos_mirror (run_kiosk_effects r s).
Proof.
  apply mirror_same; [|apply run_kiosk_effects_frame..].
  unfold run_kiosk_effects. case_bool_decide; [done|].
  unfold initialFetchEffect, pollEffect.
  destruct (kiosk_known (kioskId r)); simpl;
    by rewrite run_cleanup_videoRefs, ?fetchContent_videoRefs.
Qed.

(** The slider effect writes the session's mute flag to the element it
    starts, and touches no other element. *)
Lemma run_slider_effect_mirror r s s' :
  isMuted r = isMuted (hooks s) →
  videos_mirror s → run_slider_effect r s = Normal s' → videos_mirror s'.
Proof.
  intros Hmu Hmir. unfold run_slider_effect.
  case_bool_decide; [by intros [= <-]|].
  pose proof (run_cleanup_mirror (sliderCleanup s) s Hmir) as H0.
  assert (isMuted r = isMuted (hooks (run_cleanup (sliderCleanup s) s)))
    as Hmu0 by (by rewrite run_cleanup_hooks).
  revert H0 Hmu0. generalize (run_cleanup (sliderCleanup s) s).
  intros s0 H0 Hmu0. unfold sliderEffect.
  case_bool_decide; [by intros [= <-]|].
  destruct (_ >=? _); [by intros [= <-]|].
  destruct (arr_get _ _) as [item|]; [|done].
  destruct (negb _); simpl; [by intros [= <-]|].
  destruct (videoRef s0 (currentIndex r)) as [v|] eqn:Ev;
    [|by intros [= <-]].
  intros [= <-]. intros k. specialize (H0 k). simpl.
  destruct (decide (Z.to_nat (currentIndex r) = k)) as [<-|Hne].
  - rewrite lookup_insert_eq.
    unfold videoRef in Ev. case_bool_decide; [done|]. rewrite Ev in H0.
    destruct (elems (mediaItems (hooks s0)) !! _) as [x|]; [|done].
    destruct (truthy (isVideo (url x))); [|done]. eauto.
  - by rewrite lookup_insert_ne.
Qed.

Lemma run_effects_mirror s s' :
  videos_mirror s → run_effects s = Normal s' → videos_mirror s'.
Proof.
  intros Hmir. unfold run_effects. apply run_slider_effect_mirror.
  - pose proof (run_mount_effects_frame s) as [].
    pose proof (run_kiosk_effects_frame (hooks s) (run_mount_effects s)) as [].
    congruence.
  - by apply run_kiosk_effects_mirror, run_mount_effects_mirror.
Qed.

Lemma commit_mirror n s s' : commit n s = Normal s' → videos_mirror s'.
Proof.
  apply (commit_establishes videos_mirror);
    [apply render_mirror | apply run_effects_mirror].
Qed.

Lemma reachable_mirror s : reachable s → videos_mirror s.
Proof.
  destruct 1 as [id s Hm|s env ev s' _ Hstep].
  - by eapply commit_mirror.
  - unfold step in Hstep.
    destruct (handle env ev s) as [s1|e]; [|done].
    by eapply commit_mirror.
Qed.

End VideoFacts.

(** ** Turns of the event loop, seen from the handler *)

Module TurnFacts.

Import SliderFacts CommitFacts HandlerFacts RunFacts FrameFacts.

(** A turn from a state of the program: the handler's result, and what the
    commit makes of it. *)
Lemma step_view env ev s :
  reachable s →
  ∃ s1 s', handle env ev s = Normal s1 ∧ step env ev s = Normal s' ∧
           reachable s' ∧
           hooks s' = hooks (setCurrentIndex (λ _, settled_index (hooks s1)) s1) ∧
           pending s' = pending s1 ∧ effects_frame s1 s'.
Proof.
  intros Hr.
  destruct (step_Inv env ev s (reachable_Inv s Hr))
    as (s1 & s' & H1 & _ & Hs & _ & Hh & Hp & _).
  exists s1, s'. split_and!; try done.
  - by eapply reach_step.
  - unfold step in Hs. rewrite H1 in Hs. simpl in Hs.
    by eapply commit_frame.
Qed.

(** Any turn, from any state: the commit leaves what the handler wrote to
    the playlist, the notification, the session flags and the outputs that
    are reloads. *)
Lemma step_split env ev s s' :
  step env ev s = Normal s' →
  ∃ s1, handle env ev s = Normal s1 ∧ effects_frame s1 s'.
Proof.
  unfold step. destruct (handle env ev s) as [s1|e]; [|done]. simpl.
  intros Hc. exists s1. split; [done|]. by eapply commit_frame.
Qed.

Lemma promise_all_Normal {A B} (f : A → Completion B) (l : list A) ys :
  promise_all f l = Normal ys ↔ Forall2 (λ x y, f x = Normal y) l ys.
Proof.
  revert ys. induction l as [|x l IH]; intros ys; simpl.
  - split; [intros [= <-]; constructor|by inversion 1].
  - destruct (f x) as [y|e] eqn:E; simpl.
    + destruct (promise_all f l) as [ys'|e] eqn:E'; simpl.
      * split.
        -- intros [= <-]. constructor; [done|]. by apply IH.
        -- inversion 1 as [|? y' ? ys'' Hy Hys]; subst.
           apply IH in Hys. congruence.
      * split; [done|]. inversion 1 as [|? y' ? ys'' Hy Hys]; subst.
        by apply IH in Hys.
    + split; [done|]. inversion 1; congruence.
Qed.

(** What a handler does to the playlist: nothing, unless it resumes a
    listing that succeeded with other URLs than the held ones. *)
Lemma handle_playlist env ev s s1 :
  handle env ev s = Normal s1 →
  mediaItems (hooks s1) = mediaItems (hooks s) ∨
  ∃ n path items,
    ev = Settle n ∧ pending s !! n = Some (AwaitListing path) ∧
    list_items env path = Normal items ∧
    url <$> items ≠ url <$> elems (mediaItems (hooks s)) ∧
    mediaItems (hooks s1) = MkArray (nextObject s) items.
Proof.
  destruct ev as [n|id|k| |msg|b| | | | |file|path confirmed]; simpl;
    try (by intros [= <-]; left).
  - destruct (pending s !! n) as [[path| |r path file|r path]|] eqn:Ep; simpl;
      [| | | |by intros [= <-]; left].
    + destruct (list_items env path) as [items|e] eqn:E.
      * rewrite (ReconcilerFacts.fetchContent_settle_listed _ _ _ _ E).
        intros [= <-]. simpl. case_bool_decide as Hu; [by left|].
        right. exists n, path, items. split_and!; done.
      * unfold fetchContent_settle. rewrite E. simpl.
        intros [= <-]. by left.
    + intros [= <-]. left. unfold checkVersion_settle.
      by destruct (version_differs env) as [[]|].
    + intros [= <-]. left. unfold handleUpload_settle.
      destruct (uploadBytes env path file); [|done].
      by destruct (fetchContent_frame r true
                     (showToast "Success!" (with_pending (delete n) s))).
    + intros [= <-]. left. unfold handleDelete_settle.
      destruct (deleteObject env path); [|done].
      by destruct (fetchContent_frame r true
                     (showToast "Deleted!" (with_pending (delete n) s))).
  - destruct (timers s !! id) as [t|]; [|by intros [= <-]; left].
    intros [= <-]. left.
    destruct (timer_kind t), (callback t) as [r|r|]; simpl; try done.
    + by destruct (fetchContent_frame r true (clearTimer id s)).
    + by destruct (fetchContent_frame r true s).
  - destruct (videoRefs s !! k); intros [= <-]; by left.
  - intros [= <-]. left. unfold toggleSound. by destruct (videoRef _ _).
  - intros [= <-]. left. unfold toggleFullscreenAndUi.
    by destruct (fullscreenElement s).
  - intros [= <-]. left. unfold handleUpload. by destruct file.
  - intros [= <-]. left. unfold handleDelete. by destruct confirmed.
Qed.

Lemma fetchContent_background_loading r s :
  loading (hooks (fetchContent r true s)) = loading (hooks s).
Proof. unfold fetchContent. by destruct (kiosk_known _). Qed.

(** No handler switches the loading flag on. *)
Lemma handle_loading env ev s s1 :
  handle env ev s = Normal s1 →
  loading (hooks s1) = true → loading (hooks s) = true.
Proof.
  destruct ev as [n|id|k| |msg|b| | | | |file|path confirmed]; simpl;
    try (by intros [= <-]).
  - destruct (pending s !! n) as [[path| |r path file|r path]|] eqn:Ep; simpl;
      [| | | |by intros [= <-]].
    + unfold fetchContent_settle.
      destruct (list_items env path) as [items|e]; simpl.
      * rewrite ReconcilerFacts.reconcile_eq. simpl. by intros [= <-].
      * by intros [= <-].
    + intros [= <-]. unfold checkVersion_settle.
      by destruct (version_differs env) as [[]|].
    + intros [= <-]. unfold handleUpload_settle.
      destruct (uploadBytes env path file); [|done].
      by rewrite fetchContent_background_loading.
    + intros [= <-]. unfold handleDelete_settle.
      destruct (deleteObject env path); [|done].
      by rewrite fetchContent_background_loading.
  - destruct (timers s !! id) as [t|]; [|by intros [= <-]].
    intros [= <-].
    destruct (timer_kind t), (callback t) as [r|r|]; simpl; try done;
      unfold checkVersion; simpl; by rewrite fetchContent_background_loading.
  - destruct (videoRefs s !! k); by intros [= <-].
  - intros [= <-]. unfold toggleSound. by destruct (videoRef _ _).
  - intros [= <-]. unfold toggleFullscreenAndUi.
    by destruct (fullscreenElement s).
  - intros [= <-]. unfold handleUpload. by destruct file.
  - intros [= <-]. unfold handleDelete. by destruct confirmed.
Qed.

End TurnFacts.

Module KioskFacts.

Import HandlerFacts RunFacts MountFacts.

Lemma step_kioskId env ev s s' :
  reachable s → step env ev s = Normal s' →
  kioskId (hooks s') = kioskId (hooks s).
Proof.
  intros Hr Hs.
  destruct (step_Inv env ev s (reachable_Inv s Hr))
    as (s1 & t & _ & Hh & Ht & _ & Hhooks & _).
  assert (t = s') as -> by congruence.
  rewrite Hhooks. simpl. apply (h_kioskId _ _ _ Hh).
Qed.

Lemma reachable_kiosk_known s :
  reachable s → kiosk_known (kioskId (hooks s)) = true.
Proof.
  induction 1 as [id s Hm|s env ev s' Hr IH Hstep].
  - rewrite mount_eq in Hm. injection Hm as <-. apply detected_known.
  - by rewrite (step_kioskId env ev s s' Hr Hstep).
Qed.

End KioskFacts.

(** X1: the kiosk id is read once, at the mount, from the query parameter
    [id]: the parameter when it is present and not empty, "common" otherwise.
    From then on it is never null nor empty, and no event changes it. *)
Theorem kiosk_id_fixed_at_mount :
  (∀ id, ∃ s, mount id = Normal s ∧
              kioskId (hooks s)
              = Some (match id with
                      | Some v => if bool_decide (v = "") then "common" else v
                      | None => "common"
                      end)) ∧
  (∀ s, reachable s → kiosk_known (kioskId (hooks s)) = true) ∧
  (∀ s env ev s', reachable s → step env ev s = Normal s' →
                  kioskId (hooks s') = kioskId (hooks s)).
Proof.
  split_and!.
  - intros id. exists (mounted_state id). by rewrite MountFacts.mount_eq.
  - apply KioskFacts.reachable_kiosk_known.
  - intros s env ev s'. apply KioskFacts.step_kioskId.
Qed.

(** X2: a successful pass over the folder yields one item per listed object,
    in the order of the listing, each with the object's path and name and
    the URL the object resolved to; and the pass succeeds exactly when the
    listing and every resolution does. *)
Theorem list_items_in_listing_order (env : Remote) (path : string)
    (items : list MediaItem) :
  list_items env path = Normal items ↔
  ∃ refs, listAll env path = Normal refs ∧
          Forall2 (λ ref item,
                     getDownloadURL env ref = Normal (url item) ∧
                     fullPath item = ref_fullPath ref ∧
                     name item = ref_name ref)
                  refs items.
Proof.
  unfold list_items. destruct (listAll env path) as [refs|e]; simpl.
  - rewrite TurnFacts.promise_all_Normal. split.
    + intros H. exists refs. split; [done|].
      eapply Forall2_impl; [exact H|]. intros ref item. simpl.
      destruct (getDownloadURL env ref); simpl; [|done].
      by intros [= <-].
    + intros (refs' & [= <-] & H).
      eapply Forall2_impl; [exact H|]. intros ref [u p n] (Hu & Hp & Hn).
      simpl in *. rewrite Hu. simpl. by subst.
  - split; [done|]. by intros (? & ? & _).
Qed.

(** The witness of X2: the three objects of kiosk "lobby". *)
Lemma list_items_in_listing_order_witness :
  ∃ refs, listAll Demo.three_items "images/lobby/" = Normal refs ∧
          name <$> elems (mediaItems (hooks Demo.showing_a)) = ref_name <$> refs.
Proof.
  destruct (list_items_in_listing_order Demo.three_items "images/lobby/"
              (elems (mediaItems (hooks Demo.showing_a))))
    as [H _].
  destruct H as (refs & Hl & _); [by vm_compute|].
  exists refs. split; [exact Hl|].
  vm_compute in Hl. injection Hl as <-. reflexivity.
Defined.

(** X3: when a listing succeeds, [fetchContent] ends with a playlist that
    carries the listed URLs in the listed order, whatever was held before,
    with the loading flag off and the index untouched; and the same listing
    once more keeps that playlist object. *)
Theorem held_urls_follow_listing (env : Remote) (path : string)
    (items : list MediaItem) (s : State) :
  list_items env path = Normal items →
  ∃ s1, fetchContent_settle env path s = Normal s1 ∧
        url <$> elems (mediaItems (hooks s1)) = url <$> items ∧
        currentIndex (hooks s1) = currentIndex (hooks s) ∧
        loading (hooks s1) = false ∧
        ∃ s2, fetchContent_settle env path s1 = Normal s2 ∧
              mediaItems (hooks s2) = mediaItems (hooks s1).
Proof.
  intros Hl.
  rewrite (ReconcilerFacts.fetchContent_settle_listed _ _ _ _ Hl).
  eexists. split; [done|].
  assert (url <$> elems
            (if bool_decide
                  (url <$> elems (mediaItems (hooks s)) = url <$> items)
             then mediaItems (hooks s)
             else MkArray (nextObject s) items)
          = url <$> items) as Hu.
  { by case_bool_decide. }
  split_and!; [exact Hu|done..|].
  rewrite (ReconcilerFacts.fetchContent_settle_listed _ _ _ _ Hl).
  eexists. split; [done|]. cbn [hooks setLoading setMediaItems with_hooks
    with_nextObject mediaItems].
  by rewrite (bool_decide_eq_true_2 _ Hu).
Qed.

(** The witness of X3: the folder of kiosk "lobby" lists two objects while
    three are held. *)
Lemma held_urls_follow_listing_witness :
  ∃ s1, fetchContent_settle Demo.two_items "images/lobby/" Demo.showing_c
        = Normal s1 ∧
        length (elems (mediaItems (hooks s1))) = 2%nat.
Proof.
  destruct (held_urls_follow_listing Demo.two_items "images/lobby/"
              (elems (mediaItems (hooks
                 (Demo.state_of
                    (step Demo.two_items (Settle 0) Demo.polling_at_c)))))
              Demo.showing_c)
    as (s1 & Hs & Hu & _); [by vm_compute|].
  exists s1. split; [exact Hs|].
  apply (f_equal length) in Hu. rewrite !length_fmap in Hu.
  rewrite Hu. by vm_compute.
Defined.

(** X4: the held playlist is replaced in no other way than by a listing
    that succeeded with URLs other than the held ones: an upload, a delete,
    a timer, a click or a failure leaves the playlist object as it is, and
    the new playlist is exactly the array that was listed. *)
Theorem playlist_changes_only_by_listing (env : Remote) (ev : Event)
    (s s' : State) :
  step env ev s = Normal s' →
  mediaItems (hooks s') = mediaItems (hooks s) ∨
  ∃ n path items,
    ev = Settle n ∧ pending s !! n = Some (AwaitListing path) ∧
    list_items env path = Normal items ∧
    url <$> items ≠ url <$> elems (mediaItems (hooks s)) ∧
    mediaItems (hooks s') = MkArray (nextObject s) items.
Proof.
  intros Hs. destruct (TurnFacts.step_split env ev s s' Hs) as (s1 & H1 & Hf).
  rewrite (ef_mediaItems _ _ Hf).
  by apply (TurnFacts.handle_playlist env ev s s1).
Qed.

(** The witness of X4: an upload and its success leave the playlist alone;
    the listing that follows brings the new one. *)
Lemma playlist_changes_only_by_listing_witness :
  mediaItems (hooks (Demo.state_of
     (step Demo.three_items (FileChosen (Some {| file_name := "d.png" |}))
        Demo.showing_a)))
  = mediaItems (hooks Demo.showing_a).
Proof.
  destruct (playlist_changes_only_by_listing Demo.three_items
              (FileChosen (Some {| file_name := "d.png" |})) Demo.showing_a
              (Demo.state_of
                 (step Demo.three_items
                    (FileChosen (Some {| file_name := "d.png" |}))
                    Demo.showing_a)))
    as [H|(n & path & items & Hev & _)]; [by vm_compute|exact H|discriminate].
Defined.

(** X5: the loading indicator belongs to the cold start: the mount switches
    it on, no later event switches it on, and every listing that settles, by
    success or by failure, switches it off. *)
Theorem loading_only_on_cold_start :
  (∀ id, ∃ s, mount id = Normal s ∧ loading (hooks s) = true ∧
              elems (mediaItems (hooks s)) = []) ∧
  (∀ s env ev s', reachable s → step env ev s = Normal s' →
     loading (hooks s') = true → loading (hooks s) = true) ∧
  (∀ s env n path s', reachable s →
     pending s !! n = Some (AwaitListing path) →
     step env (Settle n) s = Normal s' →
     loading (hooks s') = false).
Proof.
  split_and!.
  - intros id. exists (mounted_state id). by rewrite MountFacts.mount_eq.
  - intros s env ev s' Hr Hs.
    destruct (TurnFacts.step_view env ev s Hr)
      as (s1 & t & H1 & Ht & _ & Hh & _).
    assert (t = s') as -> by congruence.
    rewrite Hh. simpl. by apply (TurnFacts.handle_loading env ev s s1).
  - intros s env n path s' Hr Hp Hs.
    destruct (TurnFacts.step_view env (Settle n) s Hr)
      as (s1 & t & H1 & Ht & _ & Hh & _).
    assert (t = s') as -> by congruence.
    rewrite Hh. simpl. simpl in H1. rewrite Hp in H1. simpl in H1.
    unfold fetchContent_settle in H1.
    destruct (list_items env path) as [items|e]; simpl in H1.
    + rewrite ReconcilerFacts.reconcile_eq in H1. simpl in H1.
      by injection H1 as <-.
    + by injection H1 as <-.
Qed.

Module QuietFacts.

Import SliderFacts CommitFacts HandlerFacts RunFacts.

(** A turn whose handler leaves the index, the playlist and the mute flag
    alone runs no effect: it is the handler and one render. *)
Lemma step_quiet env ev s s1 :
  reachable s →
  handle env ev s = Normal s1 →
  currentIndex (hooks s1) = currentIndex (hooks s) →
  mediaItems (hooks s1) = mediaItems (hooks s) →
  isMuted (hooks s1) = isMuted (hooks s) →
  step env ev s = Normal (render s1).
Proof.
  intros Hr H1 Hi Hm Hmu.
  destruct (reachable_Inv s Hr) as [Hnn Hrg Hmo Hk Hs Hf _].
  destruct (handle_handled env ev s) as (t & Ht & [Hm1 Hk1 Hs1 Hid1 _ _ _]).
  assert (t = s1) as -> by congruence.
  unfold step. rewrite H1. simpl. apply commit_quiet.
  - congruence.
  - congruence.
  - rewrite Hs1, Hs. congruence.
Qed.

Lemma lookup_snoc_length {A} (l : list A) x : (l ++ [x]) !! length l = Some x.
Proof. by rewrite lookup_app_r, Nat.sub_diag by lia. Qed.

Lemma delete_snoc_length {A} (l : list A) x : delete (length l) (l ++ [x]) = l.
Proof.
  induction l as [|y l IH]; simpl; [done|]. by rewrite IH.
Qed.

Lemma fetchContent_known r s k :
  kioskId r = Some k → kiosk_known (kioskId r) = true →
  fetchContent r true s
  = with_pending (λ l, l ++ [AwaitListing ("images/" +:+ k +:+ "/")]) s.
Proof. intros Hk Hkn. unfold fetchContent. by rewrite Hkn, Hk. Qed.

End QuietFacts.

(** X6: choosing a file shows "Uploading..." and starts an upload to
    [images/<kioskId>/<file name>], with the kiosk's real id; when the upload
    has succeeded the toast says "Success!" and a background listing of the
    kiosk's folder is started at once; when it has failed the toast says
    "Error uploading." and nothing is started; the playlist is not touched
    in either case, and choosing no file does nothing. *)
Theorem upload_then_refresh (env env' : Remote) (s : State) (file : File)
    (k : string) :
  reachable s → kioskId (hooks s) = Some k →
  (∃ s0, step env (FileChosen None) s = Normal s0 ∧
         hooks s0 = hooks s ∧ pending s0 = pending s ∧ timers s0 = timers s) ∧
  ∃ s1 s2,
    step env (FileChosen (Some file)) s = Normal s1 ∧
    notification (hooks s1) = "Uploading..." ∧
    pending s1
    = pending s
      ++ [AwaitUpload (hooks s) ("images/" +:+ k +:+ "/" +:+ file_name file)
            file] ∧
    step env' (Settle (length (pending s))) s1 = Normal s2 ∧
    mediaItems (hooks s2) = mediaItems (hooks s) ∧
    loading (hooks s2) = loading (hooks s) ∧
    match uploadBytes env' ("images/" +:+ k +:+ "/" +:+ file_name file) file with
    | Normal _ =>
        notification (hooks s2) = "Success!" ∧
        pending s2 = pending s ++ [AwaitListing ("images/" +:+ k +:+ "/")]
    | Throw _ =>
        notification (hooks s2) = "Error uploading." ∧ pending s2 = pending s
    end.
Proof.
  intros Hr Hk.
  pose proof (KioskFacts.reachable_kiosk_known s Hr) as Hkn.
  split.
  - eexists. split; [by apply (QuietFacts.step_quiet env _ s s)|done].
  - set (path := "images/" +:+ k +:+ "/" +:+ file_name file).
    set (s1 := handleUpload (hooks s) (Some file) s).
    assert (step env (FileChosen (Some file)) s = Normal (render s1)) as H1.
    { by apply QuietFacts.step_quiet. }
    assert (reachable (render s1)) as Hr1 by (by eapply reach_step).
    assert (pending (render s1)
            = pending s ++ [AwaitUpload (hooks s) path file]) as Hp1.
    { unfold s1, handleUpload, path. by rewrite Hk. }
    set (s2 := handleUpload_settle env' (hooks s) path file
                 (with_pending (delete (length (pending s))) (render s1))).
    assert (handle env' (Settle (length (pending s))) (render s1) = Normal s2)
      as H2.
    { cbn [handle]. rewrite Hp1, QuietFacts.lookup_snoc_length. done. }
    assert (pending (with_pending (delete (length (pending s))) (render s1))
            = pending s) as Hp2.
    { cbn [pending with_pending]. fold (pending (render s1)).
      rewrite Hp1. apply QuietFacts.delete_snoc_length. }
    exists (render s1), (render s2). split_and!; try done.
    + apply QuietFacts.step_quiet; try done; unfold s2, handleUpload_settle;
        destruct (uploadBytes env' path file); try done;
        by rewrite (QuietFacts.fetchContent_known _ _ k).
    + unfold s2, handleUpload_settle.
      destruct (uploadBytes env' path file); [|done].
      by rewrite (QuietFacts.fetchContent_known _ _ k).
    + unfold s2, handleUpload_settle.
      destruct (uploadBytes env' path file); [|done].
      by rewrite (QuietFacts.fetchContent_known _ _ k).
    + unfold s2, handleUpload_settle.
      destruct (uploadBytes env' path file).
      * rewrite (QuietFacts.fetchContent_known _ _ k) by done.
        split; [done|]. cbn [pending render with_videoRefs with_pending].
        cbn [pending with_pending] in Hp2. simpl. simpl in Hp2.
        by rewrite Hp2.
      * split; [done|]. simpl. simpl in Hp2. by rewrite Hp2.
Qed.

(** The witness of X6: "promo.mp4" is uploaded to kiosk "lobby" while a.png
    shows. *)
Lemma upload_then_refresh_witness :
  ∃ s1 s2,
    step Demo.three_items (FileChosen (Some {| file_name := "promo.mp4" |}))
      Demo.showing_a = Normal s1 ∧
    pending s1
    = [AwaitUpload (hooks Demo.showing_a) "images/lobby/promo.mp4"
         {| file_name := "promo.mp4" |}] ∧
    step Demo.three_items (Settle 0) s1 = Normal s2 ∧
    notification (hooks s2) = "Success!" ∧
    pending s2 = [AwaitListing "images/lobby/"].
Proof.
  destruct (upload_then_refresh Demo.three_items Demo.three_items
              Demo.showing_a {| file_name := "promo.mp4" |} "lobby"
              DemoFacts.showing_a_reachable)
    as (_ & s1 & s2 & H1 & _ & Hp1 & H2 & _ & _ & Hn & Hp2); [reflexivity|].
  exists s1, s2. split_and!; [exact H1|exact Hp1|exact H2|exact Hn|exact Hp2].
Defined.

(** X7: a delete that the operator does not confirm changes nothing; a
    confirmed one shows "Deleting..." and asks the store to delete the object
    at the given path; when that has succeeded the toast says "Deleted!" and
    a background listing of the kiosk's folder is started at once; when it
    has failed the toast says "Error deleting." and nothing is started.  The
    playlist is not touched in any case: the item disappears only with the
    next listing. *)
Theorem delete_then_refresh (env env' : Remote) (s : State) (path : string)
    (k : string) :
  reachable s → kioskId (hooks s) = Some k →
  (∃ s0, step env (ClickDelete path false) s = Normal s0 ∧
         hooks s0 = hooks s ∧ pending s0 = pending s ∧ timers s0 = timers s ∧
         outputs s0 = outputs s) ∧
  ∃ s1 s2,
    step env (ClickDelete path true) s = Normal s1 ∧
    notification (hooks s1) = "Deleting..." ∧
    pending s1 = pending s ++ [AwaitDelete (hooks s) path] ∧
    step env' (Settle (length (pending s))) s1 = Normal s2 ∧
    mediaItems (hooks s2) = mediaItems (hooks s) ∧
    currentIndex (hooks s2) = currentIndex (hooks s) ∧
    match deleteObject env' path with
    | Normal _ =>
        notification (hooks s2) = "Deleted!" ∧
        pending s2 = pending s ++ [AwaitListing ("images/" +:+ k +:+ "/")]
    | Throw _ =>
        notification (hooks s2) = "Error deleting." ∧ pending s2 = pending s
    end.
Proof.
  intros Hr Hk.
  pose proof (KioskFacts.reachable_kiosk_known s Hr) as Hkn.
  split.
  - eexists. split; [by apply (QuietFacts.step_quiet env _ s s)|done].
  - set (s1 := handleDelete (hooks s) path true s).
    assert (step env (ClickDelete path true) s = Normal (render s1)) as H1.
    { by apply QuietFacts.step_quiet. }
    assert (reachable (render s1)) as Hr1 by (by eapply reach_step).
    assert (pending (render s1) = pending s ++ [AwaitDelete (hooks s) path])
      as Hp1 by done.
    set (s2 := handleDelete_settle env' (hooks s) path
                 (with_pending (delete (length (pending s))) (render s1))).
    assert (handle env' (Settle (length (pending s))) (render s1) = Normal s2)
      as H2.
    { cbn [handle]. rewrite Hp1, QuietFacts.lookup_snoc_length. done. }
    assert (pending (with_pending (delete (length (pending s))) (render s1))
            = pending s) as Hp2.
    { cbn [pending with_pending]. fold (pending (render s1)).
      rewrite Hp1. apply QuietFacts.delete_snoc_length. }
    exists (render s1), (render s2). split_and!; try done.
    + apply QuietFacts.step_quiet; try done; unfold s2, handleDelete_settle;
        destruct (deleteObject env' path); try done;
        by rewrite (QuietFacts.fetchContent_known _ _ k).
    + unfold s2, handleDelete_settle.
      destruct (deleteObject env' path); [|done].
      by rewrite (QuietFacts.fetchContent_known _ _ k).
    + unfold s2, handleDelete_settle.
      destruct (deleteObject env' path); [|done].
      by rewrite (QuietFacts.fetchContent_known _ _ k).
    + unfold s2, handleDelete_settle.
      destruct (deleteObject env' path).
      * rewrite (QuietFacts.fetchContent_known _ _ k) by done.
        split; [done|]. simpl. simpl in Hp2. by rewrite Hp2.
      * split; [done|]. simpl. simpl in Hp2. by rewrite Hp2.
Qed.

(** The witness of X7: c.jpg of kiosk "lobby" is deleted while it shows; the
    playlist still holds three items until the next listing settles. *)
Lemma delete_then_refresh_witness :
  ∃ s1 s2,
    step Demo.two_items (ClickDelete "images/lobby/c.jpg" true) Demo.showing_c
    = Normal s1 ∧
    step Demo.two_items (Settle 0) s1 = Normal s2 ∧
    notification (hooks s2) = "Deleted!" ∧
    arr_length (mediaItems (hooks s2)) = 3 ∧
    pending s2 = [AwaitListing "images/lobby/"].
Proof.
  destruct (delete_then_refresh Demo.two_items Demo.two_items
              Demo.showing_c "images/lobby/c.jpg" "lobby"
              DemoFacts.showing_c_reachable)
    as (_ & s1 & s2 & H1 & _ & _ & H2 & Hm & _ & Hn & Hp); [reflexivity|].
  exists s1, s2. split_and!; [exact H1|exact H2|exact Hn| |exact Hp].
  by rewrite Hm.
Defined.

(** X8: a toast arms a timer of 3000 ms that nothing ever clears, and the
    timer of any toast blanks the notification whatever it shows by then: a
    toast that appears while an older toast's timer is still armed is blanked
    by that older timer, with its own timer still to come. *)
Theorem toast_timers_are_not_cancelled (env : Remote) (s : State) (id : nat)
    (t : Timer) (file : File) :
  reachable s → timers s !! id = Some t → callback t = CbClearNotification →
  (∃ s0, step env (TimerFires id) s = Normal s0 ∧
         notification (hooks s0) = "" ∧ timers s0 = delete id (timers s)) ∧
  ∃ s1 s2,
    step env (FileChosen (Some file)) s = Normal s1 ∧
    notification (hooks s1) = "Uploading..." ∧
    timers s1
    = <[nextTimer s := {| timer_kind := Timeout; delay := 3000;
                          callback := CbClearNotification |}]> (timers s) ∧
    step env (TimerFires id) s1 = Normal s2 ∧
    notification (hooks s2) = "" ∧
    timers s2 !! id = None ∧
    timers s2 !! nextTimer s
    = Some {| timer_kind := Timeout; delay := 3000;
              callback := CbClearNotification |}.
Proof.
  intros Hr Ht Hcb.
  destruct (TimerFacts.reachable_owned s Hr) as [Hfresh Hshape _ _].
  pose proof (Hfresh id t Ht) as Hlt.
  assert (timer_kind t = Timeout) as Hkind.
  { specialize (Hshape id t Ht). rewrite Hcb in Hshape. simpl in Hshape.
    congruence. }
  split.
  - eexists. split.
    + apply (QuietFacts.step_quiet env _ s
               (setNotification "" (clearTimer id s))); try done.
      simpl. by rewrite Ht, Hkind, Hcb.
    + done.
  - set (s1 := handleUpload (hooks s) (Some file) s).
    assert (step env (FileChosen (Some file)) s = Normal (render s1)) as H1.
    { by apply QuietFacts.step_quiet. }
    assert (reachable (render s1)) as Hr1 by (by eapply reach_step).
    assert (timers (render s1) !! id = Some t) as Ht1.
    { simpl. by rewrite lookup_insert_ne by lia. }
    exists (render s1),
           (render (setNotification "" (clearTimer id (render s1)))).
    split_and!; try done.
    + apply QuietFacts.step_quiet; try done.
      cbn [handle]. by rewrite Ht1, Hkind, Hcb.
    + simpl. apply lookup_delete_eq.
    + simpl. rewrite lookup_delete_ne by lia. apply lookup_insert_eq.
Qed.

(** The witness of X8: the toast of an upload in kiosk "lobby", and a second
    upload before its timer has fired. *)
Lemma toast_timers_are_not_cancelled_witness :
  ∃ s1 s2,
    step Demo.three_items (FileChosen (Some {| file_name := "e.png" |}))
      Demo.uploading = Normal s1 ∧
    notification (hooks s1) = "Uploading..." ∧
    step Demo.three_items (TimerFires 2) s1 = Normal s2 ∧
    notification (hooks s2) = "" ∧
    is_Some (timers s2 !! 3%nat).
Proof.
  destruct (toast_timers_are_not_cancelled Demo.three_items Demo.uploading
              2%nat
              {| timer_kind := Timeout; delay := 3000;
                 callback := CbClearNotification |}
              {| file_name := "e.png" |})
    as (_ & s1 & s2 & H1 & Hn1 & _ & H2 & Hn2 & _ & Ht);
    [exact DemoFacts.uploading_reachable|by vm_compute|done|].
  exists s1, s2. split_and!; [exact H1|exact Hn1|exact H2|exact Hn2|].
  change (nextTimer Demo.uploading) with 3%nat in Ht. by rewrite Ht.
Defined.

(** X9: timers never stack.  In every state of the program each armed timer
    has the delay of its kind (5000 ms dwell, 120000 ms poll, 3000 ms toast);
    a dwell timer in the table is the one the slider effect holds for
    clean-up and a poll timer the one the auto-refresh effect holds, so at
    most one of each is armed. *)
Theorem timers_never_stack (s : State) :
  reachable s →
  (∀ id t, timers s !! id = Some t →
     (id < nextTimer s)%nat ∧
     (timer_kind t, delay t) = timer_shape (callback t)) ∧
  (∀ id t r, timers s !! id = Some t → callback t = CbNextSlide r →
     sliderCleanup s = Some id) ∧
  (∀ id t r, timers s !! id = Some t → callback t = CbPoll r →
     pollCleanup s = Some id) ∧
  (∀ id1 id2 t1 t2 r1 r2,
     timers s !! id1 = Some t1 → timers s !! id2 = Some t2 →
     (callback t1 = CbNextSlide r1 ∧ callback t2 = CbNextSlide r2) ∨
     (callback t1 = CbPoll r1 ∧ callback t2 = CbPoll r2) →
     id1 = id2).
Proof.
  intros Hr. destruct (TimerFacts.reachable_owned s Hr) as [Hf Hsh Hs Hp _ _].
  split_and!.
  - intros id t Ht. split; [by eapply Hf|by apply (Hsh id)].
  - exact Hs.
  - exact Hp.
  - intros id1 id2 t1 t2 r1 r2 H1 H2 [[Hc1 Hc2]|[Hc1 Hc2]].
    + pose proof (Hs _ _ _ H1 Hc1). pose proof (Hs _ _ _ H2 Hc2). congruence.
    + pose proof (Hp _ _ _ H1 Hc1). pose proof (Hp _ _ _ H2 Hc2). congruence.
Qed.

(** The witness of X9: kiosk "lobby" with a toast up while a.png shows has
    three timers: the poll, the dwell and the toast. *)
Lemma timers_never_stack_witness :
  pollCleanup Demo.uploading = Some 0%nat ∧
  sliderCleanup Demo.uploading = Some 1%nat ∧
  (timer_kind <$> timers Demo.uploading !! 2%nat) = Some Timeout.
Proof.
  destruct (timers_never_stack Demo.uploading DemoFacts.uploading_reachable)
    as (Hshape & Hs & Hp & _).
  split_and!.
  - eapply (Hp 0%nat); [by vm_compute|reflexivity].
  - eapply (Hs 1%nat); [by vm_compute|reflexivity].
  - destruct (timers Demo.uploading !! 2%nat) as [t|] eqn:Et;
      [|by vm_compute in Et].
    destruct (Hshape 2%nat t Et) as [_ Hsh].
    vm_compute in Et. injection Et as <-. reflexivity.
Defined.

(** X10: unmounting clears the dwell timer and the poll timer and nothing
    else: the timers still armed afterwards are exactly the toast timers that
    were armed before, which no clean-up of the component ever clears. *)
Theorem unmount_leaves_toast_timers (s : State) (id : nat) (t : Timer) :
  reachable s →
  timers (unmount s) !! id = Some t ↔
  timers s !! id = Some t ∧ callback t = CbClearNotification.
Proof.
  intros Hr.
  destruct (TimerFacts.reachable_owned s Hr) as [_ _ Hs Hp Hsi Hpi].
  unfold unmount. simpl.
  rewrite TimerFacts.run_cleanup_timers. simpl.
  rewrite TimerFacts.run_cleanup_timers.
  rewrite !TimerFacts.cleared_lookup. split.
  - intros [[Ht Hnp] Hns]. split; [done|].
    destruct (callback t) as [r|r|] eqn:Ecb; [| |done].
    + by specialize (Hs _ _ _ Ht Ecb).
    + by specialize (Hp _ _ _ Ht Ecb).
  - intros [Ht Hcb]. split_and!; [done| |].
    + intros Hid. destruct (Hpi id Hid) as [_ Hc].
      destruct (Hc t Ht) as [r Hr']. congruence.
    + intros Hid. destruct (Hsi id Hid) as [_ Hc].
      destruct (Hc t Ht) as [r Hr']. congruence.
Qed.

(** The witness of X10: unmounting kiosk "lobby" with a toast up leaves the
    toast timer, and only it. *)
Lemma unmount_leaves_toast_timers_witness :
  timers (unmount Demo.uploading) !! 2%nat =
    Some {| timer_kind := Timeout; delay := 3000;
            callback := CbClearNotification |} ∧
  timers (unmount Demo.uploading) !! 0%nat = None ∧
  timers (unmount Demo.uploading) !! 1%nat = None.
Proof.
  split_and!.
  - apply (unmount_leaves_toast_timers Demo.uploading);
      [exact DemoFacts.uploading_reachable|by vm_compute].
  - destruct (timers (unmount Demo.uploading) !! 0%nat) as [t|] eqn:E; [|done].
    apply (unmount_leaves_toast_timers Demo.uploading) in E as [E Hcb];
      [|exact DemoFacts.uploading_reachable].
    vm_compute in E. injection E as <-. discriminate Hcb.
  - destruct (timers (unmount Demo.uploading) !! 1%nat) as [t|] eqn:E; [|done].
    apply (unmount_leaves_toast_timers Demo.uploading) in E as [E Hcb];
      [|exact DemoFacts.uploading_reachable].
    vm_compute in E. injection E as <-. discriminate Hcb.
Defined.

(** ** What a turn does to the world outside *)

Module OutputFacts.

Import CommitFacts HandlerFacts RunFacts FrameFacts TurnFacts.

Lemma said_emit o x s :
  said o (emit x s) = (said o s + if bool_decide (x = o) then 1 else 0)%nat.
Proof.
  unfold said. simpl. rewrite filter_app, length_app. f_equal.
  case_bool_decide.
  - by rewrite filter_cons_True.
  - by rewrite filter_cons_False.
Qed.

Lemma fetchContent_outputs r bg s : outputs (fetchContent r bg s) = outputs s.
Proof.
  unfold fetchContent. destruct (negb _); [done|]. by destruct (_ && _).
Qed.

Lemma said_fetchContent o r bg s : said o (fetchContent r bg s) = said o s.
Proof. unfold said. by rewrite fetchContent_outputs. Qed.

Lemma fetchContent_fullscreen r bg s :
  fullscreenElement (fetchContent r bg s) = fullscreenElement s ∧
  isFullscreen (hooks (fetchContent r bg s)) = isFullscreen (hooks s) ∧
  isUiVisible (hooks (fetchContent r bg s)) = isUiVisible (hooks s).
Proof.
  unfold fetchContent. destruct (negb _); [done|]. by destruct (_ && _).
Qed.

(** The listing's continuation reports a failure on the console and says
    nothing else. *)
Lemma fetchContent_settle_said env path s s1 o :
  fetchContent_settle env path s = Normal s1 →
  (∀ m e, o ≠ ConsoleError m e) →
  said o s1 = said o s.
Proof.
  unfold fetchContent_settle. intros H Ho.
  destruct (list_items env path) as [items|e]; simpl in H.
  - destruct (reconcile _ _) as [next|e]; simpl in H; [|done].
    by injection H as <-.
  - injection H as <-.
    change (said o (setLoading false ?t)) with (said o t).
    rewrite said_emit. rewrite bool_decide_eq_false_2; [lia|]. apply not_eq_sym, Ho.
Qed.

Lemma fetchContent_settle_fullscreen env path s s1 :
  fetchContent_settle env path s = Normal s1 →
  fullscreenElement s1 = fullscreenElement s ∧
  isFullscreen (hooks s1) = isFullscreen (hooks s) ∧
  isUiVisible (hooks s1) = isUiVisible (hooks s).
Proof.
  unfold fetchContent_settle. intros H.
  destruct (list_items env path) as [items|e]; simpl in H.
  - destruct (reconcile _ _) as [next|e]; simpl in H; [|done].
    by injection H as <-.
  - by injection H as <-.
Qed.

(** What the document and the cells of the overlay are after a handler. *)
Lemma handle_screen env ev s s1 :
  handle env ev s = Normal s1 →
  fullscreenElement s1
  = match ev with
    | FullscreenChange e => e
    | _ => fullscreenElement s
    end ∧
  isFullscreen (hooks s1)
  = match ev with
    | FullscreenChange e => e
    | _ => isFullscreen (hooks s)
    end ∧
  isUiVisible (hooks s1)
  = match ev with
    | ClickFullscreenHide | ClickClose => false
    | ClickReopen => true
    | _ => isUiVisible (hooks s)
    end.
Proof.
  destruct ev as [n|id|k| | | | | | | |file|path confirmed]; simpl.
  - destruct (pending s !! n) as [[path| |r path file|r path]|];
      simpl; [| | | |by intros [= <-]].
    + intros H. by apply fetchContent_settle_fullscreen in H.
    + intros [= <-]. unfold checkVersion_settle.
      by destruct (version_differs env) as [[]|].
    + intros [= <-]. unfold handleUpload_settle.
      destruct (uploadBytes env path file); [|done].
      by destruct (fetchContent_fullscreen r true
                     (showToast "Success!" (with_pending (delete n) s)))
        as (-> & -> & ->).
    + intros [= <-]. unfold handleDelete_settle.
      destruct (deleteObject env path); [|done].
      by destruct (fetchContent_fullscreen r true
                     (showToast "Deleted!" (with_pending (delete n) s)))
        as (-> & -> & ->).
  - destruct (timers s !! id) as [t|]; [|by intros [= <-]].
    intros [= <-].
    destruct (callback t) as [r|r|]; simpl.
    + by destruct (timer_kind t).
    + set (s0 := match timer_kind t with Timeout => _ | Interval => _ end).
      destruct (fetchContent_fullscreen r true s0) as (-> & -> & ->).
      unfold s0. by destruct (timer_kind t).
    + by destruct (timer_kind t).
  - destruct (videoRefs s !! k); by intros [= <-].
  - by intros [= <-].
  - by intros [= <-].
  - by intros [= <-].
  - intros [= <-]. unfold toggleSound. by destruct (videoRef _ _).
  - intros [= <-]. unfold toggleFullscreenAndUi.
    destruct (fullscreenElement s) eqn:E; simpl; rewrite ?E;
      split_and!; reflexivity.
  - by intros [= <-].
  - by intros [= <-].
  - intros [= <-]. by destruct file.
  - intros [= <-]. unfold handleDelete. by destruct confirmed.
Qed.

(** What a handler says to the world outside, apart from the console. *)
Lemma handle_said env ev s s1 :
  handle env ev s = Normal s1 →
  said RequestFullscreen s1
  = (said RequestFullscreen s
     + match ev with
       | ClickFullscreenHide => if fullscreenElement s then 0 else 1
       | _ => 0
       end)%nat ∧
  said LocationReload s1
  = (said LocationReload s
     + match ev with
       | Settle n =>
           match pending s !! n, version_differs env with
           | Some AwaitVersion, Normal true => 1
           | _, _ => 0
           end
       | _ => 0
       end)%nat ∧
  ∀ k, said (VideoPlay k) s1 = said (VideoPlay k) s.
Proof.
  destruct ev as [n|id|k| | | | | | | |file|path confirmed]; simpl.
  - destruct (pending s !! n) as [[path| |r path file|r path]|];
      simpl; [| | | |intros [= <-]; split_and!; try intros ?; lia].
    + intros H.
      rewrite !(fetchContent_settle_said _ _ _ _ _ H) by done.
      split_and!; [..|intros k0;
        by rewrite (fetchContent_settle_said _ _ _ _ _ H)];
        change (said ?o (with_pending ?f s)) with (said o s); lia.
    + intros [= <-]. unfold checkVersion_settle.
      destruct (version_differs env) as [[]|];
        rewrite ?said_emit; simpl;
        change (said ?o (with_pending ?f s)) with (said o s);
        split_and!; try intros ?; rewrite ?said_emit; simpl;
        change (said ?o (with_pending ?f s)) with (said o s); lia.
    + intros [= <-]. unfold handleUpload_settle.
      destruct (uploadBytes env path file);
        rewrite ?said_fetchContent;
        split_and!; try intros ?; rewrite ?said_fetchContent;
        change (said ?o (showToast ?m (with_pending ?f s))) with (said o s);
        lia.
    + intros [= <-]. unfold handleDelete_settle.
      destruct (deleteObject env path);
        rewrite ?said_fetchContent;
        split_and!; try intros ?; rewrite ?said_fetchContent;
        change (said ?o (showToast ?m (with_pending ?f s))) with (said o s);
        lia.
  - destruct (timers s !! id) as [t|];
      [|intros [= <-]; split_and!; try intros ?; lia].
    intros [= <-].
    destruct (callback t) as [r|r|], (timer_kind t); simpl;
      split_and!; try intros ?;
      change (said ?o (checkVersion ?t)) with (said o t);
      rewrite ?said_fetchContent;
      change (said ?o (clearTimer ?i s)) with (said o s);
      change (said ?o (nextSlide ?r ?t)) with (said o t);
      change (said ?o (setNotification ?m ?t)) with (said o t);
      change (said ?o (clearTimer ?i s)) with (said o s); lia.
  - destruct (videoRefs s !! k); intros [= <-];
      split_and!; try intros ?;
      change (said ?o (nextSlide ?r s)) with (said o s); lia.
  - intros [= <-]. rewrite !said_emit. simpl.
    split_and!; try intros ?; rewrite ?said_emit; simpl; lia.
  - intros [= <-]. rewrite !said_emit. simpl.
    split_and!; try intros ?; rewrite ?said_emit; simpl; lia.
  - intros [= <-]. split_and!; try intros ?;
      change (said ?o (handleFsChange ?t)) with (said o s); lia.
  - intros [= <-]. unfold toggleSound.
    destruct (videoRef _ _); split_and!; try intros ?;
      change (said ?o (with_videoRefs ?f ?t)) with (said o s);
      change (said ?o (setIsMuted ?b s)) with (said o s); lia.
  - intros [= <-]. unfold toggleFullscreenAndUi.
    destruct (fullscreenElement s);
      change (said ?o (setIsUiVisible ?b ?t)) with (said o t);
      rewrite ?said_emit; simpl;
      split_and!; try intros ?;
      change (said ?o (setIsUiVisible ?b ?t)) with (said o t);
      rewrite ?said_emit; simpl; lia.
  - intros [= <-]. split_and!; try intros ?;
      change (said ?o (setIsUiVisible ?b ?t)) with (said o t); lia.
  - intros [= <-]. split_and!; try intros ?;
      change (said ?o (showUi ?t)) with (said o t); lia.
  - intros [= <-]. destruct file; simpl; split_and!; try intros ?;
      change (said ?o (with_pending ?f (showToast ?m s))) with (said o s);
      lia.
  - intros [= <-]. unfold handleDelete. destruct confirmed; simpl;
      split_and!; try intros ?;
      change (said ?o (with_pending ?f (showToast ?m s))) with (said o s);
      lia.
Qed.

Lemma fetchContent_version r bg s :
  AwaitVersion ∈ pending (fetchContent r bg s) → AwaitVersion ∈ pending s.
Proof.
  unfold fetchContent. destruct (negb _); [done|].
  destruct (_ && _); simpl; rewrite elem_of_app, list_elem_of_singleton;
    by intros [?|?].
Qed.

Lemma fetchContent_settle_pending env path s s1 :
  fetchContent_settle env path s = Normal s1 → pending s1 = pending s.
Proof.
  unfold fetchContent_settle. intros H.
  destruct (list_items env path) as [items|e]; simpl in H.
  - destruct (reconcile _ _) as [next|e]; simpl in H; [|done].
    by injection H as <-.
  - by injection H as <-.
Qed.

(** A version check is pending after a handler only if one was pending
    before, or the handler is the poll's tick. *)
Lemma handle_version_pending env ev s s1 :
  handle env ev s = Normal s1 →
  AwaitVersion ∈ pending s1 →
  AwaitVersion ∈ pending s ∨
  ∃ id t r, ev = TimerFires id ∧ timers s !! id = Some t ∧
            callback t = CbPoll r.
Proof.
  assert (∀ n, AwaitVersion ∈ delete n (pending s) → AwaitVersion ∈ pending s)
    as Hdel.
  { intros n Hin. eapply elem_of_sublist; [exact Hin|apply sublist_delete]. }
  destruct ev as [n|id|k| | | | | | | |file|path confirmed]; simpl.
  - destruct (pending s !! n) as [[path| |r path file|r path]|];
      simpl; [| | | |intros [= <-]; by left].
    + intros H Hin. apply fetchContent_settle_pending in H.
      rewrite H in Hin. left. by apply (Hdel n).
    + intros [= <-]. unfold checkVersion_settle.
      destruct (version_differs env) as [[]|]; simpl;
        intros Hin; left; by apply (Hdel n).
    + intros [= <-]. unfold handleUpload_settle.
      destruct (uploadBytes env path file); intros Hin; left;
        [apply fetchContent_version in Hin|]; by apply (Hdel n).
    + intros [= <-]. unfold handleDelete_settle.
      destruct (deleteObject env path); intros Hin; left;
        [apply fetchContent_version in Hin|]; by apply (Hdel n).
  - destruct (timers s !! id) as [t|] eqn:Et; [|intros [= <-]; by left].
    intros [= <-].
    destruct (callback t) as [r|r|] eqn:Ecb; simpl.
    + destruct (timer_kind t); by left.
    + intros _. right. by exists id, t, r.
    + destruct (timer_kind t); by left.
  - destruct (videoRefs s !! k); intros [= <-]; by left.
  - intros [= <-]. by left.
  - intros [= <-]. by left.
  - intros [= <-]. by left.
  - intros [= <-]. unfold toggleSound. destruct (videoRef _ _); by left.
  - intros [= <-]. unfold toggleFullscreenAndUi.
    destruct (fullscreenElement s); by left.
  - intros [= <-]. by left.
  - intros [= <-]. by left.
  - intros [= <-]. destruct file; simpl; [|by left].
    rewrite elem_of_app, list_elem_of_singleton. intros [?|?]; [by left|done].
  - intros [= <-]. unfold handleDelete. destruct confirmed; simpl; [|by left].
    rewrite elem_of_app, list_elem_of_singleton. intros [?|?]; [by left|done].
Qed.

(** The document's fullscreen element and the cell that follows it agree in
    every state of the program. *)
Lemma reachable_fullscreen s :
  reachable s → isFullscreen (hooks s) = fullscreenElement s.
Proof.
  induction 1 as [id s Hm|s env ev s' Hr IH Hs].
  - unfold mount in Hm. apply commit_frame in Hm.
    by rewrite (ef_isFullscreen _ _ Hm), (ef_fullscreenElement _ _ Hm).
  - destruct (step_split _ _ _ _ Hs) as (s1 & H1 & Hf).
    destruct (handle_screen _ _ _ _ H1) as (Hd & Hc & _).
    rewrite (ef_isFullscreen _ _ Hf), (ef_fullscreenElement _ _ Hf), Hd, Hc.
    by destruct ev.
Qed.

End OutputFacts.

(** X11: the fullscreen flag follows the document.  In every state of the
    program the cell [isFullscreen] is the document's fullscreen state; only
    the browser's [fullscreenchange] changes either; and the program asks for
    fullscreen exactly once per click on "Fullscreen & Hide" outside
    fullscreen and at no other time: inside fullscreen the click only hides
    the overlay, and nothing in the component leaves fullscreen. *)
Theorem fullscreen_flag_follows_document (env : Remote) (ev : Event)
    (s s' : State) :
  reachable s →
  step env ev s = Normal s' →
  isFullscreen (hooks s) = fullscreenElement s ∧
  isFullscreen (hooks s') = fullscreenElement s' ∧
  fullscreenElement s'
  = match ev with
    | FullscreenChange element => element
    | _ => fullscreenElement s
    end ∧
  said RequestFullscreen s'
  = (said RequestFullscreen s
     + match ev with
       | ClickFullscreenHide => if fullscreenElement s then 0 else 1
       | _ => 0
       end)%nat.
Proof.
  intros Hr Hs.
  destruct (TurnFacts.step_split _ _ _ _ Hs) as (s1 & H1 & Hf).
  destruct (OutputFacts.handle_screen _ _ _ _ H1) as (Hd & _ & _).
  destruct (OutputFacts.handle_said _ _ _ _ H1) as (Hq & _ & _).
  split_and!.
  - by apply OutputFacts.reachable_fullscreen.
  - apply OutputFacts.reachable_fullscreen. by eapply reach_step.
  - by rewrite (ef_fullscreenElement _ _ Hf).
  - by rewrite (ef_said _ _ Hf).
Qed.

(** The witness of X11: the click on "Fullscreen & Hide" while a.png shows
    outside fullscreen asks the browser for fullscreen once and leaves the
    flag as it is until the browser answers. *)
Lemma fullscreen_flag_follows_document_witness :
  ∃ s', step Demo.three_items ClickFullscreenHide Demo.showing_a = Normal s' ∧
        isFullscreen (hooks s') = false ∧
        said RequestFullscreen s' = 1%nat.
Proof.
  destruct (RunFacts.step_total Demo.three_items ClickFullscreenHide
              Demo.showing_a DemoFacts.showing_a_reachable) as [s' [Hs _]].
  exists s'. split; [exact Hs|].
  destruct (fullscreen_flag_follows_document Demo.three_items
              ClickFullscreenHide Demo.showing_a s'
              DemoFacts.showing_a_reachable Hs) as (_ & H1 & H2 & H3).
  split; [by rewrite H1, H2|exact H3].
Defined.

(** X12: the page reloads only when a version check settles.  A turn adds a
    reload exactly when it resumes a pending version check whose descriptor
    was fetched, decoded and parsed and differs from the build's; a version
    check is pending only if one was before or the turn is the poll's tick;
    and the mount reloads nothing and starts no version check, so no reload
    happens before the poll's first tick. *)
Theorem reload_only_after_version_check :
  (∀ id s, mount id = Normal s →
     Spec.reloads s = 0%nat ∧ AwaitVersion ∉ pending s) ∧
  (∀ env ev s s', reachable s → step env ev s = Normal s' →
     Spec.reloads s'
     = (Spec.reloads s
        + match ev with
          | Settle n =>
              match pending s !! n, version_differs env with
              | Some AwaitVersion, Normal true => 1
              | _, _ => 0
              end
          | _ => 0
          end)%nat ∧
     (AwaitVersion ∈ pending s' →
      AwaitVersion ∈ pending s ∨
      ∃ id t r, ev = TimerFires id ∧ timers s !! id = Some t ∧
                callback t = CbPoll r)).
Proof.
  split.
  - intros id s Hm. rewrite MountFacts.mount_eq in Hm. injection Hm as <-.
    split; [done|]. simpl. by rewrite list_elem_of_singleton.
  - intros env ev s s' Hr Hs.
    destruct (TurnFacts.step_view env ev s Hr)
      as (s1 & s2 & H1 & Hs2 & _ & _ & Hp & Hf).
    assert (s2 = s') as -> by congruence.
    destruct (OutputFacts.handle_said _ _ _ _ H1) as (_ & Hq & _).
    split.
    + rewrite (ef_reloads _ _ Hf). exact Hq.
    + rewrite Hp. by apply (OutputFacts.handle_version_pending env).
Qed.

(** The witness of X12: the poll's version check of kiosk "lobby" settles
    against a descriptor of another build. *)
Lemma reload_only_after_version_check_witness :
  ∃ s', step Demo.new_build (Settle 1) Demo.polling_at_c = Normal s' ∧
        Spec.reloads s' = 1%nat.
Proof.
  destruct reload_only_after_version_check as [_ H].
  destruct (RunFacts.step_total Demo.new_build (Settle 1) Demo.polling_at_c
              DemoFacts.polling_at_c_reachable) as [s' [Hs _]].
  exists s'. split; [exact Hs|].
  destruct (H _ _ _ _ DemoFacts.polling_at_c_reachable Hs) as [-> _].
  by vm_compute.
Defined.

(** ** The sound button *)

Module SoundFacts.

Import SliderFacts CommitFacts HandlerFacts RunFacts.

Lemma sliderEffect_image r s item :
  arr_get (mediaItems r) (currentIndex r) = Some item →
  truthy (isVideo (url item)) = false →
  sliderEffect r s
  = Normal ((setTimer Timeout (CbNextSlide r) 5000 s).2, Some (nextTimer s)).
Proof.
  intros Hget Hv. unfold sliderEffect.
  destruct (arr_get_Some _ _ _ Hget) as [Hi _].
  rewrite bool_decide_eq_false_2 by lia.
  destruct (Z.geb_spec (currentIndex r) (arr_length (mediaItems r)));
    [lia|].
  by rewrite Hget, Hv.
Qed.

(** The turn of the event loop that toggles the sound while an image shows. *)
Lemma step_toggle_on_image env s item :
  Inv s →
  arr_get (mediaItems (hooks s)) (currentIndex (hooks s)) = Some item →
  truthy (isVideo (url item)) = false →
  ∃ s', step env ClickToggleSound s = Normal s' ∧
        hooks s' = hooks (setIsMuted (negb (isMuted (hooks s))) s) ∧
        sliderCleanup s' = Some (nextTimer s) ∧
        timers s'
        = <[nextTimer s := {| timer_kind := Timeout; delay := 5000;
                              callback := CbNextSlide (hooks s') |}]>
            (cleared (sliderCleanup s) (timers s)) ∧
        outputs s' = outputs s.
Proof.
  intros [Hnn Hr Hm Hk Hs Hf Hv] Hget Hvid.
  unfold step. simpl. set (s1 := toggleSound (hooks s) s).
  assert (hooks s1 = hooks (setIsMuted (negb (isMuted (hooks s))) s)) as Hh1.
  { unfold s1, toggleSound. by destruct (videoRef _ _). }
  assert (mountEffectsDone s1 = true ∧
          kioskDeps s1 = Some (kioskId (hooks s1)) ∧
          sliderDeps s1 = sliderDeps s ∧
          sliderCleanup s1 = sliderCleanup s ∧
          timers s1 = timers s ∧ nextTimer s1 = nextTimer s ∧
          outputs s1 = outputs s) as (Hm1 & Hk1 & Hs1 & Hc1 & Ht1 & Hn1 & Ho1).
  { rewrite Hh1. unfold s1, toggleSound. by destruct (videoRef _ _). }
  unfold NESTED_UPDATE_LIMIT. rewrite commit_S, run_effects_mounted by done.
  change (hooks (render s1)) with (hooks s1).
  change (sliderDeps (render s1)) with (sliderDeps s1).
  change (sliderCleanup (render s1)) with (sliderCleanup s1).
  rewrite Hs1, Hs, Hh1. simpl.
  rewrite bool_decide_eq_false_2
    by (intros ?; simplify_eq; by destruct (isMuted (hooks s))).
  erewrite sliderEffect_image; [|done..]. simpl.
  rewrite run_cleanup_hooks.
  change (hooks (render s1)) with (hooks s1).
  rewrite Hh1. simpl. rewrite hooks_same_refl.
  eexists. split; [done|]. simpl. split_and!.
  - by rewrite run_cleanup_hooks.
  - rewrite run_cleanup_nextTimer. simpl. by rewrite Hn1.
  - rewrite run_cleanup_nextTimer, run_cleanup_hooks. simpl.
    rewrite Hn1, Hh1. simpl. f_equal.
    rewrite Hc1. destruct (sliderCleanup s); simpl; by rewrite Ht1.
  - by rewrite run_cleanup_outputs, <-Ho1.
Qed.

End SoundFacts.

(** X13: toggling the sound starts the showing slide over.  The click flips
    the mute flag and leaves the index; as the flag is a dependency of the
    slider effect, the effect runs again: a showing video is rewound to its
    start, given the new flag and played, and a showing image has its dwell
    timer cleared and a new one of 5000 ms armed, so its five seconds begin
    again. *)
Theorem toggle_sound_restarts_slide (env : Remote) (s : State)
    (item : MediaItem) :
  reachable s →
  arr_get (mediaItems (hooks s)) (currentIndex (hooks s)) = Some item →
  ∃ s', step env ClickToggleSound s = Normal s' ∧
        isMuted (hooks s') = negb (isMuted (hooks s)) ∧
        currentIndex (hooks s') = currentIndex (hooks s) ∧
        match classify (url item) with
        | Video =>
            videoRef s' (currentIndex (hooks s))
            = Some {| muted := negb (isMuted (hooks s)); currentTime := 0 |} ∧
            outputs s'
            = outputs s ++ [VideoPlay (Z.to_nat (currentIndex (hooks s)))]
        | Image =>
            sliderCleanup s' = Some (nextTimer s) ∧
            timers s'
            = <[nextTimer s := {| timer_kind := Timeout; delay := 5000;
                                  callback := CbNextSlide (hooks s') |}]>
                (cleared (sliderCleanup s) (timers s)) ∧
            outputs s' = outputs s
        end.
Proof.
  intros Hr Hget. pose proof (RunFacts.reachable_Inv s Hr) as HI.
  unfold classify. destruct (truthy (isVideo (url item))) eqn:Hv.
  - destruct (RunFacts.step_toggle_on_video env s item HI Hget Hv)
      as (s' & Hs & Hh & Href & Ho).
    exists s'. rewrite Hh. by split_and!.
  - destruct (SoundFacts.step_toggle_on_image env s item HI Hget Hv)
      as (s' & Hs & Hh & Hc & Ht & Ho).
    exists s'. split_and!; [done|by rewrite Hh|by rewrite Hh|done..].
Qed.

(** The witness of X13: the sound button while a.png shows in kiosk "lobby":
    the dwell timer 1 is cleared and timer 2 armed in its place. *)
Lemma toggle_sound_restarts_slide_witness :
  ∃ s', step Demo.three_items ClickToggleSound Demo.showing_a = Normal s' ∧
        isMuted (hooks s') = false ∧
        sliderCleanup s' = Some 2%nat ∧
        timers s' !! 1%nat = None ∧
        (delay <$> timers s' !! 2%nat) = Some 5000.
Proof.
  destruct (arr_get (mediaItems (hooks Demo.showing_a))
              (currentIndex (hooks Demo.showing_a))) as [item|] eqn:E;
    [|by vm_compute in E].
  assert (classify (url item) = Image) as Hc.
  { vm_compute in E. injection E as <-. by vm_compute. }
  destruct (toggle_sound_restarts_slide Demo.three_items Demo.showing_a item
              DemoFacts.showing_a_reachable E) as (s' & Hs & Hm & _ & Hk).
  rewrite Hc in Hk. destruct Hk as (Hcl & Ht & _).
  exists s'. split_and!; [exact Hs|exact Hm|exact Hcl|..]; rewrite Ht.
  - change (nextTimer Demo.showing_a) with 2%nat.
    rewrite lookup_insert_ne by done.
    change (sliderCleanup Demo.showing_a) with (Some 1%nat).
    unfold cleared. by rewrite lookup_delete_eq.
  - change (nextTimer Demo.showing_a) with 2%nat.
    by rewrite lookup_insert_eq.
Defined.

(** ** The closures of the dwell timers *)

Module ClosureFacts.

Import SliderFacts CommitFacts HandlerFacts RunFacts FrameFacts TimerFacts.

Lemma dwell_sub_refl tm : dwell_sub tm tm.
Proof. by intros id t r Ht _. Qed.

Lemma dwell_sub_trans tm1 tm2 tm3 :
  dwell_sub tm1 tm2 → dwell_sub tm2 tm3 → dwell_sub tm1 tm3.
Proof. intros H12 H23 id t r Ht Hcb. eapply H23; [|done]. by eapply H12. Qed.

Lemma dwell_sub_cleared c tm : dwell_sub (cleared c tm) tm.
Proof. intros id t r Ht _. by apply cleared_lookup in Ht as [Ht _]. Qed.

Lemma dwell_sub_delete i tm : dwell_sub (delete i tm) tm.
Proof. apply (dwell_sub_cleared (Some i)). Qed.

Lemma dwell_sub_insert i t0 tm :
  (∀ r, callback t0 ≠ CbNextSlide r) → dwell_sub (<[i := t0]> tm) tm.
Proof.
  intros Hno id t r. rewrite lookup_insert_Some.
  intros [[<- <-]|[_ Ht]] Hcb; [by destruct (Hno r)|done].
Qed.

Lemma showToast_dwell msg s : dwell_sub (timers (showToast msg s)) (timers s).
Proof. by apply dwell_sub_insert. Qed.

Lemma fetchContent_dwell r bg s t0 :
  dwell_sub (timers s) t0 → dwell_sub (timers (fetchContent r bg s)) t0.
Proof. by destruct (PollFacts.fetchContent_timers r bg s) as (-> & _). Qed.

(** No handler arms a dwell timer. *)
Lemma handle_dwell env ev s s1 :
  handle env ev s = Normal s1 → dwell_sub (timers s1) (timers s).
Proof.
  destruct ev as [n|id|k| |msg|b| | | | |file|path confirmed]; simpl;
    try (intros [= <-]; apply dwell_sub_refl).
  - destruct (pending s !! n) as [[path| |r path file|r path]|]; simpl;
      [| | | |intros [= <-]; apply dwell_sub_refl].
    + unfold fetchContent_settle.
      destruct (list_items env path) as [items|e]; simpl.
      * rewrite ReconcilerFacts.reconcile_eq. simpl.
        intros [= <-]. apply dwell_sub_refl.
      * intros [= <-]. apply dwell_sub_refl.
    + intros [= <-]. unfold checkVersion_settle.
      destruct (version_differs env) as [[]|]; apply dwell_sub_refl.
    + intros [= <-]. unfold handleUpload_settle.
      destruct (uploadBytes env path file);
        [apply fetchContent_dwell|];
        apply (showToast_dwell _ (with_pending (delete n) s)).
    + intros [= <-]. unfold handleDelete_settle.
      destruct (deleteObject env path);
        [apply fetchContent_dwell|];
        apply (showToast_dwell _ (with_pending (delete n) s)).
  - destruct (timers s !! id) as [t|]; [|intros [= <-]; apply dwell_sub_refl].
    intros [= <-].
    assert (dwell_sub
              (timers (match timer_kind t with
                       | Timeout => clearTimer id s
                       | Interval => s
                       end)) (timers s)) as Hd.
    { destruct (timer_kind t); [apply dwell_sub_delete|apply dwell_sub_refl]. }
    destruct (callback t) as [r|r|]; simpl; [done| |done].
    unfold checkVersion. by apply (fetchContent_dwell r true).
  - destruct (videoRefs s !! k); intros [= <-]; apply dwell_sub_refl.
  - intros [= <-]. unfold toggleSound.
    destruct (videoRef _ _); apply dwell_sub_refl.
  - intros [= <-]. unfold toggleFullscreenAndUi.
    destruct (fullscreenElement s); apply dwell_sub_refl.
  - intros [= <-]. unfold handleUpload.
    destruct file; [apply showToast_dwell|apply dwell_sub_refl].
  - intros [= <-]. unfold handleDelete.
    destruct confirmed; [apply showToast_dwell|apply dwell_sub_refl].
Qed.

(** After a handler, when the slider effect is not due, the closures are
    those of the cells. *)
Lemma handle_closures env ev s s1 :
  Inv s → closures_current s →
  handle env ev s = Normal s1 →
  slider_settled s1 → closures_current s1.
Proof.
  intros [_ _ _ _ Hs Hf _] Hc H1 Hset.
  destruct (handle_handled env ev s) as (t & Ht & [_ _ Hs1 _ _ _ Hp]).
  assert (t = s1) as -> by congruence.
  unfold slider_settled in Hset. rewrite Hs1, Hs in Hset.
  injection Hset as Hi Hid Hmu.
  assert (mediaItems (hooks s1) = mediaItems (hooks s)) as Hm.
  { destruct Hp as [[Hm _]|[Hnew _]]; [done|]. lia. }
  intros id t r Hl Hcb.
  rewrite (Hc id t r); [|by eapply (handle_dwell env ev)|done].
  unfold slide_of. by rewrite Hm, Hi, Hmu.
Qed.

Lemma mount_kiosk_effects_slide r s :
  let u := run_kiosk_effects r (run_mount_effects s) in
  slide_of (hooks u) = slide_of (hooks s) ∧
  sliderDeps u = sliderDeps s ∧
  dwell_sub (timers u) (timers s).
Proof.
  simpl.
  assert (slide_of (hooks (run_mount_effects s)) = slide_of (hooks s) ∧
          sliderDeps (run_mount_effects s) = sliderDeps s ∧
          timers (run_mount_effects s) = timers s) as (H1 & H2 & H3).
  { unfold run_mount_effects. by destruct (mountEffectsDone s). }
  rewrite <-H1, <-H2, <-H3. generalize (run_mount_effects s). clear. intros s.
  unfold run_kiosk_effects. case_bool_decide.
  { split_and!; [done..|apply dwell_sub_refl]. }
  set (s1 := initialFetchEffect r s).
  assert (slide_of (hooks s1) = slide_of (hooks s) ∧
          sliderDeps s1 = sliderDeps s ∧ timers s1 = timers s)
    as (H1 & H2 & H3).
  { unfold s1, initialFetchEffect. destruct (kiosk_known _); [|done].
    unfold fetchContent. destruct (negb _); [done|]. by destruct (_ && _). }
  rewrite <-H1, <-H2, <-H3. clearbody s1.
  unfold pollEffect. destruct (negb _); simpl.
  - rewrite run_cleanup_hooks, run_cleanup_sliderDeps, run_cleanup_timers.
    split_and!; [done..|apply dwell_sub_cleared].
  - rewrite run_cleanup_hooks, run_cleanup_sliderDeps, run_cleanup_timers,
      run_cleanup_nextTimer.
    split_and!; [done..|].
    eapply dwell_sub_trans; [|apply dwell_sub_cleared].
    by apply dwell_sub_insert.
Qed.

(** The effects keep the closures current: where the slider effect does not
    run the dwell timers stay, and where it runs it clears the dwell timer
    and arms at most one, with the [nextSlide] of the render at hand. *)
Lemma run_effects_closures s s' :
  timers_owned s →
  (slider_settled s → closures_current s) →
  run_effects s = Normal s' →
  slider_settled s' → closures_current s'.
Proof.
  intros Ho Hc. unfold run_effects.
  destruct (mount_kiosk_effects_slide (hooks s) s) as (Hsl & Hd & Hsub).
  assert (timers_owned (run_kiosk_effects (hooks s) (run_mount_effects s)))
    as Hou by by apply run_kiosk_effects_owned, run_mount_effects_owned.
  revert Hsl Hd Hsub Hou.
  generalize (run_kiosk_effects (hooks s) (run_mount_effects s)).
  intros u Hsl Hd Hsub Hou.
  unfold run_slider_effect. case_bool_decide as Hdeps.
  - intros [= <-] _. intros id t r Ht Hcb.
    rewrite Hsl. apply (Hc ltac:(unfold slider_settled; congruence) id t r);
      [by eapply Hsub|done].
  - pose proof (owned_drop_slider _ _ _ _ Hou) as Hdrop.
    set (s0 := run_cleanup (sliderCleanup u) u).
    assert (∀ id t r, timers s0 !! id = Some t → callback t ≠ CbNextSlide r)
      as Hnone.
    { intros id t r Ht Hcb. unfold s0 in Ht. rewrite run_cleanup_timers in Ht.
      by pose proof (own_slider _ _ _ _ Hdrop _ _ _ Ht Hcb). }
    assert (hooks s0 = hooks u) as Hh0 by apply run_cleanup_hooks.
    clearbody s0. unfold sliderEffect.
    case_bool_decide.
    { intros [= <-] _ id t r Ht Hcb. by destruct (Hnone id t r). }
    destruct (_ >=? _).
    { intros [= <-] _ id t r Ht Hcb. by destruct (Hnone id t r). }
    destruct (arr_get _ _) as [item|]; [|done].
    destruct (negb _); simpl.
    + intros [= <-] _ id t r. simpl. rewrite lookup_insert_Some.
      intros [[_ <-]|[_ Ht]] Hcb; [|by destruct (Hnone id t r)].
      simpl in Hcb. injection Hcb as <-. by rewrite Hh0, Hsl.
    + destruct (videoRef s0 _); intros [= <-] _ id t r Ht Hcb;
        by destruct (Hnone id t r).
Qed.

Lemma commit_closures n s s' :
  timers_owned s →
  (slider_settled s → closures_current s) →
  commit n s = Normal s' →
  slider_settled s' → closures_current s'.
Proof.
  intros Ho Hc Hcommit.
  apply (commit_preserves
           (λ t, timers_owned t ∧ (slider_settled t → closures_current t)))
    with (n := n) (s := s); [| |done|done].
  - intros t [Ht1 Ht2]. split; [exact Ht1|exact Ht2].
  - intros t t' [Ht1 Ht2] He. split.
    + by eapply run_effects_owned.
    + by eapply run_effects_closures.
Qed.

Lemma reachable_closures s : reachable s → closures_current s.
Proof.
  intros Hr. pose proof (inv_slider s (reachable_Inv s Hr)) as Hset.
  revert Hset. induction Hr as [id s Hm|s env ev s' Hr IH Hstep].
  - eapply commit_closures; [apply initial_owned| |exact Hm].
    intros _ i t r Ht. simpl in Ht. by rewrite lookup_empty in Ht.
  - unfold step in Hstep.
    destruct (handle env ev s) as [s1|e] eqn:E; [|done]. simpl in Hstep.
    pose proof (reachable_Inv s Hr) as HI.
    eapply commit_closures; [| |exact Hstep].
    + eapply handle_owned; [|exact E]. by apply reachable_owned.
    + eapply handle_closures; [exact HI| |exact E].
      apply IH, (inv_slider s HI).
Qed.

End ClosureFacts.

(** X14: the [nextSlide] inside an armed dwell timer is never stale.  The
    timer's callback closes over the render that armed it; in every state of
    the program that render had the playlist object, the index and the mute
    flag that the cells hold now, so the advance the timer will make is
    computed from the playlist on screen: a playlist that was replaced, an
    index that moved or a toggled sound has cleared the timer and armed a
    new one. *)
Theorem dwell_closure_is_current (s : State) (id : nat) (t : Timer)
    (r : Hooks) :
  reachable s →
  timers s !! id = Some t →
  callback t = CbNextSlide r →
  mediaItems r = mediaItems (hooks s) ∧
  currentIndex r = currentIndex (hooks s) ∧
  isMuted r = isMuted (hooks s) ∧
  sliderCleanup s = Some id ∧
  ∀ prev, nextSlide_updater r prev = nextSlide_updater (hooks s) prev.
Proof.
  intros Hr Ht Hcb.
  pose proof (ClosureFacts.reachable_closures s Hr id t r Ht Hcb) as Hsl.
  unfold slide_of in Hsl. injection Hsl as Hm Hi Hmu.
  split_and!; [done..| |].
  - by apply (own_slider _ _ _ _ (TimerFacts.reachable_owned s Hr) id t r).
  - intros prev. unfold nextSlide_updater. by rewrite Hm.
Qed.

(** The witness of X14: the dwell timer of a.png in kiosk "lobby". *)
Lemma dwell_closure_is_current_witness :
  ∃ t r, timers Demo.showing_a !! 1%nat = Some t ∧
         callback t = CbNextSlide r ∧
         mediaItems r = mediaItems (hooks Demo.showing_a) ∧
         currentIndex r = 0.
Proof.
  destruct (timers Demo.showing_a !! 1%nat) as [t|] eqn:Et;
    [|by vm_compute in Et].
  destruct (callback t) as [r|r|] eqn:Ecb;
    [|vm_compute in Et; injection Et as <-; discriminate Ecb..].
  destruct (dwell_closure_is_current Demo.showing_a 1%nat t r
              DemoFacts.showing_a_reachable Et Ecb) as (Hm & Hi & _).
  exists t, r. by split_and!.
Defined.
